(** * 11st category crawler: a shallow embedding of [src/main.py]

    The program drives a browser over one category page of 11st.co.kr,
    reads name / price / thumbnail of every product card, downloads the
    thumbnails and exports the list to a spreadsheet.

    What the embedding keeps from the source:
    - Python values are [pyval]; a [str] is a list of Unicode code points
      ([pystr]), so that slices such as [name[:50]] count characters;
    - a product is the Python [dict] the code builds: [gmap string pyval];
    - the worker ([CrawlerThread]) is code in a state-and-exception monad
      [M]; every signal it emits and every outside call it makes with a
      visible effect is appended to a trace;
    - the outside world (browser, DOM, HTTP, file system, wall clock, the
      thread that clears [is_running]) is a record of oracles, [world];
    - the slots of [MainWindow] that follow a crawl are functions on a
      record [window]; the signals of the worker reach them in the order of
      the trace;
    - library functions whose tables are not part of the repository
      ([json.loads], [str.isalnum], [str.isspace], what openpyxl accepts in
      a cell, what [QTableWidgetItem] accepts as text) are section
      variables. *)

From Stdlib Require Import Ascii String ZArith.
From stdpp Require Import gmap strings list fin_maps pretty.

Local Open Scope Z_scope.
Local Open Scope nat_scope.

(** ** Python strings *)

Abbreviation pystr := (list N).

(** An ASCII literal of the source as a Python [str]. *)
Definition lit (s : string) : pystr := map N_of_ascii (list_ascii_of_string s).

Module PyStr.

(** [s.startswith(p)] *)
Fixpoint startswith (p s : pystr) : bool :=
  match p, s with
  | [], _ => true
  | _ :: _, [] => false
  | a :: p', b :: s' => (a =? b)%N && startswith p' s'
  end.

(** [sub in s] *)
Fixpoint contains (sub s : pystr) : bool :=
  startswith sub s ||
  match s with
  | [] => false
  | _ :: s' => contains sub s'
  end.

(** [s.replace(old, new)] for a non-empty [old]: occurrences are replaced
    from left to right and do not overlap.  [skip] counts the characters
    of the occurrence just replaced that are still to be dropped. *)
Fixpoint replace_go (old new : pystr) (skip : nat) (s : pystr) : pystr :=
  match s with
  | [] => []
  | c :: s' =>
      match skip with
      | S k => replace_go old new k s'
      | O =>
          if startswith old s
          then new ++ replace_go old new (length old - 1) s'
          else c :: replace_go old new 0 s'
      end
  end.

Definition replace (old new s : pystr) : pystr := replace_go old new 0 s.

(** [str(n)] for a non-negative integer. *)
Definition of_nat (n : nat) : pystr := lit (pretty n).

(** [s == t] *)
Definition eqb (s t : pystr) : bool := bool_decide (s = t).

(** ["%0kd" % n] *)
Definition zero_pad (k n : nat) : pystr :=
  let d := of_nat n in replicate (k - length d) 48%N ++ d.

End PyStr.

(** ** Python values *)

#[warnings="-register-all"]
Inductive pyval : Type :=
  | PNone
  | PBool (b : bool)
  | PInt (z : Z)
  | PStr (s : pystr)
  | PList (l : list pyval)
  | PDict (kvs : list (pystr * pyval)).

(** Truth value of an object in a condition ([if x], [x and y], [not x]). *)
Definition truthy (v : pyval) : bool :=
  match v with
  | PNone => false
  | PBool b => b
  | PInt z => negb (z =? 0)%Z
  | PStr s => negb (bool_decide (s = []))
  | PList l => negb (bool_decide (length l = 0))
  | PDict kvs => negb (bool_decide (length kvs = 0))
  end.

(** [v == s] for a string constant [s]. *)
Definition eq_str (v : pyval) (s : pystr) : bool :=
  match v with
  | PStr t => PyStr.eqb t s
  | _ => false
  end.

(** A non-empty [str]. *)
Definition nonempty_str (v : pyval) : Prop :=
  ∃ s, v = PStr s ∧ s ≠ [].

(** [d.get(k, default)] on the association list of a decoded JSON object. *)
Fixpoint assoc_get (kvs : list (pystr * pyval)) (k : pystr) (dflt : pyval) : pyval :=
  match kvs with
  | [] => dflt
  | (k', v) :: rest => if PyStr.eqb k' k then v else assoc_get rest k dflt
  end.

(** The product record is the [dict] built by [extract_products]. *)
Abbreviation product := (gmap string pyval).

(** [product.get(k, default)] *)
Definition dict_get (p : product) (k : string) (dflt : pyval) : pyval :=
  default dflt (p !! k).

(** ** Exceptions and outcomes *)

(** A Python exception: its class name and [str(e)]. *)
Inductive exn : Type := PyExn (kind : string) (msg : pystr).

(** What a call that returns or raises gives: library calls, oracles of the
    outside world, and the straight-line Python of the model. *)
Inductive reply (A : Type) : Type :=
  | Returns (a : A)
  | Raises (e : exn).
Arguments Returns {A} a.
Arguments Raises {A} e.

(** What running a piece of the worker gives: a value, a raised exception,
    or [Diverge] when the fuel of a [while] loop of the model ran out. *)
Inductive outcome (A : Type) : Type :=
  | Ok (a : A)
  | Raise (e : exn)
  | Diverge.
Arguments Ok {A} a.
Arguments Raise {A} e.
Arguments Diverge {A}.

(** ** The outside world *)

(** [requests.Response]: the two attributes the code reads. *)
Record response : Type := Response {
  status_code : Z;
  content : list Init.Byte.byte
}.

(** The date part of [datetime.now()]. *)
Record date : Type := Date { year : nat; month : nat; day : nat }.

(** An [ElementHandle]: the attributes that [get_attribute] can return and
    the result of [inner_text()]. *)
Record element : Type := Element {
  attributes : gmap string pystr;
  inner_text : pystr
}.

(** One anchor returned by [query_selector_all], with what the three
    [query_selector] calls of [extract_products] find for it:
    - [name_elem]: [link.query_selector(".//span[@class='sr-only']")],
    - [price_elem]: [parent.query_selector(".//strong[contains(@class,'price')]")],
    - [img_elem]: [parent.query_selector(".//img")].
    [fault = Some e] means that one of the awaited browser calls made for
    this anchor raises [e]; all of them come before [products.append]. *)
Record card : Type := Card {
  link : element;
  name_elem : option element;
  price_elem : option element;
  img_elem : option element;
  fault : option exn
}.

(** The oracles.  An oracle that is consulted once per loop iteration takes
    the 1-based index of the iteration ([idx], [scroll_count]);
    [scroll_height 0] is the evaluation before the loop.  [browser_close]
    answers every call alike.
    [stop_after = Some k]: the GUI thread calls [stop()] after the worker
    has read [self.is_running] exactly [k] times; [None]: it never does.
    The progress line that [stop()] itself emits belongs to the GUI thread
    and is not part of the worker's trace. *)
Record world : Type := World {
  stop_after : option nat;
  chromium_launch : reply unit;
  new_context : reply unit;
  new_page : reply unit;
  browser_close : reply unit;
  page_goto : reply unit;
  wait_for_selector : reply unit;
  scroll_height : nat → reply Z;
  query_selector_all : reply (list card);
  now : nat → date;
  img_dir_exists : bool;
  makedirs : reply unit;
  requests_get : nat → pystr → reply response;
  write_file : nat → pystr → list Init.Byte.byte → reply unit
}.

(** The value of [self.is_running] at the [c]-th read (from 0). *)
Definition running_at (w : world) (c : nat) : bool :=
  match stop_after w with
  | None => true
  | Some k => c <? k
  end.

(** ** Signals and trace *)

(** The texts handed to [progress.emit] and [error.emit], by format string. *)
Inductive message : Type :=
  | MsgInitBrowser                                (* "브라우저 초기화 중..." *)
  | MsgLoadingPage (url : pystr)                  (* "페이지 로딩 중: {url}" *)
  | MsgWaitingList                                (* "상품 목록 로딩 대기 중..." *)
  | MsgScrollStart                                (* "페이지 스크롤 중 (이미지 로딩)..." *)
  | MsgScrolling (pos height : Z) (count : nat)   (* "스크롤 중... ({pos}/{height}px) [{count}/100회]" *)
  | MsgCollecting                                 (* "상품 정보 수집 중..." *)
  | MsgLinksFound (n : nat)                       (* "상품 {n}개 발견" *)
  | MsgItemDone (idx n : nat) (name30 : pyval)    (* "상품 {idx}/{n} 처리 완료: {name[:30]}" *)
  | MsgItemError (idx : nat) (e : exn)            (* "상품 {idx} 추출 오류: {e}" *)
  | MsgTotalFound (n : nat)                       (* "총 {n}개 상품 발견" *)
  | MsgImageDone (idx n : nat)                    (* "이미지 다운로드 {idx}/{n}" *)
  | MsgImageError (idx : nat) (e : exn)           (* "이미지 다운로드 오류 ({idx}): {e}" *)
  | MsgPageError (e : exn)                        (* "페이지 처리 오류: {e}" *)
  | MsgCrawlError (e : exn).                      (* "크롤링 오류: {e}" *)

(** The four Qt signals of [CrawlerThread], the outside calls with an effect,
    and every read of the cancellation flag. *)
Inductive event : Type :=
  | FlagRead (b : bool)
  | Progress (m : message)
  | Result (products : list product)
  | Error (m : message)
  | Finished
  | BrowserClose
  | ScrollTo (pos : Z)
  | HttpGet (idx : nat) (url : pystr) (status : Z)
  | FileWrite (idx : nat) (path : pystr) (data : list Init.Byte.byte).

(** ** The worker's state and monad *)

Record state : Type := State {
  clock : nat;                   (* reads of [self.is_running] so far *)
  trace : list event;
  self_products : list product   (* [self.products] *)
}.

Definition init_state : state :=
  {| clock := 0; trace := []; self_products := [] |}.

Definition M (A : Type) : Type := state → outcome A * state.

Definition ret {A} (a : A) : M A := λ st, (Ok a, st).

Definition bind {A B} (m : M A) (k : A → M B) : M B := λ st,
  match m st with
  | (Ok a, st') => k a st'
  | (Raise e, st') => (Raise e, st')
  | (Diverge, st') => (Diverge, st')
  end.

Declare Scope py_scope.
Delimit Scope py_scope with py.
Notation "'let*' x ':=' m 'in' k" := (bind m (λ x, k))
  (at level 10, x name, m at level 100, k at level 200) : py_scope.
Notation "m1 ';;;' m2" := (bind m1 (λ _, m2))
  (at level 100, m2 at level 200, right associativity) : py_scope.
Local Open Scope py_scope.

(** The result of an outside call enters the monad unchanged. *)
Definition lift {A} (r : reply A) : M A := λ st,
  match r with
  | Returns a => (Ok a, st)
  | Raises e => (Raise e, st)
  end.

(** The model ran out of fuel. *)
Definition diverge {A} : M A := λ st, (Diverge, st).

(** The state after [ev] was appended to the trace. *)
Definition log (ev : event) (st : state) : state :=
  {| clock := clock st; trace := trace st ++ [ev]; self_products := self_products st |}.

Definition emit (ev : event) : M unit := λ st, (Ok tt, log ev st).

(** [try: body / except Exception as e: handler e] *)
Definition try_except {A} (body : M A) (handler : exn → M A) : M A := λ st,
  match body st with
  | (Raise e, st') => handler e st'
  | r => r
  end.

(** [try: body / finally: fin]: [fin] runs after [body] returned or raised;
    an exception of [fin] replaces the outcome of [body]. *)
Definition try_finally {A} (body : M A) (fin : M unit) : M A := λ st,
  match body st with
  | (Diverge, st') => (Diverge, st')
  | (r, st') =>
      match fin st' with
      | (Ok _, st'') => (r, st'')
      | (Raise e, st'') => (Raise e, st'')
      | (Diverge, st'') => (Diverge, st'')
      end
  end.

Definition when (b : bool) (m : M unit) : M unit := if b then m else ret tt.

(** ** Constants of the source *)

Definition NA : pystr := lit "N/A".
Definition scroll_step : Z := 800.
Definition max_scrolls : nat := 100.
Definition img_dir : pystr := lit "thumbnails".
Definition quote_char : N := 34.

(** [datetime.strftime("%Y-%m-%d")] *)
Definition strftime_Ymd (d : date) : pystr :=
  PyStr.zero_pad 4 (year d) ++ lit "-" ++ PyStr.zero_pad 2 (month d)
    ++ lit "-" ++ PyStr.zero_pad 2 (day d).

(** [await el.get_attribute(name)]: [None] when the attribute is absent. *)
Definition get_attribute (el : element) (name : string) : pyval :=
  match attributes el !! name with
  | Some s => PStr s
  | None => PNone
  end.

(** [s[:k]] and iteration over it, for the values that support both: a [str]
    yields its characters as one-character strings, a [list] its items;
    slicing anything else raises. *)
Definition slice_items (v : pyval) (k : nat) : reply (list pyval) :=
  match v with
  | PStr s => Returns (map (λ c, PStr [c]) (take k s))
  | PList l => Returns (take k l)
  | PDict _ => Raises (PyExn "KeyError" [])
  | _ => Raises (PyExn "TypeError" (lit "object is not subscriptable"))
  end.

(** [v[:k]] as a value (for the progress text). *)
Definition slice_value (v : pyval) (k : nat) : reply pyval :=
  match v with
  | PStr s => Returns (PStr (take k s))
  | PList l => Returns (PList (take k l))
  | PDict _ => Raises (PyExn "KeyError" [])
  | _ => Raises (PyExn "TypeError" (lit "object is not subscriptable"))
  end.

(** The URL rewriting of [download_images] (lines 213-216). *)
Definition normalize_url (url : pystr) : pystr :=
  if PyStr.startswith (lit "//") url then lit "https:" ++ url
  else if PyStr.startswith (lit "/") url then lit "https://www.11st.co.kr" ++ url
  else url.

Section Crawler.

(** [json.loads]: [None] when it raises. *)
Variable json_loads : pystr → option pyval.
(** The Unicode table behind [str.isalnum], for one character. *)
Variable char_isalnum : N → bool.
Variable w : world.
(** [self.url] *)
Variable url : pystr.

(** *** The cancellation flag *)

(** The state after one more read of the flag. *)
Definition tick (st : state) : state :=
  {| clock := S (clock st);
     trace := trace st ++ [FlagRead (running_at w (clock st))];
     self_products := self_products st |}.

(** One read of [self.is_running]. *)
Definition is_running : M bool := λ st, (Ok (running_at w (clock st)), tick st).

(** *** [extract_products], one anchor (lines 152-189) *)

(** Lines 169-177: the price read from [data-log-body]. *)
Definition price_from_log (data_log : pyval) : pyval :=
  match data_log with
  | PStr s =>
      if truthy data_log && PyStr.contains (lit "last_discount_price") s then
        match json_loads (PyStr.replace (lit "&quot;") [quote_char] s) with
        | Some (PDict kvs) => assoc_get kvs (lit "last_discount_price") (PStr NA)
        | Some _ => PStr NA     (* [.get] raises AttributeError: bare [except] *)
        | None => PStr NA       (* [json.loads] raises: bare [except] *)
        end
      else PStr NA
  | _ => PStr NA                (* [None]: falsy *)
  end.

Definition price_of (c : card) (data_log : pyval) : pyval :=
  match price_elem c with
  | Some el => PStr (inner_text el)
  | None => price_from_log data_log
  end.

(** Lines 182 and 184: [not t or t == ''] *)
Definition unusable (t : pyval) : bool := negb (truthy t) || eq_str t [].

(** Lines 179-187. *)
Definition thumbnail_of (c : card) : pyval :=
  match img_elem c with
  | Some el =>
      let t := get_attribute el "src" in
      let t := if unusable t then get_attribute el "data-src" else t in
      let t := if unusable t then get_attribute el "data-original" else t in
      t
  | None => PStr NA
  end.

Definition name_of (c : card) : pyval :=
  match name_elem c with
  | Some el => PStr (inner_text el)
  | None => PStr NA
  end.

(** The body of the [try] up to [products.append(product)]. *)
Definition extract_fields (idx : nat) (c : card) : reply product :=
  match fault c with
  | Some e => Raises e
  | None =>
      let product : product := ∅ in
      let product := <["url" := get_attribute (link c) "href"]> product in
      let data_log := get_attribute (link c) "data-log-body" in
      let product := <["name" := name_of c]> product in
      let product := <["price" := price_of c data_log]> product in
      let product := <["thumbnail" := thumbnail_of c]> product in
      let product :=
        <["registered_date" := PStr (strftime_Ymd (now w idx))]> product in
      Returns product
  end.

(** One iteration of the [for] loop, after the flag was read.  The product
    is appended (line 191) before the progress text is built (line 192):
    an exception raised by the latter leaves it in the list. *)
Definition extract_item (n idx : nat) (c : card) (products : list product)
  : M (list product) :=
  try_except
    (let* product := lift (extract_fields idx c) in
     let products := products ++ [product] in
     try_except
       (let* name30 := lift (slice_value (dict_get product "name" PNone) 30) in
        emit (Progress (MsgItemDone idx n name30)) ;;;
        ret products)
       (λ e, emit (Progress (MsgItemError idx e)) ;;; ret products))
    (λ e, emit (Progress (MsgItemError idx e)) ;;; ret products).

Fixpoint extract_loop (n idx : nat) (links : list card) (products : list product)
  : M (list product) :=
  match links with
  | [] => ret products
  | c :: rest =>
      let* r := is_running in
      if negb r then ret products
      else
        let* products := extract_item n idx c products in
        extract_loop n (S idx) rest products
  end.

Definition extract_products : M (list product) :=
  let* r := is_running in
  if negb r then ret []
  else
    let* product_links := lift (query_selector_all w) in
    emit (Progress (MsgLinksFound (length product_links))) ;;;
    extract_loop (length product_links) 1 product_links [].


(** *** [scroll_gradually] (lines 111-134) *)

(** The local variables of the loop. *)
Record scroll_state : Type := ScrollState {
  last_height : Z;
  current_position : Z;
  scroll_count : nat
}.

(** The [while] loop; [fuel] bounds the iterations of the model only.
    The value returned is the loop state at exit (the source returns
    nothing).  The [window.scrollTo] evaluation is recorded in the trace; a
    failure of the page shows at the height evaluation that follows it.
    The pauses ([asyncio.sleep]) have no counterpart here. *)
Fixpoint scroll_loop (fuel : nat) (s : scroll_state) : M scroll_state :=
  match fuel with
  | O => diverge
  | S fuel' =>
      if negb (scroll_count s <? max_scrolls) then ret s
      else
        let* r := is_running in
        if negb r then ret s
        else
          let pos := (current_position s + scroll_step)%Z in
          emit (ScrollTo pos) ;;;
          let count := S (scroll_count s) in
          let* new_height := lift (scroll_height w count) in
          emit (Progress (MsgScrolling pos new_height count)) ;;;
          if (pos >=? new_height)%Z then
            if (new_height =? last_height s)%Z then
              ret {| last_height := last_height s; current_position := pos;
                     scroll_count := count |}
            else
              scroll_loop fuel' {| last_height := new_height; current_position := 0;
                                   scroll_count := count |}
          else
            scroll_loop fuel' {| last_height := last_height s; current_position := pos;
                                 scroll_count := count |}
  end.

Definition scroll_gradually (fuel : nat) : M scroll_state :=
  let* h := lift (scroll_height w 0) in
  scroll_loop fuel {| last_height := h; current_position := 0; scroll_count := 0 |}.

(** *** [download_images] (lines 200-230) *)

(** [c.isalnum()] for a [str] [c]: non-empty and every character alphanumeric. *)
Definition str_isalnum (s : pystr) : bool :=
  negb (bool_decide (s = [])) && forallb char_isalnum s.

(** The filter of line 220 on one item: [c.isalnum() or c in (' ', '_')]. *)
Definition keep_in_name (c : pyval) : reply bool :=
  match c with
  | PStr s => Returns (str_isalnum s || PyStr.eqb s (lit " ") || PyStr.eqb s (lit "_"))
  | _ => Raises (PyExn "AttributeError" (lit "isalnum"))
  end.

(** ["".join(c for c in items if keep c)] *)
Fixpoint join_kept (items : list pyval) : reply pystr :=
  match items with
  | [] => Returns []
  | c :: rest =>
      match keep_in_name c with
      | Returns b =>
          match join_kept rest with
          | Returns s =>
              if b then match c with PStr t => Returns (t ++ s) | _ => Returns s end
              else Returns s
          | r => r
          end
      | Raises e => Raises e
      end
  end.

(** Line 220. *)
Definition safe_name (name : pyval) : reply pystr :=
  match slice_items name 50 with
  | Returns items => join_kept items
  | Raises e => Raises e
  end.

(** Line 221. *)
Definition thumbnail_path (idx : nat) (safe : pystr) : pystr :=
  img_dir ++ lit "/" ++ PyStr.of_nat idx ++ lit "_" ++ safe ++ lit ".jpg".

(** [product[k]] *)
Definition getitem (p : product) (k : string) : reply pyval :=
  match p !! k with
  | Some v => Returns v
  | None => Raises (PyExn "KeyError" (lit k))
  end.

(** The receiver of [url.startswith]: only a [str] has the method. *)
Definition as_str (v : pyval) : reply pystr :=
  match v with
  | PStr s => Returns s
  | _ => Raises (PyExn "AttributeError" (lit "startswith"))
  end.

(** [requests.get(url, timeout=10)], recorded when it returns. *)
Definition http_get (idx : nat) (url : pystr) : M response :=
  let* r := lift (requests_get w idx url) in
  emit (HttpGet idx url (status_code r)) ;;;
  ret r.

(** [with open(filename, 'wb') as f: f.write(data)], recorded when it succeeds. *)
Definition file_write (idx : nat) (path : pystr) (data : list Init.Byte.byte) : M unit :=
  lift (write_file w idx path data) ;;;
  emit (FileWrite idx path data).

(** One iteration of the [for] loop, after the flag was read (lines 210-230).
    The [dict] is updated in place in the source; here the updated product
    is returned. *)
Definition download_item (n idx : nat) (p : product) : M product :=
  try_except
    (let thumbnail := dict_get p "thumbnail" PNone in
     if truthy thumbnail && negb (eq_str thumbnail NA) then
       let* url := lift (as_str thumbnail) in
       let url := normalize_url url in
       let* response := http_get idx url in
       if (status_code response =? 200)%Z then
         let* name := lift (getitem p "name") in
         let* safe := lift (safe_name name) in
         let filename := thumbnail_path idx safe in
         file_write idx filename (content response) ;;;
         let p := <["thumbnail_local" := PStr filename]> p in
         emit (Progress (MsgImageDone idx n)) ;;;
         ret p
       else ret p
     else ret p)
    (λ e, emit (Progress (MsgImageError idx e)) ;;; ret p).

Fixpoint download_loop (n idx : nat) (products : list product) : M (list product) :=
  match products with
  | [] => ret []
  | p :: rest =>
      let* r := is_running in
      if negb r then ret (p :: rest)
      else
        let* p' := download_item n idx p in
        let* rest' := download_loop n (S idx) rest in
        ret (p' :: rest')
  end.

Definition download_images (products : list product) : M (list product) :=
  when (negb (img_dir_exists w)) (lift (makedirs w)) ;;;
  download_loop (length products) 1 products.


(** *** [crawl] and [run] (lines 35-109) *)

(** [await browser.close()] *)
Definition close_browser : M unit :=
  emit BrowserClose ;;; lift (browser_close w).

(** [if self.is_running: self.error.emit(...)] *)
Definition emit_error_if_running (m : message) : M unit :=
  let* r := is_running in
  when r (emit (Error m)).

(** [self.products = products] *)
Definition set_products (products : list product) : M unit := λ st,
  (Ok tt, {| clock := clock st; trace := trace st; self_products := products |}).

(** Lines 98-99: the flag is read only when [products] is non-empty. *)
Definition download_if_running (products : list product) : M (list product) :=
  if negb (bool_decide (length products = 0)) then
    let* r := is_running in
    if r then download_images products else ret products
  else ret products.

(** Lines 59-103, the body of the inner [try].  A [return] is the end of a
    branch; the [finally] of the caller runs after it. *)
Definition crawl_page (fuel : nat) : M unit :=
  let* r := is_running in
  if negb r then close_browser
  else
    emit (Progress (MsgLoadingPage url)) ;;;
    lift (page_goto w) ;;;
    let* r := is_running in
    if negb r then close_browser
    else
      emit (Progress MsgWaitingList) ;;;
      lift (wait_for_selector w) ;;;
      let* r := is_running in
      if negb r then close_browser
      else
        emit (Progress MsgScrollStart) ;;;
        scroll_gradually fuel ;;;
        let* r := is_running in
        if negb r then close_browser
        else
          emit (Progress MsgCollecting) ;;;
          let* products := extract_products in
          let* r := is_running in
          if negb r then close_browser
          else
            emit (Progress (MsgTotalFound (length products))) ;;;
            let* products := download_if_running products in
            let* r := is_running in
            when r (set_products products ;;; emit (Result products)).

Definition crawl (fuel : nat) : M unit :=
  let* r := is_running in
  if negb r then ret tt
  else
    emit (Progress MsgInitBrowser) ;;;
    lift (chromium_launch w) ;;;
    lift (new_context w) ;;;
    lift (new_page w) ;;;
    try_finally
      (try_except (crawl_page fuel)
         (λ e, emit_error_if_running (MsgPageError e)))
      close_browser.

Definition run (fuel : nat) : M unit :=
  try_finally
    (try_except (crawl fuel)
       (λ e, emit_error_if_running (MsgCrawlError e)))
    (emit Finished).

End Crawler.

(** ** [MainWindow.export_to_excel] (lines 359-482) *)

(** A literal of the source with characters outside ASCII: the bytes of the
    Rocq string are UTF-8 and are decoded to code points. *)
Fixpoint utf8_decode (bs : list N) : pystr :=
  match bs with
  | [] => []
  | b :: r =>
      if (b <? 128)%N then b :: utf8_decode r
      else if (b <? 224)%N then
        match r with
        | b1 :: r' => ((b - 192) * 64 + (b1 - 128))%N :: utf8_decode r'
        | _ => []
        end
      else if (b <? 240)%N then
        match r with
        | b1 :: b2 :: r' =>
            ((b - 224) * 4096 + (b1 - 128) * 64 + (b2 - 128))%N :: utf8_decode r'
        | _ => []
        end
      else
        match r with
        | b1 :: b2 :: b3 :: r' =>
            ((b - 240) * 262144 + (b1 - 128) * 4096 + (b2 - 128) * 64 + (b3 - 128))%N
              :: utf8_decode r'
        | _ => []
        end
  end.

Definition ulit (s : string) : pystr := utf8_decode (lit s).

(** Line 376. *)
Definition headers : list pystr :=
  [ulit "순번"; ulit "대표이미지"; ulit "상품명"; ulit "가격"; ulit "썸네일URL";
   ulit "로컬이미지경로"].

(** An image added with [ws.add_image(img, anchor)]. *)
Record sheet_image : Type := SheetImage {
  img_anchor : string * nat;     (* column letter and row of the anchor cell *)
  img_width : Z;
  img_height : Z
}.

(** The part of an openpyxl worksheet the export writes; the sheet title,
    fonts and alignments are left out.  [cells] is keyed by (row, column). *)
Record worksheet : Type := Worksheet {
  cells : gmap (nat * nat) pyval;
  column_widths : gmap string Z;
  row_heights : gmap nat Z;
  images : list sheet_image
}.

(** The lines written to [self.log_text] during the export. *)
Inductive export_log : Type :=
  | LogImageInserted (row : nat)                 (* "✓ 이미지 삽입: 행 {row}" *)
  | LogImageError (row : nat) (e : exn)          (* "✗ 이미지 삽입 오류 (행 {row}): {e}" *)
  | LogImageMissing (row : nat) (path : pyval)   (* "⚠ 이미지 파일 없음 (행 {row}): {path}" *)
  | LogSaved (filename : pystr).                 (* "✓ 엑셀 파일 저장 완료: {filename}" *)

(** The oracles of the export.
    - [save_dialog]: the file name returned by [QFileDialog.getSaveFileName]
      (empty when the dialog is dismissed);
    - [path_exists idx p]: [os.path.exists(p)] while row [idx] is written;
    - [prepare_image idx p]: lines 417-440 for row [idx], that is the path
      arithmetic, the PIL decoding and conversion, the temporary JPEG and
      [XLImage(temp_path)]; it gives the temporary path or the exception;
    - [workbook_save]: [wb.save(filename)]. *)
Record export_world : Type := ExportWorld {
  save_dialog : pystr;
  path_exists : nat → pyval → reply bool;
  prepare_image : nat → pyval → reply pystr;
  workbook_save : reply unit
}.

(** How the export ends.  A saved export carries the sheet, the log lines
    and [self.temp_files] as it is when the workbook has been saved: the
    paths that the cleanup loop of lines 468-475 goes through. *)
Inductive export_result : Type :=
  | NothingToExport                       (* line 360: warning box *)
  | DialogDismissed                       (* line 369: no file name *)
  | ExportFailed (e : exn)                (* line 480: error box *)
  | Saved (ws : worksheet) (log : list export_log) (temp_paths : list pystr).

(** Bind of [reply]. *)
Definition obind {A B} (o : reply A) (k : A → reply B) : reply B :=
  match o with
  | Returns a => k a
  | Raises e => Raises e
  end.
Notation "'let?' x ':=' o 'in' k" := (obind o (λ x, k))
  (at level 10, x name, o at level 100, k at level 200) : py_scope.

Definition empty_worksheet : worksheet :=
  {| cells := ∅; column_widths := ∅; row_heights := ∅; images := [] |}.

Definition set_column_width (col : string) (width : Z) (ws : worksheet) : worksheet :=
  {| cells := cells ws; column_widths := <[col := width]> (column_widths ws);
     row_heights := row_heights ws; images := images ws |}.

Definition set_row_height (row : nat) (height : Z) (ws : worksheet) : worksheet :=
  {| cells := cells ws; column_widths := column_widths ws;
     row_heights := <[row := height]> (row_heights ws); images := images ws |}.

Definition add_image (img : sheet_image) (ws : worksheet) : worksheet :=
  {| cells := cells ws; column_widths := column_widths ws;
     row_heights := row_heights ws; images := images ws ++ [img] |}.

Section Exporter.

(** What openpyxl stores when a value is assigned to a cell, or the
    exception it raises ([ValueError], [IllegalCharacterError]). *)
Variable cell_store : pyval → reply pyval.
Variable xw : export_world.

(** [ws.cell(row, column, value)]: the cell is created when absent and, if
    [value] is not [None], assigned. *)
Definition ws_cell (row col : nat) (value : pyval) (ws : worksheet) : reply worksheet :=
  let? stored :=
    match value with
    | PNone => Returns (default PNone (cells ws !! (row, col)))
    | _ => cell_store value
    end in
  Returns {| cells := <[(row, col) := stored]> (cells ws);
        column_widths := column_widths ws;
        row_heights := row_heights ws; images := images ws |}.

(** Lines 377-380. *)
Fixpoint write_headers (col_num : nat) (hs : list pystr) (ws : worksheet)
  : reply worksheet :=
  match hs with
  | [] => Returns ws
  | header :: rest =>
      let? ws := ws_cell 1 col_num (PStr header) ws in
      write_headers (S col_num) rest ws
  end.

(** The state threaded through the rows: sheet, log and [self.temp_files]. *)
Record export_state : Type := ExportState {
  sheet : worksheet;
  log_text : list export_log;
  temp_files : list pystr
}.

(** Lines 414-462: the image of one row. *)
Definition embed_image (idx row_num : nat) (local_path : pyval) (ex : export_state)
  : reply export_state :=
  let? present :=
    if truthy local_path then path_exists xw idx local_path else Returns false in
  if present then
    match prepare_image xw idx local_path with
    | Returns temp_path =>
        let img := {| img_anchor := ("B", row_num); img_width := 100; img_height := 100 |} in
        let ws := add_image img (sheet ex) in
        let ws := set_row_height row_num 75 ws in
        Returns {| sheet := ws;
              log_text := log_text ex ++ [LogImageInserted row_num];
              temp_files := temp_files ex ++ [temp_path] |}
    | Raises e =>
        Returns {| sheet := set_row_height row_num 30 (sheet ex);
              log_text := log_text ex ++ [LogImageError row_num e];
              temp_files := temp_files ex |}
    end
  else
    Returns {| sheet := set_row_height row_num 30 (sheet ex);
          log_text := log_text ex ++ [LogImageMissing row_num local_path];
          temp_files := temp_files ex |}.

(** Lines 392-462: one product. *)
Definition export_row (idx : nat) (p : product) (ex : export_state)
  : reply export_state :=
  let row_num := idx + 1 in
  let ws := sheet ex in
  let? ws := ws_cell row_num 1 (PInt (Z.of_nat idx)) ws in
  let? ws := ws_cell row_num 3 (dict_get p "name" (PStr [])) ws in
  let? ws := ws_cell row_num 4 (dict_get p "price" (PStr [])) ws in
  let? ws := ws_cell row_num 5 (dict_get p "thumbnail" (PStr [])) ws in
  let local_path := dict_get p "thumbnail_local" (PStr []) in
  let? ws := ws_cell row_num 6 local_path ws in
  embed_image idx row_num local_path
    {| sheet := ws; log_text := log_text ex; temp_files := temp_files ex |}.

Fixpoint export_rows (idx : nat) (products : list product) (ex : export_state)
  : reply export_state :=
  match products with
  | [] => Returns ex
  | p :: rest =>
      let? ex := export_row idx p ex in
      export_rows (S idx) rest ex
  end.

(** Lines 371-388. *)
Definition new_sheet : reply worksheet :=
  let? ws := write_headers 1 headers empty_worksheet in
  Returns (set_column_width "F" 60 (set_column_width "E" 60 (set_column_width "D" 15
       (set_column_width "C" 50 (set_column_width "B" 20
         (set_column_width "A" 8 ws)))))).

(** Lines 370-482, the [try] block; [old_temp] is [self.temp_files] as left
    by earlier exports (empty when the attribute does not exist).  The last
    component is [self.temp_files] after [wb.save]; which of these paths the
    cleanup loop removes depends on [os.path.exists] and [os.remove] and is
    not decided here. *)
Definition export_workbook (products : list product) (old_temp : list pystr)
  : reply (worksheet * list export_log * list pystr) :=
  let? ws := new_sheet in
  let? ex := export_rows 1 products
               {| sheet := ws; log_text := []; temp_files := old_temp |} in
  let? _ := workbook_save xw in
  Returns (sheet ex, log_text ex ++ [LogSaved (save_dialog xw)], temp_files ex).

Definition export_to_excel (products : list product) (old_temp : list pystr)
  : export_result :=
  if bool_decide (length products = 0) then NothingToExport
  else if bool_decide (save_dialog xw = []) then DialogDismissed
  else
    match export_workbook products old_temp with
    | Returns (ws, log, temp_paths) => Saved ws log temp_paths
    | Raises e => ExportFailed e
    end.

End Exporter.

(** ** Instances of the library functions

    The theorems on the crawler hold for every [json_loads], [char_isalnum]
    and [cell_store].  The instances below are used only to run the model on
    concrete pages whose data lie in the fragment they cover.

    [Json.loads] covers [null], [true], [false], integers, strings with the
    one-character escapes, arrays and objects.  It answers [None] for what
    [json.loads] would decode to a value that [pyval] does not have or that
    is not covered here: numbers with a fraction or an exponent, [NaN] and
    [Infinity], [\uXXXX] escapes; and it does not have the digit limit of
    [int].  No payload of the examples is of that kind. *)

Module Json.

Definition is_ws (c : N) : bool :=
  (c =? 32)%N || (c =? 9)%N || (c =? 10)%N || (c =? 13)%N.

Fixpoint skip_ws (s : pystr) : pystr :=
  match s with
  | c :: r => if is_ws c then skip_ws r else s
  | [] => []
  end.

Definition is_digit (c : N) : bool := (48 <=? c)%N && (c <=? 57)%N.

(** The character after a backslash, for the one-character escapes. *)
Definition unescape (c : N) : option N :=
  if (c =? 34)%N then Some 34%N
  else if (c =? 92)%N then Some 92%N
  else if (c =? 47)%N then Some 47%N
  else if (c =? 98)%N then Some 8%N
  else if (c =? 102)%N then Some 12%N
  else if (c =? 110)%N then Some 10%N
  else if (c =? 114)%N then Some 13%N
  else if (c =? 116)%N then Some 9%N
  else None.

(** The characters of a string up to its closing quote, and what follows.
    Control characters are refused, as [json.loads] does by default;
    [\uXXXX] escapes are outside the fragment. *)
Fixpoint parse_string (s : pystr) : option (pystr * pystr) :=
  match s with
  | [] => None
  | c :: r =>
      if (c =? 34)%N then Some ([], r)
      else if (c =? 92)%N then
        match r with
        | e :: r' =>
            match unescape e, parse_string r' with
            | Some c', Some (t, rest) => Some (c' :: t, rest)
            | _, _ => None
            end
        | [] => None
        end
      else if (c <? 32)%N then None
      else
        match parse_string r with
        | Some (t, rest) => Some (c :: t, rest)
        | None => None
        end
  end.

Fixpoint parse_digits (acc : Z) (s : pystr) : Z * pystr :=
  match s with
  | c :: r =>
      if is_digit c then parse_digits (acc * 10 + Z.of_N (c - 48))%Z r else (acc, s)
  | [] => (acc, [])
  end.

(** An integer: [0] or a non-zero digit followed by digits.  A fraction
    or an exponent is outside the fragment. *)
Definition parse_nat (s : pystr) : option (Z * pystr) :=
  match s with
  | c :: r =>
      if (c =? 48)%N then Some (0%Z, r)
      else if is_digit c then Some (parse_digits 0 s)
      else None
  | [] => None
  end.

Definition no_fraction (s : pystr) : bool :=
  match s with
  | c :: _ => negb ((c =? 46)%N || (c =? 101)%N || (c =? 69)%N)
  | [] => true
  end.

Definition parse_int (s : pystr) : option (pyval * pystr) :=
  let '(neg, s') :=
    match s with
    | c :: r => if (c =? 45)%N then (true, r) else (false, s)
    | [] => (false, s)
    end in
  match parse_nat s' with
  | Some (z, rest) =>
      if no_fraction rest then Some (PInt (if neg then - z else z)%Z, rest) else None
  | None => None
  end.

(** [d[k] = v] on the association list: a repeated key keeps its place and
    takes the last value. *)
Fixpoint assoc_set (kvs : list (pystr * pyval)) (k : pystr) (v : pyval)
  : list (pystr * pyval) :=
  match kvs with
  | [] => [(k, v)]
  | (k', v') :: rest =>
      if PyStr.eqb k' k then (k', v) :: rest else (k', v') :: assoc_set rest k v
  end.

Fixpoint parse_value (fuel : nat) (s : pystr) : option (pyval * pystr) :=
  match fuel with
  | O => None
  | S f =>
      let s := skip_ws s in
      if PyStr.startswith (lit "null") s then Some (PNone, drop 4 s)
      else if PyStr.startswith (lit "true") s then Some (PBool true, drop 4 s)
      else if PyStr.startswith (lit "false") s then Some (PBool false, drop 5 s)
      else
        match s with
        | [] => None
        | c :: r =>
            if (c =? 34)%N then
              match parse_string r with
              | Some (t, rest) => Some (PStr t, rest)
              | None => None
              end
            else if (c =? 91)%N then
              match skip_ws r with
              | c' :: r' => if (c' =? 93)%N then Some (PList [], r')
                            else parse_elements f r []
              | [] => None
              end
            else if (c =? 123)%N then
              match skip_ws r with
              | c' :: r' => if (c' =? 125)%N then Some (PDict [], r')
                            else parse_members f r []
              | [] => None
              end
            else parse_int s
        end
  end
with parse_elements (fuel : nat) (s : pystr) (acc : list pyval)
  : option (pyval * pystr) :=
  match fuel with
  | O => None
  | S f =>
      match parse_value f s with
      | Some (v, r) =>
          match skip_ws r with
          | c :: r' =>
              if (c =? 44)%N then parse_elements f r' (acc ++ [v])
              else if (c =? 93)%N then Some (PList (acc ++ [v]), r')
              else None
          | [] => None
          end
      | None => None
      end
  end
with parse_members (fuel : nat) (s : pystr) (acc : list (pystr * pyval))
  : option (pyval * pystr) :=
  match fuel with
  | O => None
  | S f =>
      match skip_ws s with
      | q :: r =>
          if (q =? 34)%N then
            match parse_string r with
            | Some (k, r1) =>
                match skip_ws r1 with
                | colon :: r2 =>
                    if (colon =? 58)%N then
                      match parse_value f r2 with
                      | Some (v, r3) =>
                          match skip_ws r3 with
                          | c :: r4 =>
                              if (c =? 44)%N then parse_members f r4 (assoc_set acc k v)
                              else if (c =? 125)%N then Some (PDict (assoc_set acc k v), r4)
                              else None
                          | [] => None
                          end
                      | None => None
                      end
                    else None
                | [] => None
                end
            | None => None
            end
          else None
      | [] => None
      end
  end.

(** [json.loads] on the fragment: one value, then only white space. *)
Definition loads (s : pystr) : option pyval :=
  match parse_value (S (length s)) s with
  | Some (v, rest) =>
      match skip_ws rest with
      | [] => Some v
      | _ => None
      end
  | None => None
  end.

End Json.

(** [str.isalnum] on ASCII: digits and letters. *)
Definition ascii_isalnum (c : N) : bool :=
  ((48 <=? c) && (c <=? 57) || (65 <=? c) && (c <=? 90) || (97 <=? c) && (c <=? 122))%N.

(** The characters openpyxl refuses in a cell
    ([ILLEGAL_CHARACTERS_RE]: 0-8, 11, 12, 14-31). *)
Definition illegal_char (c : N) : bool :=
  ((c <=? 8) || (c =? 11) || (c =? 12) || (14 <=? c) && (c <=? 31))%N.

Definition max_cell_chars : nat := Z.to_nat 32767.

(** Assignment to [cell.value] for the values a product holds: numbers and
    booleans are kept, a string is cut to 32767 characters and refused when
    it holds an illegal character, a list or a dict is refused. *)
Definition openpyxl_store (v : pyval) : reply pyval :=
  match v with
  | PNone | PBool _ | PInt _ => Returns v
  | PStr s =>
      let s := take max_cell_chars s in
      if existsb illegal_char s
      then Raises (PyExn "IllegalCharacterError" s)
      else Returns (PStr s)
  | PList _ | PDict _ => Raises (PyExn "ValueError" (lit "Cannot convert to Excel"))
  end.

(** ** Columns of a product list *)

(** The price column of a product list. *)
Definition prices (ps : list product) : list pyval :=
  map (λ p, dict_get p "price" PNone) ps.

(** The url and name columns of a product list. *)
Definition urls (ps : list product) : list (option pyval) :=
  map (λ p : product, p !! "url") ps.

Definition names (ps : list product) : list (option pyval) :=
  map (λ p : product, p !! "name") ps.

(** The [thumbnail_local] column of a product list. *)
Definition local_paths (ps : list product) : list (option pyval) :=
  map (λ p : product, p !! "thumbnail_local") ps.

(** The date column of an outcome of the extraction. *)
Definition dates_of (r : outcome (list product)) : list (option pyval) :=
  match r with
  | Ok ps => map (λ p : product, p !! "registered_date") ps
  | _ => []
  end.

(** ** The extraction, as the specification words it *)

(** The five keys of a product. *)
Definition product_keys : gset string :=
  {["url"; "name"; "price"; "thumbnail"; "registered_date"]}.

(** Every one of the five fields holds a non-empty [str]. *)
Definition all_fields_nonempty_str (p : product) : Prop :=
  ∀ k, k ∈ product_keys → ∃ v, p !! k = Some v ∧ nonempty_str v.

(** What the extraction loop appends for [cards], from index [idx] on, when
    it is not cancelled: the products of the anchors that do not raise. *)
Fixpoint extracted (w : world) (json_loads : pystr → option pyval) (idx : nat)
    (cards : list card) : list product :=
  match cards with
  | [] => []
  | c :: rest =>
      match extract_fields json_loads w idx c with
      | Returns p => p :: extracted w json_loads (S idx) rest
      | Raises _ => extracted w json_loads (S idx) rest
      end
  end.

(** What the extraction guarantees for a record [p] it appended: [p] comes
    from an anchor [c] of the page, has the five keys, a non-empty date, the
    [href] of [c] as url (possibly [None]), the text of the name element or
    the sentinel as name, the text of the price element as price when there
    is one and the sentinel when there is neither element nor log
    attribute, the sentinel as thumbnail when there is no [img], and a
    non-empty [src] as thumbnail when there is one. *)
Definition record_fields_ok (w : world) (p : product) : Prop :=
  ∃ c, (∃ cards, query_selector_all w = Returns cards ∧ c ∈ cards) ∧
    dom p = product_keys ∧
    (∃ s, p !! "registered_date" = Some (PStr s) ∧ s ≠ []) ∧
    p !! "url" = Some (get_attribute (link c) "href") ∧
    p !! "name" = Some (PStr (match name_elem c with
                              | Some el => inner_text el
                              | None => NA
                              end)) ∧
    (∀ el, price_elem c = Some el → p !! "price" = Some (PStr (inner_text el))) ∧
    (price_elem c = None → attributes (link c) !! "data-log-body" = None →
       p !! "price" = Some (PStr NA)) ∧
    (img_elem c = None → p !! "thumbnail" = Some (PStr NA)) ∧
    (∀ el s, img_elem c = Some el → attributes el !! "src" = Some s → s ≠ [] →
       p !! "thumbnail" = Some (PStr s)).

(** What the price of the record of the anchor [c] is, [price] being the
    value stored under ["price"]: the text of the price element when there
    is one; otherwise, [s] being the [data-log-body] attribute of the anchor
    itself, the sentinel when the attribute is absent or does not contain
    [last_discount_price], else the [last_discount_price] field of the
    object that [s] decodes to once [&quot;] is replaced by a quote (the
    sentinel when the object has no such field), and the sentinel when
    decoding fails or does not give an object. *)
Definition price_rule (json_loads : pystr → option pyval) (c : card) (price : pyval)
  : Prop :=
  (∀ el, price_elem c = Some el → price = PStr (inner_text el)) ∧
  (price_elem c = None →
     (attributes (link c) !! "data-log-body" = None → price = PStr NA) ∧
     ∀ s, attributes (link c) !! "data-log-body" = Some s →
       (PyStr.contains (lit "last_discount_price") s = false → price = PStr NA) ∧
       (PyStr.contains (lit "last_discount_price") s = true →
          (∀ kvs, json_loads (PyStr.replace (lit "&quot;") [quote_char] s)
                    = Some (PDict kvs) →
             price = assoc_get kvs (lit "last_discount_price") (PStr NA)) ∧
          (json_loads (PyStr.replace (lit "&quot;") [quote_char] s) = None →
             price = PStr NA) ∧
          (∀ v, json_loads (PyStr.replace (lit "&quot;") [quote_char] s) = Some v →
             (∀ kvs, v ≠ PDict kvs) → price = PStr NA))).

(** The record [p] has a price that follows the rule for the anchor [c]. *)
Definition price_follows (json_loads : pystr → option pyval) (c : card) (p : product)
  : Prop :=
  ∃ price, p !! "price" = Some price ∧ price_rule json_loads c price.

(** The anchors whose browser calls do not raise. *)
Definition sound_cards (cards : list card) : list card :=
  filter (λ c, fault c = None) cards.

(** ** The scroll loop, as the specification words it *)

(** The targets of the [window.scrollTo] calls of a trace, in order. *)
Definition scrolls (tr : list event) : list Z :=
  omap (λ ev, match ev with ScrollTo pos => Some pos | _ => None end) tr.

(** The recorded height and the position after [k] iterations none of which
    ended the loop, for a page that reports [heights i] at the [i]-th
    evaluation: each iteration advances the position by the step; when the
    position has reached the current height, that height is recorded and
    the position goes back to 0. *)
Fixpoint track (heights : nat → Z) (k : nat) : Z * Z :=
  match k with
  | O => (heights 0, 0%Z)
  | S k' =>
      let '(last, pos) := track heights k' in
      let pos' := (pos + scroll_step)%Z in
      let h := heights k in
      if (pos' >=? h)%Z then (h, 0%Z) else (last, pos')
  end.

(** Iteration [k] (from 1) finds the page settled: the position has reached
    the current height and that height equals the recorded one. *)
Definition settles (heights : nat → Z) (k : nat) : bool :=
  match k with
  | O => false
  | S k' =>
      let '(last, pos) := track heights k' in
      ((pos + scroll_step >=? heights k) && (heights k =? last))%Z
  end.

(** The iterations up to the cap at which a page would be found settled. *)
Definition settled_iterations (heights : nat → Z) : list nat :=
  filter (λ k, settles heights k = true) (seq 1 max_scrolls).

(** The number of iterations a scroll made, when it returned. *)
Definition iterations (r : outcome scroll_state) : option nat :=
  match r with
  | Ok s => Some (scroll_count s)
  | _ => None
  end.

(** What ends the scroll loop when nothing interferes, for a page that
    reports [heights]: the loop returns after [n] iterations with
    [1 ≤ n ≤ max_scrolls]; it scrolled to the positions that [track]
    gives; no iteration before the last found the page settled; and it
    stopped before the cap exactly when some iteration before the cap finds
    the page settled, which is then the last one. *)
Definition follows_track (heights : nat → Z) (st : state)
    (r : outcome scroll_state * state) : Prop :=
  ∃ s, fst r = Ok s ∧
    1 ≤ scroll_count s ≤ max_scrolls ∧
    scrolls (trace (snd r)) = scrolls (trace st) ++
      map (λ k, (snd (track heights k) + scroll_step)%Z) (seq 0 (scroll_count s)) ∧
    (∀ k, 1 ≤ k < scroll_count s → settles heights k = false) ∧
    (scroll_count s < max_scrolls → settles heights (scroll_count s) = true) ∧
    (scroll_count s < max_scrolls ↔
       ∃ k, 1 ≤ k < max_scrolls ∧ settles heights k = true).

(** ** The download batch, as the specification words it *)

(** The characters kept in a file name. *)
Definition keep_char (char_isalnum : N → bool) (c : N) : bool :=
  char_isalnum c || (c =? 32)%N || (c =? 95)%N.

(** The file of item [idx] for a product called [name]. *)
Definition thumbnail_file (char_isalnum : N → bool) (idx : nat) (name : pystr) : pystr :=
  thumbnail_path idx (filter (λ c, keep_char char_isalnum c = true) (take 50 name)).

(** The item an outside call of the download belongs to. *)
Definition io_idx (ev : event) : option nat :=
  match ev with
  | HttpGet idx _ _ | FileWrite idx _ _ => Some idx
  | _ => None
  end.

(** The state after the events [evs]. *)
Definition after (evs : list event) (st : state) : state :=
  {| clock := clock st; trace := trace st ++ evs; self_products := self_products st |}.

(** Among [evs]: the GET of item [idx] returned status 200 and returned
    [data], and [data] was written to [path]. *)
Definition fetched_and_written (w : world) (evs : list event) (idx : nat)
    (path : pystr) : Prop :=
  ∃ url r, requests_get w idx url = Returns r ∧ status_code r = 200%Z ∧
    HttpGet idx url 200 ∈ evs ∧ FileWrite idx path (content r) ∈ evs.

(** What the batch did for the product [p] at index [idx], [p'] being the
    product afterwards and [evs] the events of the batch. *)
Definition item_outcome (char_isalnum : N → bool) (w : world) (evs : list event)
    (idx : nat) (p p' : product) : Prop :=
  (is_Some (p' !! "thumbnail_local") ↔ ∃ path, fetched_and_written w evs idx path) ∧
  (∀ v, p' !! "thumbnail_local" = Some v →
     ∃ path, v = PStr path ∧ fetched_and_written w evs idx path ∧
       ∀ name, p !! "name" = Some (PStr name) →
         path = thumbnail_file char_isalnum idx name) ∧
  (∀ k, k ≠ "thumbnail_local" → p' !! k = p !! k).

(** The item at index [idx] is attempted: when its thumbnail is a usable
    string, the GET for its normalized URL is issued, and recorded in [evs]
    when it returns. *)
Definition item_attempted (w : world) (evs : list event) (idx : nat) (p : product)
  : Prop :=
  ∀ t r, p !! "thumbnail" = Some (PStr t) → t ≠ [] → t ≠ NA →
    requests_get w idx (normalize_url t) = Returns r →
    HttpGet idx (normalize_url t) (status_code r) ∈ evs.

(** The item at index [idx] is saved when nothing fails: for a product with
    a usable thumbnail string and a string name, when the GET for the
    normalized URL returns with status 200 and the file of the item can be
    written, the bytes returned are written to that file and
    [thumbnail_local] is set to its path. *)
Definition item_saved (char_isalnum : N → bool) (w : world) (evs : list event)
    (idx : nat) (p p' : product) : Prop :=
  ∀ t r name,
    p !! "thumbnail" = Some (PStr t) → t ≠ [] → t ≠ NA →
    requests_get w idx (normalize_url t) = Returns r → status_code r = 200%Z →
    p !! "name" = Some (PStr name) →
    write_file w idx (thumbnail_file char_isalnum idx name) (content r) = Returns tt →
    p' = <["thumbnail_local" := PStr (thumbnail_file char_isalnum idx name)]> p ∧
    FileWrite idx (thumbnail_file char_isalnum idx name) (content r) ∈ evs.

(** The item at index [idx] is left as it was when there is nothing to
    fetch or something fails: the thumbnail is absent, [None], empty or the
    sentinel; the GET raises; it returns another status than 200; or the
    file cannot be written. *)
Definition item_left (char_isalnum : N → bool) (w : world) (idx : nat)
    (p p' : product) : Prop :=
  (p !! "thumbnail" = None → p' = p) ∧
  (p !! "thumbnail" = Some PNone → p' = p) ∧
  (∀ t, p !! "thumbnail" = Some (PStr t) → t = [] ∨ t = NA → p' = p) ∧
  (∀ t e, p !! "thumbnail" = Some (PStr t) →
     requests_get w idx (normalize_url t) = Raises e → p' = p) ∧
  (∀ t r, p !! "thumbnail" = Some (PStr t) →
     requests_get w idx (normalize_url t) = Returns r → status_code r ≠ 200%Z →
     p' = p) ∧
  (∀ t r name e, p !! "thumbnail" = Some (PStr t) →
     requests_get w idx (normalize_url t) = Returns r →
     p !! "name" = Some (PStr name) →
     write_file w idx (thumbnail_file char_isalnum idx name) (content r) = Raises e →
     p' = p).

(** ** The spreadsheet, as the specification words it *)

(** [v'] is what the cell holds after [v] was passed to [ws.cell]: nothing
    for [None], what openpyxl stores otherwise. *)
Definition stored_as (cell_store : pyval → reply pyval) (v v' : pyval) : Prop :=
  match v with
  | PNone => v' = PNone
  | _ => cell_store v = Returns v'
  end.

(** The cell at [row] and [col] holds what was stored for [v]. *)
Definition cell_holds (cell_store : pyval → reply pyval) (ws : worksheet)
    (row col : nat) (v : pyval) : Prop :=
  ∃ v', cells ws !! (row, col) = Some v' ∧ stored_as cell_store v v'.

(** Row [row] is the data row of the product [p] with index [idx]: index,
    name, price, thumbnail URL and local path in columns 1, 3, 4, 5 and 6,
    and no cell in the image column. *)
Definition row_holds (cell_store : pyval → reply pyval) (ws : worksheet)
    (row idx : nat) (p : product) : Prop :=
  cell_holds cell_store ws row 1 (PInt (Z.of_nat idx)) ∧
  cell_holds cell_store ws row 3 (dict_get p "name" (PStr [])) ∧
  cell_holds cell_store ws row 4 (dict_get p "price" (PStr [])) ∧
  cell_holds cell_store ws row 5 (dict_get p "thumbnail" (PStr [])) ∧
  cell_holds cell_store ws row 6 (dict_get p "thumbnail_local" (PStr [])) ∧
  cells ws !! (row, 2) = None.

(** The product has a local image that can be embedded: a non-empty path
    that exists and that the image pipeline accepts. *)
Definition image_resolvable (xw : export_world) (idx : nat) (p : product) : bool :=
  let local_path := dict_get p "thumbnail_local" (PStr []) in
  truthy local_path &&
  match path_exists xw idx local_path with
  | Returns true =>
      match prepare_image xw idx local_path with
      | Returns _ => true
      | Raises _ => false
      end
  | _ => false
  end.

(** The images anchored in [row]. *)
Definition images_at (ws : worksheet) (row : nat) : list sheet_image :=
  filter (λ img, snd (img_anchor img) = row) (images ws).

(** The image of a data row, or its absence. *)
Definition row_image (xw : export_world) (ws : worksheet) (row idx : nat)
    (p : product) : Prop :=
  if image_resolvable xw idx p then
    row_heights ws !! row = Some 75%Z ∧
    images_at ws row = [{| img_anchor := ("B", row); img_width := 100; img_height := 100 |}]
  else
    row_heights ws !! row = Some 30%Z ∧ images_at ws row = [].

(** The rows that carry a cell. *)
Definition has_row (ws : worksheet) (r : nat) : Prop :=
  ∃ c, is_Some (cells ws !! (r, c)).

(** The sheet of a saved export. *)
Definition saved_sheet (r : export_result) : option worksheet :=
  match r with
  | Saved ws _ _ => Some ws
  | _ => None
  end.

(** ** The signals of a run, as the specification words them *)

(** The two signals that report an outcome to the window. *)
Definition is_report (ev : event) : bool :=
  match ev with
  | Error _ | Result _ => true
  | _ => false
  end.

(** The product lists handed to [result.emit] in a trace. *)
Definition results (tr : list event) : list (list product) :=
  omap (λ ev, match ev with Result ps => Some ps | _ => None end) tr.

(** The messages handed to [error.emit] in a trace. *)
Definition errors (tr : list event) : list message :=
  omap (λ ev, match ev with Error m => Some m | _ => None end) tr.

(** The counts announced after the extraction ("총 {n}개 상품 발견"). *)
Definition totals (tr : list event) : list nat :=
  omap (λ ev, match ev with Progress (MsgTotalFound n) => Some n | _ => None end) tr.

(** Once a read of the flag found it cleared, neither [error] nor [result]
    is emitted any more. *)
Definition silent_after_cancel (tr : list event) : Prop :=
  ∀ i j ev, tr !! i = Some (FlagRead false) → i < j → tr !! j = Some ev →
    is_report ev = false.

(** Every [error] signal directly follows a read of the flag that found it
    set. *)
Definition errors_guarded (tr : list event) : Prop :=
  ∀ j m, tr !! j = Some (Error m) → ∃ i, j = S i ∧ tr !! i = Some (FlagRead true).

(** [finished] is emitted exactly once, as the last event. *)
Definition finished_last (tr : list event) : Prop :=
  ∃ tr0, tr = tr0 ++ [Finished] ∧ Finished ∉ tr0.

(** The invariant of the worker's state while [crawl] runs. *)
Definition crawl_inv (w : world) (st : state) : Prop :=
  silent_after_cancel (trace st) ∧
  errors_guarded (trace st) ∧
  (FlagRead false ∈ trace st → running_at w (clock st) = false) ∧
  Finished ∉ trace st.

(** [m] keeps the invariant and does not run out of fuel. *)
Definition safe {A} (w : world) (m : M A) : Prop :=
  ∀ st, crawl_inv w st → crawl_inv w (snd (m st)) ∧ fst (m st) ≠ Diverge.

(** ** Pages and worlds used to run the model *)

(** An anchor with the given [href], name text, price element, log
    attribute and image attributes. *)
Definition make_card (href : option pystr) (name price : option pystr)
    (data_log : option pystr) (img : option (gmap string pystr)) : card :=
  {| link := {| attributes :=
                  match data_log with
                  | Some d => <["data-log-body" := d]>
                  | None => id
                  end (match href with
                       | Some h => {["href" := h]}
                       | None => ∅
                       end);
                inner_text := [] |};
     name_elem := (λ t, {| attributes := ∅; inner_text := t |}) <$> name;
     price_elem := (λ t, {| attributes := ∅; inner_text := t |}) <$> price;
     img_elem := (λ a, {| attributes := a; inner_text := [] |}) <$> img;
     fault := None |}.

(** The JSON price blob of the scenario, with its quotes entity-encoded. *)
Definition price_blob : pystr :=
  lit "{&quot;last_discount_price&quot;:&quot;9,900&quot;}".

(** The same blob once [&quot;] is replaced by the quote character. *)
Definition price_blob_decoded : pystr :=
  lit "{" ++ [quote_char] ++ lit "last_discount_price" ++ [quote_char] ++ lit ":"
    ++ [quote_char] ++ lit "9,900" ++ [quote_char] ++ lit "}".

(** Three anchors: one with a price element showing [text], one with only
    the JSON blob, one with neither. *)
Definition three_cards (text : pystr) : list card :=
  [ make_card (Some (lit "/p/1")) (Some (lit "A")) (Some text) None
      (Some {["src" := lit "//cdn/1.jpg"]});
    make_card (Some (lit "/p/2")) (Some (lit "B")) None (Some price_blob)
      (Some {["data-src" := lit "//cdn/2.jpg"]});
    make_card (Some (lit "/p/3")) (Some (lit "C")) None None None ].

(** An anchor without [href], with an empty name and an empty price text. *)
Definition bare_card : card :=
  make_card None (Some []) (Some []) None None.

(** An anchor whose log attribute holds a number as price. *)
Definition numeric_price_card : card :=
  make_card (Some (lit "/p/4")) (Some (lit "D")) None
    (Some (lit "{&quot;last_discount_price&quot;:9900}")) None.

(** An anchor whose [img] carries none of the three attributes. *)
Definition card_img_without_source : card :=
  make_card (Some (lit "/p/9")) (Some (lit "Z")) (Some (lit "100")) None (Some ∅).

Definition a_day : date := {| year := 2025; month := 3; day := 7 |}.

Definition ok_response : response := {| status_code := 200; content := [] |}.

(** A world given by what varies between the runs below: when [stop()] is
    called, what [page.goto] gives, the page heights, the anchors, the date,
    whether the image directory exists, and the replies of the network and
    of the disk.  Every other outside call succeeds. *)
Definition a_world (stop : option nat) (goto : reply unit) (heights : nat → Z)
    (cards : list card) (d : date) (dir : bool)
    (get : nat → reply response) (write : reply unit) : world :=
  {| stop_after := stop;
     chromium_launch := Returns tt; new_context := Returns tt; new_page := Returns tt;
     browser_close := Returns tt; page_goto := goto;
     wait_for_selector := Returns tt;
     scroll_height := λ k, Returns (heights k);
     query_selector_all := Returns cards;
     now := λ _, d;
     img_dir_exists := dir; makedirs := Returns tt;
     requests_get := λ idx _, get idx;
     write_file := λ _ _ _, write |}.

(** Every outside call succeeds, the page never changes height, and
    [stop()] is never called. *)
Definition calm_world_on (d : date) (cards : list card) : world :=
  a_world None (Returns tt) (λ _, 1600%Z) cards d true (λ _, Returns ok_response)
    (Returns tt).

Definition calm_world : list card → world := calm_world_on a_day.

(** Like [calm_world], but the network and the disk fail. *)
Definition offline_world (cards : list card) : world :=
  a_world None (Returns tt) (λ _, 1600%Z) cards a_day false
    (λ _, Raises (PyExn "ConnectionError" [])) (Raises (PyExn "OSError" [])).

(** Like [calm_world], but the GET of the second item fails. *)
Definition flaky_world (cards : list card) : world :=
  a_world None (Returns tt) (λ _, 1600%Z) cards a_day false
    (λ idx, if idx =? 2 then Raises (PyExn "Timeout" []) else Returns ok_response)
    (Returns tt).

(** Like [calm_world], but [stop()] is called after [k] reads of the flag. *)
Definition stopped_world (k : nat) (cards : list card) : world :=
  a_world (Some k) (Returns tt) (λ _, 1600%Z) cards a_day true
    (λ _, Returns ok_response) (Returns tt).

(** The page cannot be loaded. *)
Definition unreachable_world (stop : option nat) : world :=
  a_world stop (Raises (PyExn "TimeoutError" (lit "Timeout 60000ms exceeded")))
    (λ _, 1600%Z) [] a_day true (λ _, Returns ok_response) (Returns tt).

(** The page grows by 1000 at every evaluation. *)
Definition growing_world (stop : option nat) : world :=
  a_world stop (Returns tt) (λ k, (Z.of_nat k * 1000)%Z) [] a_day true
    (λ _, Returns ok_response) (Returns tt).

(** The products of the three-anchor page. *)
Definition sample_products : list product :=
  extracted (calm_world (three_cards (lit "12,000"))) Json.loads 1
    (three_cards (lit "12,000")).

(** The records of a page with [bare_card] and [numeric_price_card]. *)
Definition bare_products : list product :=
  extracted (calm_world [bare_card; numeric_price_card]) Json.loads 1
    [bare_card; numeric_price_card].

(** The state in which a run on the three-anchor page ends when [stop()]
    is called after the extraction, before the download starts. *)
Definition cancelled_after_extraction : state :=
  snd (run Json.loads ascii_isalnum (stopped_world 12 (three_cards (lit "12,000")))
         (lit "https://www.11st.co.kr/category") 101 init_state).

(** The state in which a run ends when [stop()] was called before it starts. *)
Definition cancelled_at_start : state :=
  {| clock := 1; trace := [FlagRead false; Finished]; self_products := [] |}.

(** A disk on which only [thumbnails/1_A.jpg] exists, holding a valid JPEG. *)
Definition one_image_disk : export_world :=
  {| save_dialog := lit "out.xlsx";
     path_exists := λ _ p, Returns (eq_str p (lit "thumbnails/1_A.jpg"));
     prepare_image := λ _ _, Returns (lit "/tmp/thumbnails/temp_1_1_A.jpg");
     workbook_save := Returns tt |}.

(** A disk on which every local path exists but holds no decodable image. *)
Definition corrupt_image_disk : export_world :=
  {| save_dialog := lit "out.xlsx";
     path_exists := λ _ _, Returns true;
     prepare_image := λ _ _, Raises (PyExn "UnidentifiedImageError" []);
     workbook_save := Returns tt |}.

(** Two products: the first with a local image, the second with a local
    path that does not exist. *)
Definition two_products : list product :=
  [ {[ "name" := PStr (lit "A"); "price" := PStr (lit "1,000");
       "thumbnail" := PStr (lit "//cdn/1.jpg");
       "thumbnail_local" := PStr (lit "thumbnails/1_A.jpg") ]};
    {[ "name" := PStr (lit "B"); "price" := PStr (lit "2,000");
       "thumbnail" := PStr (lit "//cdn/2.jpg");
       "thumbnail_local" := PStr (lit "thumbnails/2_B.jpg") ]} ].


(** * Traces of a run, export accounting and the window *)

(** ** What a piece of the worker emits *)

(** [m] returns or raises, appends only events that satisfy [Q] to the
    trace, leaves [self.products] alone and never turns the count of flag
    reads back. *)
Definition emits_only {A} (Q : event → Prop) (m : M A) : Prop :=
  ∀ st, ∃ evs,
    trace (snd (m st)) = trace st ++ evs ∧ Forall Q evs ∧
    self_products (snd (m st)) = self_products st ∧
    clock st ≤ clock (snd (m st)) ∧
    fst (m st) ≠ Diverge.

(** A scroll position the loop can ask for: a multiple of the step, between
    one step and [max_scrolls] steps. *)
Definition scroll_target (pos : Z) : Prop :=
  ∃ j : nat, 1 ≤ j ≤ max_scrolls ∧ pos = (scroll_step * Z.of_nat j)%Z.

(** The events of [scroll_gradually]: reads of the flag, scrolls to a valid
    target, and the progress line of an iteration, which shows a valid
    target and a count between 1 and the cap. *)
Definition scroll_event (ev : event) : Prop :=
  match ev with
  | FlagRead _ => True
  | ScrollTo pos => scroll_target pos
  | Progress (MsgScrolling pos _ count) => scroll_target pos ∧ 1 ≤ count ≤ max_scrolls
  | _ => False
  end.

(** The events of [download_images] for a batch of [n] products: a GET goes
    to a URL that is neither protocol-relative nor root-relative, a write
    goes to the file of its item inside the image directory, under a name
    made of kept characters only, and both belong to an item of the batch. *)
Definition download_event (char_isalnum : N → bool) (n : nat) (ev : event) : Prop :=
  match ev with
  | FlagRead _ => True
  | Progress (MsgImageDone idx _) | Progress (MsgImageError idx _) => 1 ≤ idx ≤ n
  | HttpGet idx url _ => 1 ≤ idx ≤ n ∧ PyStr.startswith (lit "/") url = false
  | FileWrite idx path _ =>
      1 ≤ idx ≤ n ∧
      ∃ safe, path = thumbnail_path idx safe ∧
              Forall (λ c, keep_char char_isalnum c = true) safe
  | _ => False
  end.

(** The events of the work of a run: flag reads, progress lines, scrolls and
    the outside calls of the download.  The other events are the [result],
    [error] and [finished] signals and [browser.close()]. *)
Definition work_event (ev : event) : bool :=
  match ev with
  | FlagRead _ | Progress _ | ScrollTo _ | HttpGet _ _ _ | FileWrite _ _ _ => true
  | _ => false
  end.

(** An outside call of the download is safe: a GET goes to a URL that does
    not start with a slash, and a file is written to
    [thumbnails/<idx>_<name>.jpg] for an index from 1 on and a name made of
    kept characters only. *)
Definition io_safe (char_isalnum : N → bool) (ev : event) : Prop :=
  match ev with
  | HttpGet _ url _ => PyStr.startswith (lit "/") url = false
  | FileWrite idx path _ =>
      1 ≤ idx ∧
      ∃ safe, path = thumbnail_path idx safe ∧
              Forall (λ c, keep_char char_isalnum c = true) safe
  | _ => True
  end.

(** An event of the work of a run whose outside call, if it is one, is
    safe. *)
Definition run_work (char_isalnum : N → bool) (ev : event) : Prop :=
  work_event ev = true ∧ io_safe char_isalnum ev.

(** ** Loops that watch the flag *)

(** The items that a loop reaches when it reads the flag once before each
    item and stops at the first read that finds it cleared, the read before
    the first item being the [c]-th of the run. *)
Definition take_while_running {A} (w : world) (c : nat) (l : list A) : list A :=
  match stop_after w with
  | None => l
  | Some k => take (k - c) l
  end.

(** ** The download batch: which items are requested *)

(** Line 211: [product.get('thumbnail') and product['thumbnail'] != "N/A"]. *)
Definition wants_image (p : product) : bool :=
  truthy (dict_get p "thumbnail" PNone) && negb (eq_str (dict_get p "thumbnail" PNone) NA).

(** The indexes, from [idx] on, of the products that ask for an image. *)
Fixpoint wanted (idx : nat) (products : list product) : list nat :=
  match products with
  | [] => []
  | p :: rest => (if wants_image p then [idx] else []) ++ wanted (S idx) rest
  end.

(** The items for which a GET returned, and those for which a file was
    written, in the order of the trace. *)
Definition fetched (evs : list event) : list nat :=
  omap (λ ev, match ev with HttpGet idx _ _ => Some idx | _ => None end) evs.

Definition written (evs : list event) : list nat :=
  omap (λ ev, match ev with FileWrite idx _ _ => Some idx | _ => None end) evs.

(** ** The result of a run *)

(** [p'] is [p] up to the local path of the image. *)
Definition same_but_local (p p' : product) : Prop :=
  ∀ k, k ≠ "thumbnail_local" → p' !! k = p !! k.

(** The result is complete: the page gave its anchors, and the list holds,
    in the order of the page, the record of every anchor whose browser
    calls did not raise, up to the local paths set by the download. *)
Definition result_complete (json_loads : pystr → option pyval) (w : world)
    (ps : list product) : Prop :=
  ∃ cards, query_selector_all w = Returns cards ∧
    Forall2 same_but_local (extracted w json_loads 1 cards) ps.

(** The events of [if self.is_running: self.error.emit(m)]. *)
Definition guard_events (m : message) (g : list event) : Prop :=
  g = [FlagRead false] ∨ g = [FlagRead true; Error m].

(** How the body of the inner [try] of [crawl] ends after the events [work]:
    it raised, or returned with the last read of the flag finding it
    cleared; it closed the browser and returned, after a read that found
    the flag cleared; or it assigned [self.products] and emitted [result].
    [sp] and [sp'] are [self.products] before and after. *)
Definition page_ending (json_loads : pystr → option pyval) (w : world)
    (sp sp' : list product) (work ending : list event) : Prop :=
  (ending = [] ∧ sp' = sp) ∨
  (ending = [BrowserClose] ∧ sp' = sp ∧ FlagRead false ∈ work) ∨
  (∃ ps, ending = [Result ps] ∧ sp' = ps ∧ result_complete json_loads w ps).

(** What the body of the inner [try] of [crawl] gives from the state [st]:
    it does not run out of fuel, its events are work followed by an ending,
    and it returns normally when it emitted [result]. *)
Definition page_post (json_loads : pystr → option pyval) (char_isalnum : N → bool)
    (w : world) (st : state) (r : outcome unit * state) : Prop :=
  ∃ work ending,
    trace (snd r) = trace st ++ work ++ ending ∧
    Forall (run_work char_isalnum) work ∧
    fst r ≠ Diverge ∧
    page_ending json_loads w (self_products st) (self_products (snd r)) work ending ∧
    (∀ ps, ending = [Result ps] → fst r = Ok tt).

(** The [browser.close()] calls of a trace. *)
Definition is_close (ev : event) : bool :=
  match ev with
  | BrowserClose => true
  | _ => false
  end.

Definition closes (tr : list event) : nat :=
  length (filter (λ ev, is_close ev = true) tr).

(** The browser was launched and the page opened: the inner [try] of
    [crawl] is entered from a state in which the flag has been read [c]
    times. *)
Definition page_opened (w : world) (c : nat) : Prop :=
  running_at w c = true ∧ chromium_launch w = Returns tt ∧
  new_context w = Returns tt ∧ new_page w = Returns tt.

(** The events of a run that starts when the flag has been read [c] times:
    - cancelled before it starts, it reads the flag and finishes;
    - when the browser cannot be launched or the page not opened, the
      exception reaches the handler of [run];
    - otherwise the body of the inner [try] does its work and ends, its
      handler runs if it raised, the [finally] closes the browser, and the
      handler of [run] runs if that raised. *)
Definition run_events (json_loads : pystr → option pyval) (char_isalnum : N → bool)
    (w : world) (c : nat) (sp sp' : list product) (evs : list event) : Prop :=
  (running_at w c = false ∧ evs = [FlagRead false; Finished] ∧ sp' = sp) ∨
  (running_at w c = true ∧ ¬ page_opened w c ∧ sp' = sp ∧
   ∃ e g, guard_events (MsgCrawlError e) g ∧
     evs = [FlagRead true; Progress MsgInitBrowser] ++ g ++ [Finished]) ∨
  (page_opened w c ∧
   ∃ work ending inner outer,
     evs = [FlagRead true; Progress MsgInitBrowser] ++ work ++ ending ++ inner
             ++ [BrowserClose] ++ outer ++ [Finished] ∧
     Forall (run_work char_isalnum) work ∧
     page_ending json_loads w sp sp' work ending ∧
     (inner = [] ∨
      ∃ e, guard_events (MsgPageError e) inner ∧
           (ending = [] ∨ ending = [BrowserClose])) ∧
     (outer = [] ∨
      ∃ e, browser_close w = Raises e ∧ guard_events (MsgCrawlError e) outer)).

(** Nobody calls [stop()] and the browser does what it is asked: it is
    launched, opens the page, loads the URL, finds the selector, reports
    its heights and returns the anchors; the image directory exists or can
    be made.  The network and the disk may fail, and so may the calls made
    for single anchors. *)
Definition undisturbed (w : world) : Prop :=
  stop_after w = None ∧
  chromium_launch w = Returns tt ∧ new_context w = Returns tt ∧
  new_page w = Returns tt ∧
  page_goto w = Returns tt ∧ wait_for_selector w = Returns tt ∧
  (∀ k, ∃ h, scroll_height w k = Returns h) ∧
  (∃ cards, query_selector_all w = Returns cards) ∧
  (img_dir_exists w = true ∨ makedirs w = Returns tt).

(** What can follow a [browser.close()]: reads of the flag, an [error]
    signal, the second [browser.close()] and [finished]. *)
Definition after_close_event (ev : event) : Prop :=
  match ev with
  | FlagRead _ | Error _ | BrowserClose | Finished => True
  | _ => False
  end.

(** ** The export: log lines, temporary files and the cleanup *)

(** The paths that the export appends to [self.temp_files] (line 455) for
    the products, from index [idx] on: one for each embedded image, in the
    order of the rows.  A temporary JPEG that was written before
    [XLImage(temp_path)] raised is not among them: line 455 is not reached
    for it, so the code never removes it. *)
Fixpoint appended_temp_files (xw : export_world) (idx : nat) (products : list product)
  : list pystr :=
  match products with
  | [] => []
  | p :: rest =>
      let local_path := dict_get p "thumbnail_local" (PStr []) in
      (if image_resolvable xw idx p then
         match prepare_image xw idx local_path with
         | Returns temp_path => [temp_path]
         | Raises _ => []
         end
       else []) ++ appended_temp_files xw (S idx) rest
  end.

(** The oracles of the cleanup loop (lines 468-475), by iteration (from 1):
    [os.path.exists(temp_file)] and [os.remove(temp_file)]. *)
Record cleanup_world : Type := CleanupWorld {
  temp_exists : nat → pystr → reply bool;
  os_remove : nat → pystr → reply unit
}.

(** Lines 469-474: the files that the loop removes.  A file is removed when
    [os.path.exists] answers [True] and [os.remove] returns; whatever is
    raised is swallowed by the bare [except]. *)
Fixpoint remove_temp_files (cw : cleanup_world) (k : nat) (files : list pystr)
  : list pystr :=
  match files with
  | [] => []
  | f :: rest =>
      match temp_exists cw k f with
      | Returns true =>
          match os_remove cw k f with
          | Returns _ => [f]
          | Raises _ => []
          end
      | _ => []
      end ++ remove_temp_files cw (S k) rest
  end.

(** The files removed by an export: the cleanup loop runs on
    [self.temp_files] once the workbook has been saved, and not at all when
    the export did not get that far. *)
Definition cleaned_up (cw : cleanup_world) (r : export_result) : list pystr :=
  match r with
  | Saved _ _ temp_paths => remove_temp_files cw 1 temp_paths
  | _ => []
  end.

(** The row a log line speaks of. *)
Definition log_row (l : export_log) : option nat :=
  match l with
  | LogImageInserted row | LogImageError row _ | LogImageMissing row _ => Some row
  | LogSaved _ => None
  end.

Definition is_inserted (l : export_log) : bool :=
  match l with
  | LogImageInserted _ => true
  | _ => false
  end.

(** The values written to the cells of the data row of product [p]. *)
Definition cell_values (idx : nat) (p : product) : list pyval :=
  [PInt (Z.of_nat idx); dict_get p "name" (PStr []); dict_get p "price" (PStr []);
   dict_get p "thumbnail" (PStr []); dict_get p "thumbnail_local" (PStr [])].

(** Why an export can fail with [e]: openpyxl refuses a header or a value
    of a product, [os.path.exists] raises for a local path, or the workbook
    cannot be saved. *)
Definition export_failure_cause (cell_store : pyval → reply pyval)
    (xw : export_world) (products : list product) (e : exn) : Prop :=
  (∃ h, h ∈ headers ∧ cell_store (PStr h) = Raises e) ∨
  (∃ i p v, products !! i = Some p ∧ v ∈ cell_values (S i) p ∧
            cell_store v = Raises e) ∨
  (∃ i p, products !! i = Some p ∧
          path_exists xw (S i) (dict_get p "thumbnail_local" (PStr [])) = Raises e) ∨
  workbook_save xw = Raises e.

(** ** More worlds *)

(** The page cannot be loaded and the browser cannot be closed either. *)
Definition crashed_world : world :=
  {| stop_after := None;
     chromium_launch := Returns tt; new_context := Returns tt; new_page := Returns tt;
     browser_close := Raises (PyExn "Error" (lit "Browser has been closed"));
     page_goto := Raises (PyExn "TimeoutError" (lit "Timeout 60000ms exceeded"));
     wait_for_selector := Returns tt;
     scroll_height := λ _, Returns 1600%Z;
     query_selector_all := Returns [];
     now := λ _, a_day;
     img_dir_exists := true; makedirs := Returns tt;
     requests_get := λ _ _, Returns ok_response;
     write_file := λ _ _ _, Returns tt |}.

(** A disk on which the first file of the cleanup is gone already and the
    second cannot be removed. *)
Definition stubborn_disk : cleanup_world :=
  {| temp_exists := λ k _, Returns (negb (k =? 1));
     os_remove := λ k _, if k =? 2 then Raises (PyExn "PermissionError" []) else Returns tt |}.

(** A product whose name is not a string. *)
Definition unnamed_product : product :=
  {[ "name" := PList []; "price" := PStr (lit "1,000") ]}.

(** ** [MainWindow]: the slots of the crawl (lines 301-357) *)

(** The lines appended to the log widget by the slots. *)
Inductive gui_line : Type :=
  | LineStart (url : pystr)          (* "크롤링 시작: {url}" *)
  | LineProgress (m : message)       (* the text of a [progress] signal of the worker *)
  | LineStopRequested                (* "사용자가 크롤링을 중지했습니다...", from [stop()] *)
  | LineStopping                     (* "⚠ 크롤링을 중지하는 중..." *)
  | LineDone (n : nat)               (* "✓ 크롤링 완료! 총 {n}개 상품" *)
  | LineError (m : message).         (* "✗ 오류: {error_msg}" *)

(** The message boxes shown by the slots. *)
Inductive message_box : Type :=
  | WarnNoUrl                        (* "URL을 입력해주세요." *)
  | CriticalError (m : message).

(** The part of the window the slots read and write: the text of the URL
    field, [self.products], the URL of [self.crawler] when there is one,
    whether the three buttons are enabled, the log, the texts of the table
    items by row, the value of the progress bar, and the boxes shown. *)
Record window : Type := Window {
  url_input : pystr;
  win_products : list product;
  crawler : option pystr;
  start_btn : bool;
  stop_btn : bool;
  export_btn : bool;
  log_lines : list gui_line;
  result_table : list (list pystr);
  progress_bar : Z;
  boxes : list message_box
}.

(** [s.lstrip()] and [s.strip()], given [str.isspace] on one character. *)
Fixpoint lstrip (char_isspace : N → bool) (s : pystr) : pystr :=
  match s with
  | [] => []
  | c :: rest => if char_isspace c then lstrip char_isspace rest else s
  end.

Definition strip (char_isspace : N → bool) (s : pystr) : pystr :=
  reverse (lstrip char_isspace (reverse (lstrip char_isspace s))).

(** What reaches the window while a crawl runs: a signal of the worker, or
    a click on the stop button, with what [crawler.isRunning()] answers. *)
Inductive gui_input : Type :=
  | Signal (ev : event)
  | StopClicked (thread_running : bool).

(** The events of the worker among the inputs, in order. *)
Definition signals (inputs : list gui_input) : list event :=
  omap (λ i, match i with Signal ev => Some ev | StopClicked _ => None end) inputs.

Section Window.

(** The Unicode table behind [str.isspace], for one character. *)
Variable char_isspace : N → bool.
(** [QTableWidgetItem(v)]: the text of the item, or the exception raised
    when [v] is not accepted. *)
Variable item_text : pyval → reply pystr.

(** Lines 301-321.  The thread is created with the stripped URL; its run
    is [run] on that URL. *)
Definition start_crawling (win : window) : window :=
  let url := strip char_isspace (url_input win) in
  if bool_decide (url = []) then
    {| url_input := url_input win; win_products := win_products win;
       crawler := crawler win;
       start_btn := start_btn win; stop_btn := stop_btn win;
       export_btn := export_btn win;
       log_lines := log_lines win; result_table := result_table win;
       progress_bar := progress_bar win; boxes := boxes win ++ [WarnNoUrl] |}
  else
    {| url_input := url_input win; win_products := win_products win;
       crawler := Some url;
       start_btn := false; stop_btn := true; export_btn := false;
       log_lines := [LineStart url]; result_table := [];
       progress_bar := 0; boxes := boxes win |}.

(** Lines 323-327.  [stop()] emits its progress line in the thread of the
    window, so the slot appends it at once. *)
Definition stop_crawling (thread_running : bool) (win : window) : window :=
  match crawler win with
  | Some _ =>
      if thread_running then
        {| url_input := url_input win; win_products := win_products win;
           crawler := crawler win;
           start_btn := start_btn win; stop_btn := false;
           export_btn := export_btn win;
           log_lines := log_lines win ++ [LineStopRequested; LineStopping];
           result_table := result_table win;
           progress_bar := progress_bar win; boxes := boxes win |}
      else win
  | None => win
  end.

(** Lines 329-333. *)
Definition update_progress (m : message) (win : window) : window :=
  {| url_input := url_input win; win_products := win_products win;
     crawler := crawler win;
     start_btn := start_btn win; stop_btn := stop_btn win;
     export_btn := export_btn win;
     log_lines := log_lines win ++ [LineProgress m];
     result_table := result_table win;
     progress_bar := progress_bar win; boxes := boxes win |}.

(** Lines 340-344: the items of one row. *)
Definition table_row (row : nat) (p : product) : reply (list pystr) :=
  let? c0 := item_text (PStr (PyStr.of_nat (row + 1))) in
  let? c1 := item_text (dict_get p "name" (PStr [])) in
  let? c2 := item_text (dict_get p "price" (PStr [])) in
  let? c3 := item_text (dict_get p "thumbnail" (PStr [])) in
  let? c4 := item_text (dict_get p "thumbnail_local" (PStr [])) in
  Returns [c0; c1; c2; c3; c4].

Fixpoint table_rows (row : nat) (products : list product) : reply (list (list pystr)) :=
  match products with
  | [] => Returns []
  | p :: rest =>
      let? r := table_row row p in
      let? rs := table_rows (S row) rest in
      Returns (r :: rs)
  end.

(** Lines 335-347.  When an item cannot be built the slot raises; what
    becomes of the window then is not modelled. *)
Definition display_results (products : list product) (win : window) : reply window :=
  let? rows := table_rows 0 products in
  Returns {| url_input := url_input win; win_products := products;
             crawler := crawler win;
             start_btn := start_btn win; stop_btn := stop_btn win;
             export_btn := export_btn win;
             log_lines := log_lines win ++ [LineDone (length products)];
             result_table := rows;
             progress_bar := 100; boxes := boxes win |}.

(** Lines 349-353. *)
Definition crawling_finished (win : window) : window :=
  {| url_input := url_input win; win_products := win_products win;
     crawler := crawler win;
     start_btn := true; stop_btn := false;
     export_btn :=
       if negb (bool_decide (length (win_products win) = 0)) then true
       else export_btn win;
     log_lines := log_lines win; result_table := result_table win;
     progress_bar := progress_bar win; boxes := boxes win |}.

(** Lines 355-357. *)
Definition show_error (m : message) (win : window) : window :=
  {| url_input := url_input win; win_products := win_products win;
     crawler := crawler win;
     start_btn := start_btn win; stop_btn := stop_btn win;
     export_btn := export_btn win;
     log_lines := log_lines win ++ [LineError m];
     result_table := result_table win;
     progress_bar := progress_bar win; boxes := boxes win ++ [CriticalError m] |}.

(** The connections of lines 317-320: each signal of the worker calls its
    slot; the other events of the trace do not reach the window. *)
Definition deliver (i : gui_input) (win : window) : reply window :=
  match i with
  | Signal (Progress m) => Returns (update_progress m win)
  | Signal (Result products) => display_results products win
  | Signal (Error m) => Returns (show_error m win)
  | Signal Finished => Returns (crawling_finished win)
  | Signal _ => Returns win
  | StopClicked thread_running => Returns (stop_crawling thread_running win)
  end.

(** The inputs are handled one after the other, in the order in which they
    were emitted. *)
Fixpoint deliver_all (inputs : list gui_input) (win : window) : reply window :=
  match inputs with
  | [] => Returns win
  | i :: rest =>
      let? win := deliver i win in
      deliver_all rest win
  end.

End Window.

(** [str.isspace] on ASCII. *)
Definition ascii_isspace (c : N) : bool :=
  ((9 <=? c) && (c <=? 13) || (28 <=? c) && (c <=? 31) || (c =? 32))%N.

(** [QTableWidgetItem(text)] for a [str]; this instance refuses every
    other value. *)
Definition str_item_text (v : pyval) : reply pystr :=
  match v with
  | PStr s => Returns s
  | _ => Raises (PyExn "TypeError" (lit "QTableWidgetItem"))
  end.

(** A window after an earlier crawl that found [two_products]: the user has
    typed a new URL. *)
Definition window_with_old_products : window :=
  {| url_input := lit " https://www.11st.co.kr/category ";
     win_products := two_products;
     crawler := Some (lit "https://www.11st.co.kr/old");
     start_btn := true; stop_btn := false; export_btn := true;
     log_lines := [];
     result_table :=
       [[lit "1"; lit "A"; lit "1,000"; lit "//cdn/1.jpg"; lit "thumbnails/1_A.jpg"];
        [lit "2"; lit "B"; lit "2,000"; lit "//cdn/2.jpg"; lit "thumbnails/2_B.jpg"]];
     progress_bar := 100; boxes := [] |}.

(** * Theorems *)

Local Arguments N.eqb : simpl never.

(** Evaluate the string literals of the goal. *)
Ltac eval_lit :=
  repeat match goal with
  | |- context [lit ?s] =>
      let v := eval vm_compute in (lit s) in change (lit s) with v
  end.

(** ** Running the monad one step *)

Lemma bind_is_running {B} w (k : bool → M B) st :
  (let* r := is_running w in k r) st = k (running_at w (clock st)) (tick w st).
Proof. reflexivity. Qed.

Lemma bind_emit {B} ev (k : M B) st : (emit ev ;;; k) st = k (log ev st).
Proof. reflexivity. Qed.

Lemma bind_lift {A B} (r : reply A) (k : A → M B) st :
  (let* x := lift r in k x) st =
  match r with Returns a => k a st | Raises e => (Raise e, st) end.
Proof. by destruct r. Qed.

(** ** URL normalization *)

Lemma startswith_slashes (url : pystr) :
  PyStr.startswith (lit "//") url = true → PyStr.startswith (lit "/") url = true.
Proof.
  eval_lit. destruct url as [|a url]; simpl; [done|].
  destruct (47 =? a)%N; simpl; [|done]. by intros _.
Qed.

(** C5: the URL rewriting of the download step prepends ["https:"] to a URL
    that starts with ["//"], prepends ["https://www.11st.co.kr"] to one that
    starts with a single ["/"], and leaves every other URL unchanged; the
    three examples of the specification come out as stated. *)
Theorem normalize_url_spec :
  (∀ url, PyStr.startswith (lit "//") url = true →
          normalize_url url = lit "https:" ++ url) ∧
  (∀ url, PyStr.startswith (lit "/") url = true →
          PyStr.startswith (lit "//") url = false →
          normalize_url url = lit "https://www.11st.co.kr" ++ url) ∧
  (∀ url, PyStr.startswith (lit "/") url = false → normalize_url url = url) ∧
  normalize_url (lit "//a/b.jpg") = lit "https://a/b.jpg" ∧
  normalize_url (lit "/b.jpg") = lit "https://www.11st.co.kr/b.jpg" ∧
  normalize_url (lit "https://a/b.jpg") = lit "https://a/b.jpg".
Proof.
  repeat split.
  - intros url H. unfold normalize_url. by rewrite H.
  - intros url H1 H2. unfold normalize_url. by rewrite H2, H1.
  - intros url H. unfold normalize_url. rewrite H.
    destruct (PyStr.startswith (lit "//") url) eqn:E; [|done].
    apply startswith_slashes in E. congruence.
Qed.

Lemma normalize_url_spec_witness :
  normalize_url (lit "/img/1.jpg") = lit "https://www.11st.co.kr/img/1.jpg" ∧
  normalize_url (lit "//cdn/1.jpg") = lit "https://cdn/1.jpg" ∧
  normalize_url (lit "http://cdn/1.jpg") = lit "http://cdn/1.jpg".
Proof.
  destruct normalize_url_spec as (H1 & H2 & H3 & _).
  split; [apply (H2 (lit "/img/1.jpg")); reflexivity|].
  split; [apply (H1 (lit "//cdn/1.jpg")); reflexivity|].
  apply (H3 (lit "http://cdn/1.jpg")); reflexivity.
Defined.

(** ** Field extraction *)

Lemma unusable_nonempty s : s ≠ [] → unusable (PStr s) = false.
Proof.
  intros H. unfold unusable, eq_str, PyStr.eqb. simpl.
  rewrite !bool_decide_eq_false_2; done.
Qed.

Lemma get_attribute_Some el a s :
  attributes el !! a = Some s → get_attribute el a = PStr s.
Proof. unfold get_attribute. by intros ->. Qed.

Lemma thumbnail_of_no_img c : img_elem c = None → thumbnail_of c = PStr NA.
Proof. intros H. unfold thumbnail_of. by rewrite H. Qed.

Lemma thumbnail_of_src c el s :
  img_elem c = Some el → attributes el !! "src" = Some s → s ≠ [] →
  thumbnail_of c = PStr s.
Proof.
  intros H Hs Hne. unfold thumbnail_of. rewrite H.
  rewrite (get_attribute_Some _ _ _ Hs), !unusable_nonempty; done.
Qed.

Lemma price_of_elem json_loads c el d :
  price_elem c = Some el → price_of json_loads c d = PStr (inner_text el).
Proof. intros H. unfold price_of. by rewrite H. Qed.

Lemma price_of_no_source json_loads c :
  price_elem c = None → price_of json_loads c PNone = PStr NA.
Proof. intros H. unfold price_of. by rewrite H. Qed.

Lemma strftime_Ymd_nonempty d : strftime_Ymd d ≠ [].
Proof.
  unfold strftime_Ymd. intros H. apply (f_equal length) in H.
  rewrite !length_app in H. simpl in H. lia.
Qed.

Section ExtractionFacts.
Variable json_loads : pystr → option pyval.
Variable w : world.

Lemma extract_fields_lookup idx c p :
  extract_fields json_loads w idx c = Returns p →
  p !! "url" = Some (get_attribute (link c) "href") ∧
  p !! "name" = Some (name_of c) ∧
  p !! "price" = Some (price_of json_loads c (get_attribute (link c) "data-log-body")) ∧
  p !! "thumbnail" = Some (thumbnail_of c) ∧
  p !! "registered_date" = Some (PStr (strftime_Ymd (now w idx))) ∧
  dom p = product_keys.
Proof.
  unfold extract_fields. destruct (fault c); [done|].
  intros [= <-]. repeat split; by simplify_map_eq.
Qed.

Lemma name_of_str c : ∃ s, name_of c = PStr s.
Proof. unfold name_of. destruct (name_elem c); eauto. Qed.

(** One iteration appends the product of the anchor, or nothing when the
    anchor raises; it never raises itself and does not read the flag. *)
Lemma extract_item_result n idx c acc st :
  ∃ st', extract_item json_loads w n idx c acc st =
           (Ok (match extract_fields json_loads w idx c with
                | Returns p => acc ++ [p]
                | Raises _ => acc
                end), st')
         ∧ clock st' = clock st.
Proof.
  unfold extract_item, try_except, bind, lift.
  destruct (extract_fields json_loads w idx c) as [p|e] eqn:E; simpl.
  - apply extract_fields_lookup in E as (_ & Hn & _).
    unfold dict_get. rewrite Hn. destruct (name_of_str c) as [s ->]. simpl.
    eauto.
  - eauto.
Qed.

Lemma extract_loop_calm cards :
  stop_after w = None → ∀ n idx acc st,
  ∃ st', extract_loop json_loads w n idx cards acc st =
           (Ok (acc ++ extracted w json_loads idx cards), st').
Proof.
  intros Hs. induction cards as [|c cards IH]; intros n idx acc st; simpl.
  - rewrite app_nil_r. unfold ret. eauto.
  - rewrite bind_is_running. unfold running_at. rewrite Hs. simpl.
    unfold bind.
    destruct (extract_item_result n idx c acc (tick w st)) as (st1 & -> & _).
    destruct (extract_fields json_loads w idx c) as [p|e].
    + destruct (IH n (S idx) (acc ++ [p]) st1) as (st2 & ->).
      rewrite <- app_assoc. simpl. eauto.
    + apply IH.
Qed.

Lemma extract_products_calm cards st :
  stop_after w = None → query_selector_all w = Returns cards →
  fst (extract_products json_loads w st) = Ok (extracted w json_loads 1 cards).
Proof.
  intros Hs Hq. unfold extract_products.
  rewrite bind_is_running. unfold running_at. rewrite Hs. simpl.
  rewrite bind_lift, Hq, bind_emit.
  match goal with |- context [extract_loop _ _ ?n ?i ?c ?a ?s] =>
    destruct (extract_loop_calm c Hs n i a s) as (st' & ->) end.
  done.
Qed.

(** Whatever the flag does, the loop returns normally, and a property of
    the accumulator that every extracted product has is kept. *)
Lemma extract_loop_Forall (P : product → Prop) cards :
  (∀ idx c p, c ∈ cards → extract_fields json_loads w idx c = Returns p → P p) →
  ∀ n idx acc st, Forall P acc →
  ∃ ps st', extract_loop json_loads w n idx cards acc st = (Ok ps, st') ∧ Forall P ps.
Proof.
  induction cards as [|c cards IH]; intros HP n idx acc st Hacc; simpl.
  - unfold ret. eauto.
  - rewrite bind_is_running.
    destruct (running_at w (clock st)); simpl; [|unfold ret; eauto].
    unfold bind.
    destruct (extract_item_result n idx c acc (tick w st)) as (st1 & -> & _).
    apply IH.
    + intros i c' p Hc. apply HP. by right.
    + destruct (extract_fields json_loads w idx c) as [p|e] eqn:E; [|done].
      apply Forall_app. split; [done|]. constructor; [|done].
      eapply HP; [|done]. by left.
Qed.

Lemma extract_products_Forall (P : product → Prop) st :
  (∀ cards idx c p, query_selector_all w = Returns cards → c ∈ cards →
     extract_fields json_loads w idx c = Returns p → P p) →
  ∀ ps, fst (extract_products json_loads w st) = Ok ps → Forall P ps.
Proof.
  intros HP ps. unfold extract_products.
  rewrite bind_is_running.
  destruct (running_at w (clock st)); simpl; [|by intros [= <-]].
  rewrite bind_lift.
  destruct (query_selector_all w) as [cards|e] eqn:Hq; simpl; [|done].
  rewrite bind_emit.
  match goal with |- context [extract_loop _ _ ?n ?i ?c ?a ?s] =>
    destruct (extract_loop_Forall P c (λ i' c' p' Hc, HP c i' c' p' eq_refl Hc) n i a s)
      as (ps' & st' & -> & HF); [done|] end.
  simpl. by intros [= <-].
Qed.

End ExtractionFacts.

Lemma all_fields_prices ps :
  Forall all_fields_nonempty_str ps → Forall nonempty_str (prices ps).
Proof.
  induction 1 as [|p ps Hp _ IH]; [constructor|].
  cbn [prices map]. constructor; [|exact IH].
  destruct (Hp "price") as (v & Hv & Hne); [unfold product_keys; set_solver|].
  unfold dict_get. by rewrite Hv.
Qed.

(** C1 fails as stated: on a page with an anchor that has no [href], an
    empty name and an empty price text, and an anchor whose log attribute
    holds a JSON number, the two appended records hold [None] as url, the
    empty string as name and price, and the integer 9900 as price. *)
Lemma extracted_fields_not_all_strings :
  fst (extract_products Json.loads (calm_world [bare_card; numeric_price_card]) init_state)
    = Ok bare_products ∧
  urls bare_products = [Some PNone; Some (PStr (lit "/p/4"))] ∧
  names bare_products = [Some (PStr []); Some (PStr (lit "D"))] ∧
  prices bare_products = [PStr []; PInt 9900] ∧
  ¬ Forall all_fields_nonempty_str bare_products.
Proof.
  split; [by apply extract_products_calm|].
  split; [vm_compute; reflexivity|]. split; [vm_compute; reflexivity|].
  assert (Hp : prices bare_products = [PStr []; PInt 9900]) by (vm_compute; reflexivity).
  split; [exact Hp|].
  intros HF. apply all_fields_prices in HF. rewrite Hp in HF.
  apply Forall_cons in HF as [(s & [= <-] & Hne) _]. done.
Qed.

(** C1, amended: every record appended by the extraction has the five keys
    and a non-empty date; its url is the [href] attribute as read, its name
    the text of the name element or ["N/A"], its price the text of the price
    element when there is one and ["N/A"] when there is neither element nor
    log attribute, its thumbnail ["N/A"] when there is no [img] and the
    [src] attribute when that is non-empty. *)
Theorem extracted_record_fields json_loads w st ps :
  fst (extract_products json_loads w st) = Ok ps →
  ∀ p, p ∈ ps → record_fields_ok w p.
Proof.
  intros H. apply Forall_forall. revert ps H. apply extract_products_Forall.
  intros cards idx c p Hq Hc E.
  apply extract_fields_lookup in E as (Hu & Hn & Hp & Ht & Hd & Hdom).
  exists c. split; [eauto|]. split; [done|].
  split; [eexists; split; [done|apply strftime_Ymd_nonempty]|].
  split; [done|]. split; [by rewrite Hn; unfold name_of; destruct (name_elem c)|].
  repeat split.
  - intros el He. by rewrite Hp, (price_of_elem _ _ el).
  - intros He Ha. rewrite Hp. unfold get_attribute. rewrite Ha.
    by rewrite price_of_no_source.
  - intros Hi. by rewrite Ht, thumbnail_of_no_img.
  - intros el s Hi Hs Hne. by rewrite Ht, (thumbnail_of_src _ el s).
Qed.

Lemma extracted_record_fields_witness :
  Forall (record_fields_ok (calm_world (three_cards (lit "12,000")))) sample_products.
Proof.
  apply Forall_forall. intros p Hp.
  refine (extracted_record_fields Json.loads
            (calm_world (three_cards (lit "12,000"))) init_state sample_products _ p Hp).
  by apply extract_products_calm.
Defined.

(** C2: the thumbnail is the sentinel when there is no [img]; with an [img]
    it is the first non-empty of [src], [data-src]; when both are unusable
    it is whatever [data-original] gives.  On an [img] without any of the
    three attributes the field is therefore [None] and not ["N/A"]: the
    chain lacks the final fallback that the claim states. *)
Theorem thumbnail_resolution :
  (∀ c, img_elem c = None → thumbnail_of c = PStr NA) ∧
  (∀ c el s, img_elem c = Some el →
     attributes el !! "src" = Some s → s ≠ [] → thumbnail_of c = PStr s) ∧
  (∀ c el s, img_elem c = Some el →
     unusable (get_attribute el "src") = true →
     attributes el !! "data-src" = Some s → s ≠ [] → thumbnail_of c = PStr s) ∧
  (∀ c el, img_elem c = Some el →
     unusable (get_attribute el "src") = true →
     unusable (get_attribute el "data-src") = true →
     thumbnail_of c = get_attribute el "data-original") ∧
  thumbnail_of card_img_without_source = PNone ∧
  (∀ json_loads st, ∃ p,
     fst (extract_products json_loads (calm_world [card_img_without_source]) st) = Ok [p] ∧
     p !! "thumbnail" = Some PNone).
Proof.
  split; [|split; [|split; [|split; [|split]]]].
  - apply thumbnail_of_no_img.
  - apply thumbnail_of_src.
  - intros c el s H Hu Hs Hne. unfold thumbnail_of. rewrite H, Hu.
    rewrite (get_attribute_Some _ _ _ Hs), !unusable_nonempty; done.
  - intros c el H Hu1 Hu2. unfold thumbnail_of. by rewrite H, Hu1, Hu2.
  - reflexivity.
  - intros json_loads st.
    rewrite (extract_products_calm json_loads _ [card_img_without_source]); [|done..].
    eexists. split; [reflexivity|]. reflexivity.
Qed.

Lemma thumbnail_resolution_witness :
  thumbnail_of (make_card None None None None
                  (Some {["src" := []; "data-src" := lit "//cdn/2.jpg"]}))
    = PStr (lit "//cdn/2.jpg").
Proof.
  destruct thumbnail_resolution as (_ & _ & H & _).
  eapply H; [reflexivity|reflexivity|reflexivity|discriminate].
Defined.

Section PriceFacts.
Variable json_loads : pystr → option pyval.

(** The price computed for an anchor from its own log attribute follows
    the rule. *)
Lemma price_of_rule c :
  price_rule json_loads c
    (price_of json_loads c (get_attribute (link c) "data-log-body")).
Proof.
  split.
  - intros el H. by apply price_of_elem.
  - intros H. unfold price_of, get_attribute. rewrite H. split.
    + by intros ->.
    + intros s ->. cbn [price_from_log]. split.
      * intros ->. by rewrite andb_false_r.
      * intros Hc. rewrite Hc.
        assert (Ht : truthy (PStr s) = true).
        { destruct s; [discriminate Hc|done]. }
        rewrite Ht. cbn [andb]. split; [|split].
        -- by intros kvs ->.
        -- by intros ->.
        -- intros v -> Hv. destruct v; try done. by destruct (Hv kvs).
Qed.

Lemma extract_fields_price w idx c p :
  extract_fields json_loads w idx c = Returns p → price_follows json_loads c p.
Proof.
  intros E. apply extract_fields_lookup in E as (_ & _ & Hp & _).
  eexists. split; [exact Hp|apply price_of_rule].
Qed.

(** The records of a page follow the rule anchor by anchor, in the order
    of the anchors that do not raise. *)
Lemma extracted_prices w cards : ∀ idx,
  Forall2 (price_follows json_loads) (sound_cards cards) (extracted w json_loads idx cards).
Proof.
  induction cards as [|c cards IH]; intros idx; [constructor|].
  unfold sound_cards. rewrite filter_cons. cbn [extracted].
  destruct (extract_fields json_loads w idx c) as [p|e] eqn:E.
  - assert (Hf : fault c = None).
    { unfold extract_fields in E. by destruct (fault c). }
    rewrite decide_True by done. constructor; [by eapply extract_fields_price|apply IH].
  - assert (Hf : fault c ≠ None).
    { unfold extract_fields in E. by destruct (fault c). }
    rewrite decide_False by done. apply IH.
Qed.

End PriceFacts.

(** C3: for every anchor, the price of its record is the text of the price
    element when there is one; otherwise, when the [data-log-body] attribute
    of that anchor contains [last_discount_price], it is the
    [last_discount_price] field of the JSON object decoded after replacing
    [&quot;] by a quote; it is ["N/A"] when decoding fails or gives no
    object, and when there is neither element nor a log attribute with the
    field.  This holds for the record built from any anchor, for every
    record of an extraction, and anchor by anchor in page order when the
    extraction is not cancelled.  For three anchors with a price element,
    with only the blob, and with neither, the prices are the text, ["9,900"]
    and ["N/A"], in that order. *)
Theorem price_resolution (json_loads : pystr → option pyval) :
  (∀ w idx c p, extract_fields json_loads w idx c = Returns p →
     price_follows json_loads c p) ∧
  (∀ w st ps, fst (extract_products json_loads w st) = Ok ps →
     ∀ p, p ∈ ps →
       ∃ cards c, query_selector_all w = Returns cards ∧ c ∈ cards ∧
         price_follows json_loads c p) ∧
  (∀ w st cards, stop_after w = None → query_selector_all w = Returns cards →
     ∃ ps, fst (extract_products json_loads w st) = Ok ps ∧
       Forall2 (price_follows json_loads) (sound_cards cards) ps) ∧
  (json_loads price_blob_decoded
     = Some (PDict [(lit "last_discount_price", PStr (lit "9,900"))]) →
   ∀ text st, ∃ ps,
     fst (extract_products json_loads (calm_world (three_cards text)) st) = Ok ps ∧
     prices ps = [PStr text; PStr (lit "9,900"); PStr NA]).
Proof.
  split; [|split; [|split]].
  - apply extract_fields_price.
  - intros w st ps H. apply Forall_forall. revert ps H.
    apply extract_products_Forall. intros cards idx c p Hq Hc E.
    exists cards, c. split; [done|]. split; [done|]. by eapply extract_fields_price.
  - intros w st cards Hs Hq. eexists. split; [by apply extract_products_calm|].
    apply extracted_prices.
  - intros Hj text st.
    rewrite (extract_products_calm json_loads _ (three_cards text)); [|done..].
    eexists. split; [reflexivity|].
    vm_compute in Hj. vm_compute. rewrite Hj. reflexivity.
Qed.

Lemma price_resolution_witness :
  ∃ ps,
    fst (extract_products Json.loads (calm_world (three_cards (lit "12,000"))) init_state)
      = Ok ps ∧
    prices ps = [PStr (lit "12,000"); PStr (lit "9,900"); PStr NA].
Proof.
  destruct (price_resolution Json.loads) as (_ & _ & _ & H).
  apply (H eq_refl (lit "12,000") init_state).
Defined.

(** ** Determinism of the extraction *)

Section Determinism.
Variable json_loads : pystr → option pyval.
Variables w1 w2 : world.
Hypothesis same_now : ∀ i, now w1 i = now w2 i.

Lemma extract_fields_same idx c :
  extract_fields json_loads w1 idx c = extract_fields json_loads w2 idx c.
Proof. unfold extract_fields. by rewrite same_now. Qed.

Lemma extract_loop_same cards : ∀ n idx acc st1 st2,
  (∀ k, running_at w1 (clock st1 + k) = running_at w2 (clock st2 + k)) →
  fst (extract_loop json_loads w1 n idx cards acc st1)
  = fst (extract_loop json_loads w2 n idx cards acc st2).
Proof.
  induction cards as [|c cards IH]; intros n idx acc st1 st2 Hr; simpl; [done|].
  rewrite !bind_is_running.
  pose proof (Hr 0) as H0. rewrite !Nat.add_0_r in H0. rewrite H0.
  destruct (running_at w2 (clock st2)); simpl; [|done].
  unfold bind.
  destruct (extract_item_result json_loads w1 n idx c acc (tick w1 st1)) as (s1 & -> & Hc1).
  destruct (extract_item_result json_loads w2 n idx c acc (tick w2 st2)) as (s2 & -> & Hc2).
  rewrite extract_fields_same. apply IH.
  intros k. rewrite Hc1, Hc2. simpl.
  specialize (Hr (S k)). by rewrite !Nat.add_succ_r in Hr.
Qed.

End Determinism.

(** C9 fails as stated: the same DOM snapshot extracted on two different
    days gives records that differ in [registered_date]. *)
Lemma extraction_depends_on_the_date :
  query_selector_all (calm_world_on a_day [bare_card])
    = query_selector_all (calm_world_on (Date 2025 3 8) [bare_card]) ∧
  fst (extract_products Json.loads (calm_world_on a_day [bare_card]) init_state)
    ≠ fst (extract_products Json.loads (calm_world_on (Date 2025 3 8) [bare_card]) init_state).
Proof.
  split; [reflexivity|]. intros H. apply (f_equal dates_of) in H.
  vm_compute in H. discriminate H.
Qed.

(** C9, amended: two runs of the extraction on the same DOM snapshot give
    identical records when the wall clock shows the same dates to both and
    both observe the same values of the cancellation flag. *)
Theorem extraction_deterministic json_loads w1 w2 st1 st2 :
  query_selector_all w1 = query_selector_all w2 →
  (∀ i, now w1 i = now w2 i) →
  (∀ k, running_at w1 (clock st1 + k) = running_at w2 (clock st2 + k)) →
  fst (extract_products json_loads w1 st1) = fst (extract_products json_loads w2 st2).
Proof.
  intros Hq Hn Hr. unfold extract_products.
  rewrite !bind_is_running.
  pose proof (Hr 0) as H0. rewrite !Nat.add_0_r in H0. rewrite H0.
  destruct (running_at w2 (clock st2)); simpl; [|done].
  rewrite !bind_lift, Hq.
  destruct (query_selector_all w2) as [cards|e]; simpl; [|done].
  rewrite !bind_emit. apply extract_loop_same; [done|].
  intros k. simpl. specialize (Hr (S k)). by rewrite !Nat.add_succ_r in Hr.
Qed.

Lemma extraction_deterministic_witness :
  fst (extract_products Json.loads (calm_world (three_cards (lit "12,000"))) init_state)
  = fst (extract_products Json.loads (offline_world (three_cards (lit "12,000")))
           (log Finished init_state)).
Proof.
  apply extraction_deterministic; [reflexivity | intros i; reflexivity |
                                   intros k; reflexivity].
Defined.

(** ** The scroll loop *)

Local Arguments Z.add : simpl never.
Local Arguments Z.geb : simpl never.
Local Arguments Z.eqb : simpl never.
Local Arguments Nat.ltb : simpl never.
Local Arguments max_scrolls : simpl never.

Lemma scrolls_app tr1 tr2 : scrolls (tr1 ++ tr2) = scrolls tr1 ++ scrolls tr2.
Proof. unfold scrolls. apply omap_app. Qed.

Lemma scrolls_tick w st : scrolls (trace (tick w st)) = scrolls (trace st).
Proof. simpl. rewrite scrolls_app. simpl. by rewrite app_nil_r. Qed.

Lemma scrolls_log_scroll pos st :
  scrolls (trace (log (ScrollTo pos) st)) = scrolls (trace st) ++ [pos].
Proof. simpl. by rewrite scrolls_app. Qed.

Lemma scrolls_log_progress m st :
  scrolls (trace (log (Progress m) st)) = scrolls (trace st).
Proof. simpl. rewrite scrolls_app. simpl. by rewrite app_nil_r. Qed.

Section ScrollFacts.
Variable w : world.

(** Liveness bound: with fuel beyond the iterations that remain, the loop
    ends, and it scrolls at most that many times, whatever the heights,
    the flag and the browser do. *)
Lemma scroll_loop_bound fuel : ∀ s st,
  max_scrolls - scroll_count s < fuel →
  fst (scroll_loop w fuel s st) ≠ Diverge ∧
  length (scrolls (trace (snd (scroll_loop w fuel s st))))
    ≤ length (scrolls (trace st)) + (max_scrolls - scroll_count s).
Proof.
  induction fuel as [|fuel IH]; intros s st Hf; [lia|].
  simpl. destruct (scroll_count s <? max_scrolls) eqn:Hlt; simpl.
  2: { unfold ret. simpl. split; [done|lia]. }
  apply Nat.ltb_lt in Hlt.
  rewrite bind_is_running.
  destruct (running_at w (clock st)); cbn [negb].
  2: { unfold ret. cbn [fst snd]. rewrite scrolls_tick. split; [done|lia]. }
  rewrite bind_emit, bind_lift.
  destruct (scroll_height w (S (scroll_count s))) as [h|e]; cbn [fst snd].
  2: { rewrite scrolls_log_scroll, scrolls_tick, length_app. simpl.
       split; [done|lia]. }
  rewrite bind_emit.
  destruct (current_position s + scroll_step >=? h)%Z; [destruct (h =? last_height s)%Z|].
  - unfold ret. cbn [fst snd].
    rewrite scrolls_log_progress, scrolls_log_scroll, scrolls_tick, length_app.
    simpl. split; [done|lia].
  - match goal with |- context [scroll_loop w fuel ?s' ?st'] =>
      destruct (IH s' st') as [Hd Hb]; [cbn [scroll_count]; lia|] end.
    split; [done|].
    rewrite scrolls_log_progress, scrolls_log_scroll, scrolls_tick, length_app in Hb.
    cbn [scroll_count length] in Hb. lia.
  - match goal with |- context [scroll_loop w fuel ?s' ?st'] =>
      destruct (IH s' st') as [Hd Hb]; [cbn [scroll_count]; lia|] end.
    split; [done|].
    rewrite scrolls_log_progress, scrolls_log_scroll, scrolls_tick, length_app in Hb.
    cbn [scroll_count length] in Hb. lia.
Qed.

Variable heights : nat → Z.
Hypothesis never_stopped : stop_after w = None.
Hypothesis page_heights : ∀ k, scroll_height w k = Returns (heights k).

(** Without cancellation and failure the loop follows [track] and ends at
    the first iteration that finds the page settled, or at the cap. *)
Lemma scroll_loop_calm fuel : ∀ s st,
  max_scrolls - scroll_count s < fuel →
  scroll_count s ≤ max_scrolls →
  (last_height s, current_position s) = track heights (scroll_count s) →
  (∀ k, 1 ≤ k ≤ scroll_count s → settles heights k = false) →
  ∃ s' st',
    scroll_loop w fuel s st = (Ok s', st') ∧
    scroll_count s ≤ scroll_count s' ≤ max_scrolls ∧
    scrolls (trace st') = scrolls (trace st) ++
      map (λ k, (snd (track heights k) + scroll_step)%Z)
          (seq (scroll_count s) (scroll_count s' - scroll_count s)) ∧
    (∀ k, 1 ≤ k < scroll_count s' → settles heights k = false) ∧
    (scroll_count s' < max_scrolls → settles heights (scroll_count s') = true).
Proof.
  induction fuel as [|fuel IH]; intros s st Hf Hle Htr Hns; [lia|].
  simpl. destruct (scroll_count s <? max_scrolls) eqn:Hlt; simpl.
  2: { apply Nat.ltb_ge in Hlt.
       eexists _, _. split; [reflexivity|]. split; [lia|].
       split; [by rewrite Nat.sub_diag, app_nil_r|].
       split; [intros k Hk; apply Hns; lia|lia]. }
  apply Nat.ltb_lt in Hlt.
  rewrite bind_is_running. unfold running_at at 1. rewrite never_stopped.
  cbn [negb]. rewrite bind_emit, bind_lift, page_heights, bind_emit.
  set (pos := (current_position s + scroll_step)%Z).
  set (h := heights (S (scroll_count s))).
  assert (Hpos : (snd (track heights (scroll_count s)) + scroll_step)%Z = pos).
  { by rewrite <- Htr. }
  assert (Hset : settles heights (S (scroll_count s))
                 = ((pos >=? h) && (h =? last_height s))%Z).
  { cbn [settles]. by rewrite <- Htr. }
  assert (Htr' : track heights (S (scroll_count s))
                 = if (pos >=? h)%Z then (h, 0%Z) else (last_height s, pos)).
  { cbn [track]. by rewrite <- Htr. }
  assert (Hcont : ∀ s1,
            scroll_count s1 = S (scroll_count s) →
            (last_height s1, current_position s1) = track heights (S (scroll_count s)) →
            settles heights (S (scroll_count s)) = false →
            ∃ s' st',
              scroll_loop w fuel s1
                (log (Progress (MsgScrolling pos h (S (scroll_count s))))
                   (log (ScrollTo pos) (tick w st))) = (Ok s', st') ∧
              scroll_count s ≤ scroll_count s' ≤ max_scrolls ∧
              scrolls (trace st') = scrolls (trace st) ++
                map (λ k, (snd (track heights k) + scroll_step)%Z)
                    (seq (scroll_count s) (scroll_count s' - scroll_count s)) ∧
              (∀ k, 1 ≤ k < scroll_count s' → settles heights k = false) ∧
              (scroll_count s' < max_scrolls → settles heights (scroll_count s') = true)).
  { intros s1 Hc1 Ht1 Hs1.
    destruct (IH s1 (log (Progress (MsgScrolling pos h (S (scroll_count s))))
                       (log (ScrollTo pos) (tick w st))))
      as (s' & st' & -> & Hc & Hs & Hn & Hb); [lia|lia|by rewrite Hc1| |].
    { intros k Hk. destruct (decide (k = S (scroll_count s))) as [->|];
        [done|apply Hns; lia]. }
    eexists _, _. split; [reflexivity|]. split; [lia|]. split; [|done].
    rewrite Hs, scrolls_log_progress, scrolls_log_scroll, scrolls_tick, <- app_assoc.
    f_equal. rewrite Hc1.
    replace (scroll_count s' - scroll_count s)
      with (S (scroll_count s' - S (scroll_count s))) by lia.
    simpl. by rewrite Hpos. }
  destruct (pos >=? h)%Z eqn:Hge; [destruct (h =? last_height s)%Z eqn:Heq|].
  - eexists _, _. split; [reflexivity|]. cbn [scroll_count].
    split; [lia|]. split.
    { rewrite scrolls_log_progress, scrolls_log_scroll, scrolls_tick.
      replace (S (scroll_count s) - scroll_count s) with 1 by lia.
      simpl. by rewrite Hpos. }
    split; [intros k Hk; apply Hns; lia|]. intros _. by rewrite Hset.
  - apply Hcont; [done|by rewrite Htr'|by rewrite Hset].
  - apply Hcont; [done|by rewrite Htr'|by rewrite Hset].
Qed.

End ScrollFacts.

(** C4 fails as stated: on a page that grows at every evaluation, so that
    no iteration up to the cap finds it settled, the loop stops after one
    iteration when [stop()] is called in between. *)
Lemma scroll_stops_early_when_cancelled :
  iterations (fst (scroll_gradually (growing_world (Some 1)) 101 init_state)) = Some 1 ∧
  settled_iterations (λ k, Z.of_nat k * 1000)%Z = [].
Proof. split; vm_compute; reflexivity. Qed.

(** C4, amended: whatever the page heights, the flag and the browser do,
    the scroll loop ends and scrolls at most 100 times.  As long as the flag
    stays set and the page answers, each iteration scrolls 800 further than
    the position before it, an iteration that finds the position at or
    beyond a height that differs from the recorded one records it and
    restarts from position 0, and the loop stops before the cap exactly
    when an iteration finds the position at or beyond the current height
    and that height equal to the recorded one. *)
Theorem scroll_gradually_bounded w fuel st :
  max_scrolls < fuel →
  fst (scroll_gradually w fuel st) ≠ Diverge ∧
  length (scrolls (trace (snd (scroll_gradually w fuel st))))
    ≤ length (scrolls (trace st)) + max_scrolls ∧
  ∀ heights, stop_after w = None → (∀ k, scroll_height w k = Returns (heights k)) →
    follows_track heights st (scroll_gradually w fuel st).
Proof.
  intros Hf. unfold scroll_gradually. rewrite bind_lift.
  destruct (scroll_height w 0) as [h0|e] eqn:H0.
  - match goal with |- context [scroll_loop w fuel ?s0 st] => set (s0' := s0) end.
    destruct (scroll_loop_bound w fuel s0' st) as [Hd Hb]; [cbn; lia|].
    split; [done|]. split; [cbn [scroll_count s0'] in Hb; lia|].
    intros heights Hs Hh.
    destruct (scroll_loop_calm w heights Hs Hh fuel s0' st)
      as (s & st' & Hr & Hc & Htr & Hn & Hlast); [cbn; lia|cbn; lia| | |].
    { cbn. rewrite Hh in H0. by injection H0 as ->. }
    { cbn. intros k Hk. lia. }
    rewrite Hr. cbn [scroll_count s0'] in *. exists s. cbn [fst snd].
    assert (H1 : 1 ≤ scroll_count s).
    { destruct (scroll_count s) eqn:E; [|lia].
      assert (0 < max_scrolls) as Hpos by (unfold max_scrolls; lia).
      specialize (Hlast Hpos). done. }
    split; [done|]. split; [lia|].
    split; [by rewrite Htr, Nat.sub_0_r|].
    split; [done|]. split; [done|]. split.
    + intros Hlt. exists (scroll_count s). auto.
    + intros (k & Hk & Hset).
      destruct (decide (scroll_count s < max_scrolls)) as [|Hge]; [done|].
      rewrite Hn in Hset; [done|lia].
  - cbn [fst snd]. split; [done|]. split; [lia|].
    intros heights _ Hh. rewrite Hh in H0. done.
Qed.

Lemma scroll_gradually_bounded_witness :
  fst (scroll_gradually (calm_world []) 101 init_state) ≠ Diverge ∧
  follows_track (λ _, 1600%Z) init_state (scroll_gradually (calm_world []) 101 init_state).
Proof.
  destruct (scroll_gradually_bounded (calm_world []) 101 init_state) as (H1 & _ & H3).
  - unfold max_scrolls. lia.
  - split; [exact H1|]. apply H3; [reflexivity|]. intros k. reflexivity.
Defined.

(** A page of constant height 1600 is settled at the second iteration. *)
Example scroll_constant_page :
  scrolls (trace (snd (scroll_gradually (calm_world []) 101 init_state)))
    = [800; 1600]%Z.
Proof. vm_compute. reflexivity. Qed.

(** A page that grows by 1000 at every evaluation is never caught up with:
    the loop runs into the cap. *)
Example scroll_growing_page :
  length (scrolls (trace (snd (scroll_gradually (growing_world None) 101 init_state))))
    = 100.
Proof. vm_compute. reflexivity. Qed.

(** ** The download batch *)

Section DownloadFacts.
Variable char_isalnum : N → bool.
Variable w : world.

Lemma join_kept_chars (l : pystr) :
  join_kept char_isalnum (map (λ c, PStr [c]) l)
  = Returns (filter (λ c, keep_char char_isalnum c = true) l).
Proof.
  induction l as [|c l IH]; [done|].
  cbn [map join_kept keep_in_name]. rewrite IH.
  assert (E : str_isalnum char_isalnum [c] || PyStr.eqb [c] (lit " ")
                || PyStr.eqb [c] (lit "_") = keep_char char_isalnum c).
  { unfold str_isalnum, keep_char, PyStr.eqb. cbn [forallb].
    rewrite andb_true_r. eval_lit.
    rewrite bool_decide_eq_false_2 by done. cbn [negb andb].
    f_equal; [f_equal|].
    - destruct (c =? 32)%N eqn:E.
      + apply N.eqb_eq in E as ->. by rewrite bool_decide_eq_true_2.
      + apply N.eqb_neq in E. rewrite bool_decide_eq_false_2; [done|congruence].
    - destruct (c =? 95)%N eqn:E.
      + apply N.eqb_eq in E as ->. by rewrite bool_decide_eq_true_2.
      + apply N.eqb_neq in E. rewrite bool_decide_eq_false_2; [done|congruence]. }
  rewrite E. rewrite filter_cons.
  destruct (keep_char char_isalnum c); by case_decide.
Qed.

Lemma safe_name_str (name : pystr) :
  safe_name char_isalnum (PStr name)
  = Returns (filter (λ c, keep_char char_isalnum c = true) (take 50 name)).
Proof. unfold safe_name, slice_items. apply join_kept_chars. Qed.



Lemma after_nil st : after [] st = st.
Proof. unfold after. rewrite app_nil_r. by destruct st. Qed.

(** One item: it never raises, changes at most [thumbnail_local], and
    its outside calls carry its index. *)
Lemma download_item_spec n idx p st :
  p !! "thumbnail_local" = None →
  ∃ p' evs,
    download_item char_isalnum w n idx p st = (Ok p', after evs st) ∧
    (∀ ev j, ev ∈ evs → io_idx ev = Some j → j = idx) ∧
    (∀ ev, ev ∈ evs → io_idx ev = None → ∃ m, ev = Progress m) ∧
    item_outcome char_isalnum w evs idx p p' ∧
    item_attempted w evs idx p.
Proof.
  intros Hfresh. unfold download_item, try_except.
  assert (Hnone : ∀ evs,
            (∀ ev, ev ∈ evs → (∃ m, ev = Progress m) ∨ (∃ u s, ev = HttpGet idx u s)) →
            (∀ ev j, ev ∈ evs → io_idx ev = Some j → j = idx) ∧
            (∀ ev, ev ∈ evs → io_idx ev = None → ∃ m, ev = Progress m) ∧
            (is_Some (p !! "thumbnail_local") ↔ ∃ path, fetched_and_written w evs idx path) ∧
            (∀ v, p !! "thumbnail_local" = Some v →
               ∃ path, v = PStr path ∧ fetched_and_written w evs idx path ∧
                 ∀ name, p !! "name" = Some (PStr name) →
                   path = thumbnail_file char_isalnum idx name) ∧
            (∀ k, k ≠ "thumbnail_local" → p !! k = p !! k)).
  { intros evs Hevs. split; [|split; [|split; [|split]]].
    - intros ev j Hin Hj. destruct (Hevs ev Hin) as [[m ->]|(u & s & ->)]; [done|].
      by injection Hj as <-.
    - intros ev Hin Hj. destruct (Hevs ev Hin) as [[m ->]|(u & s & ->)]; [eauto|done].
    - rewrite Hfresh. split; [by intros [? ?]|].
      intros (path & url & r & _ & _ & _ & Hw).
      destruct (Hevs _ Hw) as [[m ?]|(u & s & ?)]; done.
    - rewrite Hfresh. done.
    - done. }
  destruct (truthy (dict_get p "thumbnail" PNone)
            && negb (eq_str (dict_get p "thumbnail" PNone) NA)) eqn:Huse.
  2: { exists p, []. rewrite after_nil. split; [done|].
       destruct (Hnone []) as (H1 & H2 & H3 & H4 & H5); [intros ev Hin; by inversion Hin|].
       split; [done|]. split; [done|]. split; [done|].
       intros t r Ht Hne Hna. exfalso. unfold dict_get in Huse. rewrite Ht in Huse.
       simpl in Huse. unfold PyStr.eqb in Huse.
       rewrite !bool_decide_eq_false_2 in Huse by done. done. }
  assert (Hatt : ∀ u evs r0,
            dict_get p "thumbnail" PNone = PStr u →
            requests_get w idx (normalize_url u) = Returns r0 →
            HttpGet idx (normalize_url u) (status_code r0) ∈ evs →
            item_attempted w evs idx p).
  { intros u evs r0 Hu Hr0 Hin t r Ht _ _ Hr. unfold dict_get in Hu.
    rewrite Ht in Hu. injection Hu as <-. rewrite Hr0 in Hr. by injection Hr as <-. }
  unfold http_get, file_write, bind, lift, emit, ret.
  destruct (dict_get p "thumbnail" PNone) as [| | |u| |] eqn:Hth;
    try (eexists p, [_]; split; [reflexivity|];
         destruct (Hnone [Progress (MsgImageError idx
                     (PyExn "AttributeError" (lit "startswith")))])
           as (H1 & H2 & H3 & H4 & H5);
           [intros ev ->%list_elem_of_singleton; eauto|];
         split; [done|]; split; [done|]; split; [done|];
         intros t r Ht; unfold dict_get in Hth; rewrite Ht in Hth; done).
  cbn [as_str].
  destruct (requests_get w idx (normalize_url u)) as [r0|e] eqn:Hget.
  2: { eexists p, [_]. split; [reflexivity|].
       destruct (Hnone [Progress (MsgImageError idx e)]) as (H1 & H2 & H3 & H4 & H5);
         [intros ev ->%list_elem_of_singleton; eauto|].
       split; [done|]. split; [done|]. split; [done|].
       intros t r Ht _ _ Hr. unfold dict_get in Hth. rewrite Ht in Hth.
       injection Hth as <-. congruence. }
  destruct (status_code r0 =? 200)%Z eqn:Hst.
  2: { eexists p, [_]. split; [reflexivity|].
       destruct (Hnone [HttpGet idx (normalize_url u) (status_code r0)])
         as (H1 & H2 & H3 & H4 & H5); [intros ev ->%list_elem_of_singleton; eauto|].
       split; [done|]. split; [done|]. split; [done|].
       eapply Hatt; [done..|]. by left. }
  apply Z.eqb_eq in Hst.
  assert (Hfail : ∀ e,
    ∃ p' evs,
      (Ok p, log (Progress (MsgImageError idx e))
               (log (HttpGet idx (normalize_url u) (status_code r0)) st))
        = (Ok p', after evs st) ∧
      (∀ ev j, ev ∈ evs → io_idx ev = Some j → j = idx) ∧
      (∀ ev, ev ∈ evs → io_idx ev = None → ∃ m, ev = Progress m) ∧
      item_outcome char_isalnum w evs idx p p' ∧
      item_attempted w evs idx p).
  { intros e. exists p, [HttpGet idx (normalize_url u) (status_code r0);
                        Progress (MsgImageError idx e)].
    split; [unfold log, after; simpl; by rewrite <- app_assoc|].
    destruct (Hnone [HttpGet idx (normalize_url u) (status_code r0);
                     Progress (MsgImageError idx e)])
      as (H1 & H2 & H3 & H4 & H5).
    { intros ev Hin. apply elem_of_cons in Hin as [->|Hin]; [eauto|].
      apply list_elem_of_singleton in Hin as ->. eauto. }
    split; [done|]. split; [done|]. split; [done|].
    eapply Hatt; [done..|]. by left. }
  destruct (getitem p "name") as [name|e] eqn:Hname; cbn [fst snd]; [|apply Hfail].
  destruct (safe_name char_isalnum name) as [safe|e] eqn:Hsafe; [|apply Hfail].
  destruct (write_file w idx (thumbnail_path idx safe) (content r0)) as [[]|e] eqn:Hw;
    [|apply Hfail].
  exists (<["thumbnail_local" := PStr (thumbnail_path idx safe)]> p),
         [HttpGet idx (normalize_url u) (status_code r0);
          FileWrite idx (thumbnail_path idx safe) (content r0);
          Progress (MsgImageDone idx n)].
  split; [unfold log, after; simpl; by rewrite <- !app_assoc|].
  assert (Hfw : fetched_and_written w
            [HttpGet idx (normalize_url u) (status_code r0);
             FileWrite idx (thumbnail_path idx safe) (content r0);
             Progress (MsgImageDone idx n)] idx (thumbnail_path idx safe)).
  { exists (normalize_url u), r0. split; [done|]. split; [done|].
    rewrite Hst. split; [by left|]. right. by left. }
  split; [|split; [|split; [split; [|split]|]]].
  - intros ev j Hin Hj. repeat (apply elem_of_cons in Hin as [->|Hin]);
      try (by injection Hj as <-); try done. by inversion Hin.
  - intros ev Hin Hj. repeat (apply elem_of_cons in Hin as [->|Hin]);
      try done; eauto. by inversion Hin.
  - rewrite lookup_insert_eq. split; [eauto|done].
  - rewrite lookup_insert_eq. intros v [= <-]. eexists. split; [done|]. split; [done|].
    intros nm Hnm. unfold getitem in Hname. rewrite Hnm in Hname.
    injection Hname as <-. rewrite safe_name_str in Hsafe. by injection Hsafe as <-.
  - intros k Hk. by rewrite lookup_insert_ne.
  - eapply Hatt; [done..|]. by left.
Qed.

Lemma running_at_mono c k : running_at w (c + k) = true → running_at w c = true.
Proof.
  unfold running_at. destruct (stop_after w); [|done].
  rewrite !Nat.ltb_lt. lia.
Qed.

Lemma fetched_and_written_same evs evs' j path :
  (∀ ev, io_idx ev = Some j → ev ∈ evs → ev ∈ evs') →
  fetched_and_written w evs j path → fetched_and_written w evs' j path.
Proof.
  intros H (url & r & Hr & Hs & Hg & Hw). exists url, r.
  split; [done|]. split; [done|]. split; by apply H.
Qed.

(** The outcome of an item only depends on the outside calls made for it. *)
Lemma item_outcome_same evs evs' j p p' :
  (∀ ev, io_idx ev = Some j → (ev ∈ evs ↔ ev ∈ evs')) →
  item_outcome char_isalnum w evs j p p' → item_outcome char_isalnum w evs' j p p'.
Proof.
  intros H (H1 & H2 & H3). split; [|split; [|done]].
  - rewrite H1. split; intros [path Hp]; exists path;
      (eapply fetched_and_written_same; [|done]); intros ev Hev; by apply H.
  - intros v Hv. destruct (H2 v Hv) as (path & -> & Hp & Hn). exists path.
    split; [done|]. split; [|done].
    eapply fetched_and_written_same; [|done]. intros ev Hev; by apply H.
Qed.

Lemma item_outcome_untouched evs j p :
  p !! "thumbnail_local" = None →
  (∀ ev, ev ∈ evs → io_idx ev ≠ Some j) →
  item_outcome char_isalnum w evs j p p.
Proof.
  intros Hf Hno. split; [|split; [|done]].
  - rewrite Hf. split; [by intros [? ?]|].
    intros (path & url & r & _ & _ & Hg & _). by destruct (Hno _ Hg).
  - by rewrite Hf.
Qed.

Lemma item_attempted_mono evs evs' j p :
  (∀ ev, ev ∈ evs → ev ∈ evs') →
  item_attempted w evs j p → item_attempted w evs' j p.
Proof. intros H Ha t r Ht Hne Hna Hr. apply H. by eapply Ha. Qed.

(** The loop: it returns normally; the outside calls of the item at
    position [i] carry the index [idx + i]; the flag is read once per item. *)
Lemma download_loop_spec n products : ∀ idx st,
  Forall (λ p : product, p !! "thumbnail_local" = None) products →
  ∃ products' st' evs,
    download_loop char_isalnum w n idx products st = (Ok products', st') ∧
    trace st' = trace st ++ evs ∧
    length products' = length products ∧
    (∀ ev j, ev ∈ evs → io_idx ev = Some j → idx ≤ j < idx + length products) ∧
    ∀ i p, products !! i = Some p →
      ∃ p', products' !! i = Some p' ∧
        item_outcome char_isalnum w evs (idx + i) p p' ∧
        (running_at w (clock st + i) = true → item_attempted w evs (idx + i) p).
Proof.
  induction products as [|p rest IH]; intros idx st Hfresh.
  - exists [], st, []. split; [done|]. split; [by rewrite app_nil_r|].
    split; [done|]. split; [intros ev j Hin; by inversion Hin|]. intros i p Hi. done.
  - apply Forall_cons in Hfresh as [Hp Hrest].
    cbn [download_loop]. rewrite bind_is_running.
    destruct (running_at w (clock st)) eqn:Hrun; cbn [negb].
    + unfold bind.
      destruct (download_item_spec n idx p (tick w st) Hp)
        as (p' & evs1 & -> & Htag1 & Hprog1 & Hout1 & Hatt1).
      destruct (IH (S idx) (after evs1 (tick w st)) Hrest)
        as (rest' & st' & evs2 & -> & Htr & Hlen & Htag2 & Hitems).
      exists (p' :: rest'), st', ([FlagRead true] ++ evs1 ++ evs2).
      split; [done|].
      split; [rewrite Htr; simpl; by rewrite Hrun, <- !app_assoc|].
      split; [simpl; lia|]. split.
      { intros ev j Hin Hj. apply elem_of_app in Hin as [Hin|Hin].
        { apply list_elem_of_singleton in Hin as ->. done. }
        apply elem_of_app in Hin as [Hin|Hin].
        - rewrite (Htag1 _ _ Hin Hj). simpl. lia.
        - specialize (Htag2 _ _ Hin Hj). simpl. lia. }
      intros [|i] q Hq.
      * injection Hq as <-. exists p'. split; [done|]. rewrite Nat.add_0_r. split.
        { eapply item_outcome_same; [|done]. intros ev Hev. split.
          - intros Hin. apply elem_of_app. right. apply elem_of_app. by left.
          - intros Hin. apply elem_of_app in Hin as [Hin|Hin].
            { apply list_elem_of_singleton in Hin as ->. done. }
            apply elem_of_app in Hin as [Hin|Hin]; [done|].
            specialize (Htag2 _ _ Hin Hev). lia. }
        intros _. eapply item_attempted_mono; [|done].
        intros ev Hin. apply elem_of_app. right. apply elem_of_app. by left.
      * destruct (Hitems i q Hq) as (q' & Hq' & Hout & Hatt).
        exists q'. split; [done|].
        replace (idx + S i) with (S idx + i) by lia. split.
        { eapply item_outcome_same; [|done]. intros ev Hev. split.
          - intros Hin. apply elem_of_app. right. apply elem_of_app. by right.
          - intros Hin. apply elem_of_app in Hin as [Hin|Hin].
            { apply list_elem_of_singleton in Hin as ->. done. }
            apply elem_of_app in Hin as [Hin|Hin]; [|done].
            specialize (Htag1 _ _ Hin Hev). lia. }
        intros Hr. eapply item_attempted_mono; [|apply Hatt].
        { intros ev Hin. apply elem_of_app. right. apply elem_of_app. by right. }
        simpl. by replace (S (clock st + i)) with (clock st + S i) by lia.
    + exists (p :: rest), (tick w st), [FlagRead false].
      split; [done|]. split; [simpl; by rewrite Hrun|]. split; [done|]. split.
      { intros ev j ->%list_elem_of_singleton. done. }
      intros i q Hq. exists q. split; [done|]. split.
      * apply item_outcome_untouched.
        { apply (Forall_lookup_1 (λ p : product, p !! "thumbnail_local" = None)
                   (p :: rest) i q); [by constructor|done]. }
        intros ev ->%list_elem_of_singleton. done.
      * intros Hr. apply running_at_mono in Hr. congruence.
Qed.

Lemma item_left_refl idx p : item_left char_isalnum w idx p p.
Proof. by repeat split. Qed.

Lemma item_saved_mono evs evs' idx p p' :
  (∀ ev, ev ∈ evs → ev ∈ evs') →
  item_saved char_isalnum w evs idx p p' → item_saved char_isalnum w evs' idx p p'.
Proof.
  intros H Hs t r name Ht Hne Hna Hr Hst Hn Hw.
  destruct (Hs t r name Ht Hne Hna Hr Hst Hn Hw) as [Hp Hev]. split; [done|by apply H].
Qed.

(** One item, by what the network and the disk answer: when nothing fails
    the file is written and the path recorded; in every other case the
    product is left as it was. *)
Lemma download_item_cases n idx p st :
  ∃ p' evs,
    download_item char_isalnum w n idx p st = (Ok p', after evs st) ∧
    item_left char_isalnum w idx p p' ∧
    item_saved char_isalnum w evs idx p p'.
Proof.
  assert (Hkeep : ∀ evs st1, st1 = after evs st →
            (∀ t r name,
               p !! "thumbnail" = Some (PStr t) → t ≠ [] → t ≠ NA →
               requests_get w idx (normalize_url t) = Returns r → status_code r = 200%Z →
               p !! "name" = Some (PStr name) →
               write_file w idx (thumbnail_file char_isalnum idx name) (content r)
                 = Returns tt → False) →
            ∃ p' evs0, (Ok p, st1) = (Ok p', after evs0 st) ∧
              item_left char_isalnum w idx p p' ∧
              item_saved char_isalnum w evs0 idx p p').
  { intros evs st1 -> Hno. exists p, evs. split; [done|]. split; [apply item_left_refl|].
    intros t r name Ht Hne Hna Hr Hst Hn Hw. by destruct (Hno t r name). }
  unfold download_item, try_except.
  assert (Hd : ∃ v, dict_get p "thumbnail" PNone = v ∧
                    (p !! "thumbnail" = Some v ∨ (p !! "thumbnail" = None ∧ v = PNone))).
  { unfold dict_get. destruct (p !! "thumbnail") as [v|]; eexists; eauto. }
  destruct Hd as (v & -> & Hth).
  destruct (truthy v && negb (eq_str v NA)) eqn:Huse.
  2: { apply (Hkeep []); [by rewrite after_nil|].
       intros t r name Ht Hne Hna. destruct Hth as [Hth|[Hth _]]; [|congruence].
       rewrite Hth in Ht. injection Ht as ->.
       cbn in Huse. unfold PyStr.eqb in Huse.
       rewrite !bool_decide_eq_false_2 in Huse by done. done. }
  destruct Hth as [Hth|[_ ->]]; [|done].
  unfold http_get, file_write, bind, lift, emit, ret.
  destruct v as [| | |u| |]; cbn [as_str];
    try (eapply (Hkeep [_]); [reflexivity|]; intros t r name Ht; congruence).
  destruct (requests_get w idx (normalize_url u)) as [r0|e] eqn:Hget.
  2: { eapply (Hkeep [_]); [reflexivity|]. intros t r name Ht _ _ Hr.
       rewrite Hth in Ht. injection Ht as <-. congruence. }
  destruct (status_code r0 =? 200)%Z eqn:Hst.
  2: { eapply (Hkeep [_]); [reflexivity|]. apply Z.eqb_neq in Hst.
       intros t r name Ht _ _ Hr Hs. rewrite Hth in Ht. injection Ht as <-.
       congruence. }
  apply Z.eqb_eq in Hst.
  assert (Hnm : ∃ g, getitem p "name" = g ∧
                  match g with
                  | Returns nm => p !! "name" = Some nm
                  | Raises _ => p !! "name" = None
                  end).
  { unfold getitem. destruct (p !! "name"); eexists; (split; [reflexivity|done]). }
  destruct Hnm as (g & -> & Hname). destruct g as [nm|e]; cbn [fst snd].
  2: { eapply (Hkeep [HttpGet idx (normalize_url u) (status_code r0); _]);
         [unfold log, after; cbn; rewrite <- app_assoc; reflexivity|].
       intros t r name _ _ _ _ _ Hn. congruence. }
  destruct (safe_name char_isalnum nm) as [safe|e] eqn:Hsafe.
  2: { eapply (Hkeep [HttpGet idx (normalize_url u) (status_code r0); _]);
         [unfold log, after; cbn; rewrite <- app_assoc; reflexivity|].
       intros t r name _ _ _ _ _ Hn. rewrite Hname in Hn. injection Hn as ->.
       by rewrite safe_name_str in Hsafe. }
  destruct (write_file w idx (thumbnail_path idx safe) (content r0)) as [[]|e] eqn:Hw.
  2: { eapply (Hkeep [HttpGet idx (normalize_url u) (status_code r0); _]);
         [unfold log, after; cbn; rewrite <- app_assoc; reflexivity|].
       intros t r name Ht _ _ Hr _ Hn. rewrite Hth in Ht. injection Ht as <-.
       rewrite Hname in Hn. injection Hn as ->. rewrite safe_name_str in Hsafe.
       injection Hsafe as <-. unfold thumbnail_file. congruence. }
  assert (Hwant : u ≠ [] ∧ u ≠ NA).
  { cbn in Huse. unfold PyStr.eqb in Huse. apply andb_true_iff in Huse as [H1 H2].
    apply negb_true_iff in H1, H2.
    apply bool_decide_eq_false in H1, H2. done. }
  exists (<["thumbnail_local" := PStr (thumbnail_path idx safe)]> p),
         [HttpGet idx (normalize_url u) (status_code r0);
          FileWrite idx (thumbnail_path idx safe) (content r0);
          Progress (MsgImageDone idx n)].
  split; [unfold log, after; cbn; by rewrite <- !app_assoc|]. split.
  - split; [intros ?; congruence|]. split; [intros ?; congruence|].
    split.
    { intros t Ht Hor. rewrite Hth in Ht. injection Ht as <-.
      destruct Hwant. by destruct Hor. }
    split.
    { intros t e Ht Hr. rewrite Hth in Ht. injection Ht as <-. congruence. }
    split.
    { intros t r Ht Hr Hs. rewrite Hth in Ht. injection Ht as <-. congruence. }
    intros t r name e Ht Hr Hn Hwe. rewrite Hth in Ht. injection Ht as <-.
    rewrite Hname in Hn. injection Hn as ->. rewrite safe_name_str in Hsafe.
    injection Hsafe as <-. unfold thumbnail_file in Hwe. congruence.
  - intros t r name Ht _ _ Hr _ Hn _. rewrite Hth in Ht. injection Ht as <-.
    rewrite Hname in Hn. injection Hn as ->. rewrite safe_name_str in Hsafe.
    injection Hsafe as <-. rewrite Hget in Hr. injection Hr as <-.
    split; [done|]. right. by left.
Qed.

(** The loop, by what the network and the disk answer. *)
Lemma download_loop_cases n products : ∀ idx st,
  ∃ products' st' evs,
    download_loop char_isalnum w n idx products st = (Ok products', st') ∧
    trace st' = trace st ++ evs ∧
    ∀ i p, products !! i = Some p →
      ∃ p', products' !! i = Some p' ∧
        item_left char_isalnum w (idx + i) p p' ∧
        (running_at w (clock st + i) = true →
         item_saved char_isalnum w evs (idx + i) p p').
Proof.
  induction products as [|p rest IH]; intros idx st.
  - exists [], st, []. split; [done|]. split; [by rewrite app_nil_r|]. intros i p Hi. done.
  - cbn [download_loop]. rewrite bind_is_running.
    destruct (running_at w (clock st)) eqn:Hrun; cbn [negb].
    + unfold bind.
      destruct (download_item_cases n idx p (tick w st)) as (p' & evs1 & -> & Hl1 & Hs1).
      destruct (IH (S idx) (after evs1 (tick w st)))
        as (rest' & st' & evs2 & -> & Htr & Hitems).
      exists (p' :: rest'), st', ([FlagRead true] ++ evs1 ++ evs2).
      split; [done|].
      split; [rewrite Htr; simpl; by rewrite Hrun, <- !app_assoc|].
      intros [|i] q Hq.
      * injection Hq as <-. exists p'. rewrite Nat.add_0_r. split; [done|].
        split; [done|]. intros _. eapply item_saved_mono; [|done].
        intros ev Hin. apply elem_of_app. right. apply elem_of_app. by left.
      * destruct (Hitems i q Hq) as (q' & Hq' & Hl & Hs).
        exists q'. split; [done|].
        replace (idx + S i) with (S idx + i) by lia. split; [done|].
        intros Hr. eapply item_saved_mono; [|apply Hs].
        { intros ev Hin. apply elem_of_app. right. apply elem_of_app. by right. }
        simpl. by replace (S (clock st + i)) with (clock st + S i) by lia.
    + exists (p :: rest), (tick w st), [FlagRead false].
      split; [done|]. split; [simpl; by rewrite Hrun|].
      intros i q Hq. exists q. split; [done|]. split; [apply item_left_refl|].
      intros Hr. apply running_at_mono in Hr. congruence.
Qed.

End DownloadFacts.

(** C6: the batch raises only when the image directory cannot be created,
    before any product is touched.  Otherwise it returns, whatever is
    raised for single products, and for every product reached while the
    flag is set: when its thumbnail is a usable string, the GET for the
    normalized URL is issued; when that GET returns status 200 and the file
    [thumbnails/<index>_<name>.jpg] (the name cut to 50 characters and
    reduced to alphanumerics, spaces and underscores) can be written, the
    bytes returned are written to it and [thumbnail_local] is set to its
    path.  A product without usable thumbnail, whose GET raises or returns
    another status, or whose file cannot be written, is left as it was.
    In every case [thumbnail_local] is set afterwards if and only if the
    GET made for the product returned status 200 and the bytes it returned
    were written to a file, the value set is the path of that file, and the
    other fields are untouched. *)
Theorem download_images_spec char_isalnum w products st :
  Forall (λ p : product, p !! "thumbnail_local" = None) products →
  ∃ r st' evs,
    download_images char_isalnum w products st = (r, st') ∧
    trace st' = trace st ++ evs ∧
    match r with
    | Ok products' =>
        length products' = length products ∧
        ∀ i p, products !! i = Some p →
          ∃ p', products' !! i = Some p' ∧
            item_outcome char_isalnum w evs (S i) p p' ∧
            item_left char_isalnum w (S i) p p' ∧
            (running_at w (clock st + i) = true →
             item_attempted w evs (S i) p ∧ item_saved char_isalnum w evs (S i) p p')
    | Raise e => img_dir_exists w = false ∧ makedirs w = Raises e ∧ evs = []
    | Diverge => False
    end.
Proof.
  intros Hfresh. unfold download_images.
  assert (Hloop : ∃ products' st' evs,
            download_loop char_isalnum w (length products) 1 products st
              = (Ok products', st') ∧
            trace st' = trace st ++ evs ∧
            length products' = length products ∧
            ∀ i p, products !! i = Some p →
              ∃ p', products' !! i = Some p' ∧
                item_outcome char_isalnum w evs (S i) p p' ∧
                item_left char_isalnum w (S i) p p' ∧
                (running_at w (clock st + i) = true →
                 item_attempted w evs (S i) p ∧
                 item_saved char_isalnum w evs (S i) p p')).
  { destruct (download_loop_spec char_isalnum w (length products) products 1 st Hfresh)
      as (products' & st' & evs & Hrun & Htr & Hlen & _ & Hitems).
    destruct (download_loop_cases char_isalnum w (length products) products 1 st)
      as (products2 & st2 & evs2 & Hrun2 & Htr2 & Hitems2).
    rewrite Hrun in Hrun2. injection Hrun2 as <- <-.
    rewrite Htr in Htr2. apply app_inv_head in Htr2 as <-.
    exists products', st', evs. split; [done|]. split; [done|]. split; [done|].
    intros i p Hp.
    destruct (Hitems i p Hp) as (p' & Hp' & Hout & Hatt).
    destruct (Hitems2 i p Hp) as (p2 & Hp2 & Hleft & Hsaved).
    rewrite Hp' in Hp2. injection Hp2 as <-.
    exists p'. split; [done|]. split; [done|]. split; [done|].
    intros Hr. split; [by apply Hatt|by apply Hsaved]. }
  destruct Hloop as (products' & st' & evs & Hrun & Htr & Hlen & Hitems).
  unfold when, bind.
  destruct (img_dir_exists w); cbn [negb].
  - unfold ret. exists (Ok products'), st', evs. rewrite Hrun. done.
  - destruct (makedirs w) as [[]|e]; cbn [lift].
    + exists (Ok products'), st', evs. rewrite Hrun. done.
    + exists (Raise e), st, []. rewrite app_nil_r. done.
Qed.

Lemma download_images_spec_witness :
  ∃ r st' evs,
    download_images ascii_isalnum (flaky_world []) sample_products init_state = (r, st') ∧
    trace st' = trace init_state ++ evs ∧
    match r with
    | Ok products' =>
        length products' = length sample_products ∧
        ∀ i p, sample_products !! i = Some p →
          ∃ p', products' !! i = Some p' ∧
            item_outcome ascii_isalnum (flaky_world []) evs (S i) p p' ∧
            item_left ascii_isalnum (flaky_world []) (S i) p p' ∧
            (running_at (flaky_world []) (clock init_state + i) = true →
             item_attempted (flaky_world []) evs (S i) p ∧
             item_saved ascii_isalnum (flaky_world []) evs (S i) p p')
    | Raise e =>
        img_dir_exists (flaky_world []) = false ∧
        makedirs (flaky_world []) = Raises e ∧ evs = []
    | Diverge => False
    end.
Proof.
  apply download_images_spec.
  repeat (constructor; [vm_compute; reflexivity|]). constructor.
Defined.

(** On the three-anchor page with a failing second GET: the first image is
    saved, the second product stays without local path although the batch
    goes on, the third has no thumbnail to fetch. *)
Example download_flaky_batch :
  local_paths (match fst (download_images ascii_isalnum (flaky_world []) sample_products
                            init_state) with
               | Ok ps => ps
               | _ => []
               end)
  = [Some (PStr (lit "thumbnails/1_A.jpg")); None; None].
Proof. vm_compute. reflexivity. Qed.

(** ** The spreadsheet export *)

Section ExportFacts.
Variable cell_store : pyval → reply pyval.
Variable xw : export_world.

Lemma ws_cell_spec row col v ws ws' :
  ws_cell cell_store row col v ws = Returns ws' →
  ∃ v', cells ws' = <[(row, col) := v']> (cells ws) ∧
    (cells ws !! (row, col) = None → stored_as cell_store v v') ∧
    column_widths ws' = column_widths ws ∧
    row_heights ws' = row_heights ws ∧
    images ws' = images ws.
Proof.
  unfold ws_cell, obind.
  destruct v; try (destruct (cell_store _) as [v'|e] eqn:E; [|done];
                   intros [= <-]; exists v'; by repeat split).
  intros [= <-]. eexists. split; [done|]. split; [|done].
  intros ->. done.
Qed.

(** The header row: [write_headers] fills the cells of row 1 from column
    [col] on and nothing else. *)
Lemma write_headers_spec hs : ∀ col ws ws',
  write_headers cell_store col hs ws = Returns ws' →
  (∀ r c, r ≠ 1 → cells ws' !! (r, c) = cells ws !! (r, c)) ∧
  (∀ c, c < col → cells ws' !! (1, c) = cells ws !! (1, c)) ∧
  (∀ i h, hs !! i = Some h →
     ∃ v, cells ws' !! (1, col + i) = Some v ∧ cell_store (PStr h) = Returns v) ∧
  row_heights ws' = row_heights ws ∧ images ws' = images ws.
Proof.
  induction hs as [|h hs IH]; intros col ws ws'; cbn [write_headers].
  - intros [= <-]. repeat split; done.
  - unfold obind at 1.
    destruct (ws_cell cell_store 1 col (PStr h) ws) as [ws1|e] eqn:E; [|done].
    intros Hrest. apply IH in Hrest as (H1 & H2 & H3 & H4 & H5).
    assert (Hstore : ∃ v1, cell_store (PStr h) = Returns v1 ∧
              cells ws1 = <[(1, col) := v1]> (cells ws) ∧
              row_heights ws1 = row_heights ws ∧ images ws1 = images ws).
    { unfold ws_cell, obind in E. destruct (cell_store (PStr h)) as [v1|]; [|done].
      injection E as <-. eauto. }
    destruct Hstore as (v1 & Hv1 & Hc1 & Hr1 & Hi1).
    split; [|split; [|split; [|split]]].
    + intros r c Hr. rewrite H1, Hc1 by done. apply lookup_insert_ne. congruence.
    + intros c Hc. rewrite H2, Hc1 by lia. apply lookup_insert_ne.
      intros [= ->]. lia.
    + intros [|i] h' Hi.
      * injection Hi as <-. exists v1. rewrite Nat.add_0_r, H2, Hc1 by lia.
        by rewrite lookup_insert_eq.
      * destruct (H3 i h' Hi) as (v & Hv & Hs). exists v.
        by replace (col + S i) with (S col + i) by lia.
    + congruence.
    + congruence.
Qed.

Lemma embed_image_spec idx row local_path ex ex' :
  embed_image xw idx row local_path ex = Returns ex' →
  cells (sheet ex') = cells (sheet ex) ∧
  (∀ r, r ≠ row → row_heights (sheet ex') !! r = row_heights (sheet ex) !! r) ∧
  ∃ new, images (sheet ex') = images (sheet ex) ++ new ∧
    if truthy local_path &&
       match path_exists xw idx local_path with
       | Returns true =>
           match prepare_image xw idx local_path with
           | Returns _ => true
           | Raises _ => false
           end
       | _ => false
       end
    then row_heights (sheet ex') !! row = Some 75%Z ∧
         new = [{| img_anchor := ("B", row); img_width := 100; img_height := 100 |}]
    else row_heights (sheet ex') !! row = Some 30%Z ∧ new = [].
Proof.
  unfold embed_image, obind.
  destruct (truthy local_path); cbn [andb].
  - destruct (path_exists xw idx local_path) as [[|]|e]; [| |done].
    + destruct (prepare_image xw idx local_path) as [tmp|e]; intros [= <-]; cbn.
      * split; [done|]. split; [intros r Hr; by rewrite lookup_insert_ne|].
        eexists. split; [done|]. by rewrite lookup_insert_eq.
      * split; [done|]. split; [intros r Hr; by rewrite lookup_insert_ne|].
        exists []. rewrite app_nil_r. split; [done|]. by rewrite lookup_insert_eq.
    + intros [= <-]; cbn.
      split; [done|]. split; [intros r Hr; by rewrite lookup_insert_ne|].
      exists []. rewrite app_nil_r. split; [done|]. by rewrite lookup_insert_eq.
  - intros [= <-]; cbn.
    split; [done|]. split; [intros r Hr; by rewrite lookup_insert_ne|].
    exists []. rewrite app_nil_r. split; [done|]. by rewrite lookup_insert_eq.
Qed.

Lemma images_at_app ws ws' new row :
  images ws' = images ws ++ new →
  images_at ws' row = images_at ws row ++ filter (λ img, snd (img_anchor img) = row) new.
Proof. unfold images_at. intros ->. apply filter_app. Qed.

(** One data row, written into a row that holds no cell yet. *)
Lemma export_row_spec idx p ex ex' :
  export_row cell_store xw idx p ex = Returns ex' →
  (∀ c, cells (sheet ex) !! (idx + 1, c) = None) →
  (∀ r c, r ≠ idx + 1 → cells (sheet ex') !! (r, c) = cells (sheet ex) !! (r, c)) ∧
  row_holds cell_store (sheet ex') (idx + 1) idx p ∧
  (∀ r, r ≠ idx + 1 → row_heights (sheet ex') !! r = row_heights (sheet ex) !! r) ∧
  ∃ new, images (sheet ex') = images (sheet ex) ++ new ∧
    if image_resolvable xw idx p
    then row_heights (sheet ex') !! (idx + 1) = Some 75%Z ∧
         new = [{| img_anchor := ("B", idx + 1); img_width := 100; img_height := 100 |}]
    else row_heights (sheet ex') !! (idx + 1) = Some 30%Z ∧ new = [].
Proof.
  unfold export_row. intros H Hfresh.
  cbv zeta in H.
  destruct (ws_cell cell_store (idx + 1) 1 _ (sheet ex)) as [w1|] eqn:E1; [|done].
  cbn [obind] in H.
  destruct (ws_cell cell_store (idx + 1) 3 _ w1) as [w3|] eqn:E3; [|done].
  cbn [obind] in H.
  destruct (ws_cell cell_store (idx + 1) 4 _ w3) as [w4|] eqn:E4; [|done].
  cbn [obind] in H.
  destruct (ws_cell cell_store (idx + 1) 5 _ w4) as [w5|] eqn:E5; [|done].
  cbn [obind] in H.
  destruct (ws_cell cell_store (idx + 1) 6 _ w5) as [w6|] eqn:E6; [|done].
  cbn [obind] in H.
  apply ws_cell_spec in E1 as (x & C1 & S1 & _ & R1 & I1).
  apply ws_cell_spec in E3 as (x0 & C3 & S3 & _ & R3 & I3).
  apply ws_cell_spec in E4 as (x1 & C4 & S4 & _ & R4 & I4).
  apply ws_cell_spec in E5 as (x2 & C5 & S5 & _ & R5 & I5).
  apply ws_cell_spec in E6 as (x3 & C6 & S6 & _ & R6 & I6).
  apply embed_image_spec in H as (Hc & Hh & new & Hi & Himg). cbn [sheet] in *.
  assert (Hcells : cells (sheet ex') =
            <[(idx + 1, 6) := x3]> (<[(idx + 1, 5) := x2]> (<[(idx + 1, 4) := x1]>
              (<[(idx + 1, 3) := x0]> (<[(idx + 1, 1) := x]> (cells (sheet ex))))))).
  { congruence. }
  split; [|split; [|split]].
  - intros r c Hr. rewrite Hcells. rewrite !lookup_insert_ne by congruence. done.
  - unfold row_holds, cell_holds. rewrite Hcells.
    repeat split.
    + exists x. split; [by simplify_map_eq|]. auto.
    + exists x0. split; [by simplify_map_eq|]. apply S3. rewrite C1. by simplify_map_eq.
    + exists x1. split; [by simplify_map_eq|]. apply S4. rewrite C3, C1.
      by simplify_map_eq.
    + exists x2. split; [by simplify_map_eq|]. apply S5. rewrite C4, C3, C1.
      by simplify_map_eq.
    + exists x3. split; [by simplify_map_eq|]. apply S6. rewrite C5, C4, C3, C1.
      by simplify_map_eq.
    + by simplify_map_eq.
  - intros r Hr. rewrite Hh by done. congruence.
  - exists new. split; [congruence|]. exact Himg.
Qed.

Lemma row_holds_same ws ws' row idx p :
  (∀ c, cells ws' !! (row, c) = cells ws !! (row, c)) →
  row_holds cell_store ws row idx p → row_holds cell_store ws' row idx p.
Proof. unfold row_holds, cell_holds. intros H. by rewrite !H. Qed.

Lemma row_image_same ws ws' row idx p :
  row_heights ws' !! row = row_heights ws !! row →
  images_at ws' row = images_at ws row →
  row_image xw ws row idx p → row_image xw ws' row idx p.
Proof. unfold row_image. intros -> ->. done. Qed.

(** The data rows: the product at position [i] of the list goes to row
    [idx + i + 1]; rows up to [idx] are left as they were and rows beyond
    the last product stay empty. *)
Lemma export_rows_spec products : ∀ idx ex ex',
  export_rows cell_store xw idx products ex = Returns ex' →
  (∀ r c, idx < r → cells (sheet ex) !! (r, c) = None) →
  (∀ r, idx < r → images_at (sheet ex) r = []) →
  (∀ r c, r ≤ idx → cells (sheet ex') !! (r, c) = cells (sheet ex) !! (r, c)) ∧
  (∀ r c, idx + length products < r → cells (sheet ex') !! (r, c) = None) ∧
  (∀ r, r ≤ idx → row_heights (sheet ex') !! r = row_heights (sheet ex) !! r) ∧
  (∀ r, r ≤ idx → images_at (sheet ex') r = images_at (sheet ex) r) ∧
  (∀ i p, products !! i = Some p →
     row_holds cell_store (sheet ex') (idx + i + 1) (idx + i) p ∧
     row_image xw (sheet ex') (idx + i + 1) (idx + i) p).
Proof.
  induction products as [|p rest IH]; intros idx ex ex'; cbn [export_rows].
  - intros [= <-] Hc Hi. repeat split; try done.
    intros r c Hr. apply Hc. simpl in Hr. lia.
  - unfold obind at 1.
    destruct (export_row cell_store xw idx p ex) as [ex1|e] eqn:E; [|done].
    intros Hrest Hc Hi.
    apply export_row_spec in E as (Hc1 & Hrow & Hh1 & new & Hi1 & Himg);
      [|intros c; apply Hc; lia].
    assert (Hnew : ∀ r, r ≠ idx + 1 →
              filter (λ img : sheet_image, snd (img_anchor img) = r) new = []).
    { intros r Hr. destruct (image_resolvable xw idx p);
        destruct Himg as [_ ->]; [|done].
      rewrite filter_cons. cbn. by case_decide. }
    apply IH in Hrest as (H1 & H2 & H3 & H4 & H5).
    2: { intros r c Hr. rewrite Hc1 by lia. apply Hc. lia. }
    2: { intros r Hr. rewrite (images_at_app _ _ _ _ Hi1), Hnew by lia.
         rewrite Hi by lia. done. }
    split; [|split; [|split; [|split]]].
    + intros r c Hr. rewrite H1 by lia. apply Hc1. lia.
    + intros r c Hr. apply H2. simpl in Hr. lia.
    + intros r Hr. rewrite H3 by lia. apply Hh1. lia.
    + intros r Hr. rewrite H4 by lia.
      rewrite (images_at_app _ _ _ _ Hi1), Hnew by lia. by rewrite app_nil_r.
    + intros [|i] q Hq.
      * injection Hq as <-. rewrite Nat.add_0_r. split.
        { eapply row_holds_same; [|done]. intros c. apply H1. lia. }
        eapply (row_image_same (sheet ex1)); [apply H3; lia|apply H4; lia|].
        unfold row_image. rewrite (images_at_app _ _ _ _ Hi1), Hi by lia.
        destruct (image_resolvable xw idx p); destruct Himg as [Hh ->];
          (split; [done|]); [|done].
        rewrite filter_cons. cbn. by case_decide.
      * replace (idx + S i) with (S idx + i) by lia. by apply H5.
Qed.

End ExportFacts.

(** C7 fails as stated: a product whose local path exists on disk but holds
    no decodable image gets a row of height 30 without image. *)
Lemma existing_path_without_image :
  ∃ ws,
    saved_sheet (export_to_excel openpyxl_store corrupt_image_disk two_products [])
      = Some ws ∧
    path_exists corrupt_image_disk 1 (PStr (lit "thumbnails/1_A.jpg")) = Returns true ∧
    row_heights ws !! 2 = Some 30%Z ∧ images_at ws 2 = [].
Proof. eexists. split; [vm_compute; reflexivity|]. split; vm_compute; done. Qed.

(** C7, amended: a saved workbook has the six header cells in row 1, cells in
    rows 1 to [1 + n] and in no other row for [n] products, and the product
    at position [i] in row [i + 2] with its index, name, price, thumbnail
    URL and local path; the row of a product whose local image exists and
    can be decoded and embedded has height 75 and one image of 100 by 100
    anchored in column B, the row of any other product has height 30 and no
    image.  For two products, the first with a valid local image and the
    second with a missing local path, the sheet has three rows, an image
    and height 75 in row 2, height 30 and no image in row 3. *)
Theorem export_to_excel_spec cell_store xw products old_temp ws log removed :
  export_to_excel cell_store xw products old_temp = Saved ws log removed →
  (∀ c h, headers !! c = Some h →
     ∃ v, cells ws !! (1, S c) = Some v ∧ cell_store (PStr h) = Returns v) ∧
  (∀ r, has_row ws r ↔ 1 ≤ r ≤ S (length products)) ∧
  (∀ i p, products !! i = Some p →
     row_holds cell_store ws (i + 2) (S i) p ∧ row_image xw ws (i + 2) (S i) p).
Proof.
  unfold export_to_excel. case_bool_decide; [done|]. case_bool_decide; [done|].
  destruct (export_workbook cell_store xw products old_temp) as [[[ws' log'] rm]|e] eqn:E;
    [|done].
  intros [= -> -> ->]. unfold export_workbook, obind in E.
  destruct (new_sheet cell_store) as [ws0|] eqn:Hnew; [|done].
  destruct (export_rows _ _ _ _ _) as [ex|] eqn:Hrows; [|done].
  destruct (workbook_save xw); [|done]. injection E as <- _ _.
  unfold new_sheet, obind in Hnew.
  destruct (write_headers cell_store 1 headers empty_worksheet) as [wsh|] eqn:Hh; [|done].
  injection Hnew as <-.
  apply write_headers_spec in Hh as (Hh1 & Hh2 & Hh3 & Hh4 & Hh5).
  apply export_rows_spec in Hrows as (H1 & H2 & H3 & H4 & H5); cbn [sheet] in *.
  2: { intros r c Hr. cbn. rewrite Hh1 by lia. done. }
  2: { intros r Hr. unfold images_at. cbn. by rewrite Hh5. }
  assert (Hhead : ∀ c h, headers !! c = Some h →
            ∃ v, cells (sheet ex) !! (1, S c) = Some v ∧ cell_store (PStr h) = Returns v).
  { intros c h Hc. destruct (Hh3 c h Hc) as (v & Hv & Hs). exists v.
    rewrite H1 by lia. cbn. by split. }
  split; [done|]. split.
  - intros r. split.
    + intros [c [v Hv]].
      destruct (decide (1 ≤ r ≤ S (length products))) as [|Hout]; [done|].
      destruct (decide (r = 0)) as [->|].
      * rewrite H1 in Hv by lia. cbn in Hv. rewrite Hh1 in Hv by lia. done.
      * rewrite H2 in Hv by lia. done.
    + intros Hr. destruct (decide (r = 1)) as [->|].
      * destruct (Hhead 0 _ eq_refl) as (v & Hv & _). exists 1. eauto.
      * destruct (lookup_lt_is_Some_2 products (r - 2)) as [p Hp]; [lia|].
        destruct (H5 _ _ Hp) as [((v & Hv & _) & _) _].
        exists 1. replace (1 + (r - 2) + 1) with r in Hv by lia. eauto.
  - intros i p Hp. destruct (H5 _ _ Hp) as [Hrow Himg].
    by replace (1 + i + 1) with (i + 2) in * by lia.
Qed.

Lemma export_to_excel_spec_witness :
  ∃ ws log removed,
    export_to_excel openpyxl_store one_image_disk two_products [] = Saved ws log removed ∧
    (∀ r, has_row ws r ↔ 1 ≤ r ≤ 3) ∧
    (row_heights ws !! 2 = Some 75%Z ∧
     images_at ws 2 = [{| img_anchor := ("B", 2); img_width := 100; img_height := 100 |}]) ∧
    (row_heights ws !! 3 = Some 30%Z ∧ images_at ws 3 = []).
Proof.
  eexists _, _, _. split; [vm_compute; reflexivity|].
  edestruct (export_to_excel_spec openpyxl_store one_image_disk two_products [])
    as (_ & Hrows & Hdata); [vm_compute; reflexivity|].
  split; [exact Hrows|].
  split.
  - exact (proj2 (Hdata 0 _ eq_refl)).
  - exact (proj2 (Hdata 1 _ eq_refl)).
Defined.

(** ** The signals of a run *)

Lemma silent_snoc tr ev :
  silent_after_cancel tr →
  (FlagRead false ∈ tr → is_report ev = false) →
  silent_after_cancel (tr ++ [ev]).
Proof.
  intros Hs Hev i j ev' Hi Hij Hj.
  assert (Hlt : j < length (tr ++ [ev])) by (eapply lookup_lt_Some; done).
  rewrite length_app in Hlt. simpl in Hlt.
  rewrite lookup_app_l in Hi by lia.
  destruct (decide (j < length tr)) as [Hjl|Hjl].
  - rewrite lookup_app_l in Hj by lia. by eapply Hs.
  - rewrite lookup_app_r in Hj by lia.
    replace (j - length tr) with 0 in Hj by lia. injection Hj as <-.
    apply Hev. by eapply list_elem_of_lookup_2.
Qed.

Lemma guarded_snoc tr ev :
  errors_guarded tr →
  (∀ m, ev = Error m → ∃ tr0, tr = tr0 ++ [FlagRead true]) →
  errors_guarded (tr ++ [ev]).
Proof.
  intros Hg Hev j m Hj.
  assert (Hlt : j < length (tr ++ [ev])) by (eapply lookup_lt_Some; done).
  rewrite length_app in Hlt. simpl in Hlt.
  destruct (decide (j < length tr)) as [Hjl|Hjl].
  - rewrite lookup_app_l in Hj by lia. destruct (Hg j m Hj) as (i & -> & Hi).
    exists i. split; [done|]. rewrite lookup_app_l by lia. done.
  - rewrite lookup_app_r in Hj by lia.
    replace (j - length tr) with 0 in Hj by lia. injection Hj as ->.
    destruct (Hev m eq_refl) as [tr0 ->]. rewrite length_app in *. simpl in *.
    exists (length tr0). split; [lia|].
    rewrite <- app_assoc. rewrite lookup_app_r by lia.
    by rewrite Nat.sub_diag.
Qed.

Section RunFacts.
Variable json_loads : pystr → option pyval.
Variable char_isalnum : N → bool.
Variable w : world.
Variable url : pystr.

Lemma running_at_step c : running_at w c = false → running_at w (S c) = false.
Proof.
  unfold running_at. destruct (stop_after w); [|done].
  rewrite !Nat.ltb_ge. lia.
Qed.

(** An event that is neither a report nor [Finished] keeps the invariant. *)
Lemma inv_log ev st :
  is_report ev = false → ev ≠ Finished → (∀ b, ev ≠ FlagRead b) →
  crawl_inv w st → crawl_inv w (log ev st).
Proof.
  intros Hr Hf Hb (H1 & H2 & H3 & H4). unfold crawl_inv. cbn [log trace clock].
  split; [by apply silent_snoc|]. split.
  { apply guarded_snoc; [done|]. intros m ->. done. }
  split.
  - intros Hin. apply elem_of_app in Hin as [Hin|Hin]; [auto|].
    apply list_elem_of_singleton in Hin. by destruct (Hb false).
  - intros Hin. apply elem_of_app in Hin as [Hin|Hin]; [auto|].
    apply list_elem_of_singleton in Hin. done.
Qed.

Lemma inv_tick st : crawl_inv w st → crawl_inv w (tick w st).
Proof.
  intros (H1 & H2 & H3 & H4). unfold crawl_inv. cbn [tick trace clock].
  split; [by apply silent_snoc|]. split.
  { apply guarded_snoc; [done|]. intros m Hm. done. }
  split.
  - intros Hin. apply running_at_step.
    apply elem_of_app in Hin as [Hin|Hin]; [auto|].
    apply list_elem_of_singleton in Hin. by injection Hin as <-.
  - intros Hin. apply elem_of_app in Hin as [Hin|Hin]; [auto|].
    apply list_elem_of_singleton in Hin. done.
Qed.

(** After a read that found the flag set, a report keeps the invariant. *)
Lemma inv_report ev st :
  is_report ev = true → crawl_inv w st → running_at w (clock st) = true →
  crawl_inv w (log ev (tick w st)).
Proof.
  intros Hr (H1 & H2 & H3 & H4) Hrun.
  assert (Hno : FlagRead false ∉ trace st).
  { intros Hin. rewrite H3 in Hrun by done. done. }
  unfold crawl_inv. cbn [log tick trace clock]. rewrite Hrun.
  split; [|split; [|split]].
  - apply silent_snoc; [by apply silent_snoc|].
    intros Hin. apply elem_of_app in Hin as [Hin|Hin]; [done|].
    apply list_elem_of_singleton in Hin. done.
  - apply guarded_snoc; [|eauto]. apply guarded_snoc; [done|]. intros m Hm. done.
  - intros Hin. apply elem_of_app in Hin as [Hin|Hin].
    + apply elem_of_app in Hin as [Hin|Hin]; [done|].
      apply list_elem_of_singleton in Hin. done.
    + apply list_elem_of_singleton in Hin. by rewrite <- Hin in Hr.
  - intros Hin. apply elem_of_app in Hin as [Hin|Hin].
    + apply elem_of_app in Hin as [Hin|Hin]; [done|].
      apply list_elem_of_singleton in Hin. done.
    + apply list_elem_of_singleton in Hin. by rewrite <- Hin in Hr.
Qed.

Lemma safe_ret {A} (a : A) : safe w (ret a).
Proof. intros st H. done. Qed.

Lemma safe_lift {A} (r : reply A) : safe w (lift r).
Proof. intros st H. by destruct r. Qed.

Lemma safe_bind {A B} (m : M A) (k : A → M B) :
  safe w m → (∀ a, safe w (k a)) → safe w (bind m k).
Proof.
  intros Hm Hk st H. unfold bind. destruct (Hm st H) as [Hi Hd].
  destruct (m st) as [[a|e|] st']; cbn [fst snd] in *; [by apply Hk|done|done].
Qed.

Lemma safe_emit ev :
  is_report ev = false → ev ≠ Finished → (∀ b, ev ≠ FlagRead b) → safe w (emit ev).
Proof. intros Hr Hf Hb st H. split; [by apply inv_log|done]. Qed.

Lemma safe_is_running : safe w (is_running w).
Proof. intros st H. split; [by apply inv_tick|done]. Qed.

Lemma safe_try_except {A} (m : M A) (h : exn → M A) :
  safe w m → (∀ e, safe w (h e)) → safe w (try_except m h).
Proof.
  intros Hm Hh st H. unfold try_except. destruct (Hm st H) as [Hi Hd].
  destruct (m st) as [[a|e|] st']; cbn [fst snd] in *; [done|by apply Hh|done].
Qed.

Lemma safe_try_finally {A} (m : M A) (fin : M unit) :
  safe w m → safe w fin → safe w (try_finally m fin).
Proof.
  intros Hm Hf st H. unfold try_finally. destruct (Hm st H) as [Hi Hd].
  destruct (m st) as [[a|e|] st']; cbn [fst snd] in *; [| |done];
    destruct (Hf st' Hi) as [Hi' Hd'];
    destruct (fin st') as [[[]|e'|] st'']; cbn [fst snd] in *; done.
Qed.

Lemma safe_when b (m : M unit) : safe w m → safe w (when b m).
Proof. intros Hm. destruct b; [done|apply safe_ret]. Qed.

Lemma safe_emit_error_if_running m : safe w (emit_error_if_running w m).
Proof.
  intros st H. unfold emit_error_if_running. rewrite bind_is_running.
  destruct (running_at w (clock st)) eqn:Hrun; cbn [when].
  - split; [by apply inv_report|done].
  - split; [by apply inv_tick|done].
Qed.

Lemma safe_report_result products :
  safe w (let* r := is_running w in
          when r (set_products products ;;; emit (Result products))).
Proof.
  intros st H. rewrite bind_is_running.
  destruct (running_at w (clock st)) eqn:Hrun; cbn [when].
  - split; [|done]. unfold bind, set_products, emit. cbn [fst snd].
    pose proof (inv_report (Result products) st eq_refl H Hrun) as (H1 & H2 & H3 & H4).
    done.
  - split; [by apply inv_tick|done].
Qed.

Lemma safe_close_browser : safe w (close_browser w).
Proof.
  unfold close_browser. apply safe_bind; [by apply safe_emit|].
  intros _. apply safe_lift.
Qed.

Lemma safe_scroll_loop fuel : ∀ s,
  max_scrolls - scroll_count s < fuel → safe w (scroll_loop w fuel s).
Proof.
  induction fuel as [|fuel IH]; intros s Hf; [lia|].
  cbn [scroll_loop].
  destruct (scroll_count s <? max_scrolls) eqn:Hlt; cbn [negb]; [|apply safe_ret].
  apply Nat.ltb_lt in Hlt.
  apply safe_bind; [apply safe_is_running|]. intros r.
  destruct r; cbn [negb]; [|apply safe_ret].
  apply safe_bind; [by apply safe_emit|]. intros _.
  apply safe_bind; [apply safe_lift|]. intros h.
  apply safe_bind; [by apply safe_emit|]. intros _.
  destruct (_ >=? _)%Z; [destruct (_ =? _)%Z|];
    [apply safe_ret|apply IH; cbn [scroll_count]; lia..].
Qed.

Lemma safe_scroll_gradually fuel :
  max_scrolls < fuel → safe w (scroll_gradually w fuel).
Proof.
  intros Hf. unfold scroll_gradually.
  apply safe_bind; [apply safe_lift|]. intros h.
  apply safe_scroll_loop. cbn [scroll_count]. lia.
Qed.

Lemma safe_extract_item n idx c products :
  safe w (extract_item json_loads w n idx c products).
Proof.
  unfold extract_item.
  apply safe_try_except.
  - apply safe_bind; [apply safe_lift|]. intros p.
    apply safe_try_except.
    + apply safe_bind; [apply safe_lift|]. intros name30.
      apply safe_bind; [by apply safe_emit|]. intros _. apply safe_ret.
    + intros e. apply safe_bind; [by apply safe_emit|]. intros _. apply safe_ret.
  - intros e. apply safe_bind; [by apply safe_emit|]. intros _. apply safe_ret.
Qed.

Lemma safe_extract_loop n links : ∀ idx products,
  safe w (extract_loop json_loads w n idx links products).
Proof.
  induction links as [|c links IH]; intros idx products; cbn [extract_loop];
    [apply safe_ret|].
  apply safe_bind; [apply safe_is_running|]. intros r.
  destruct r; cbn [negb]; [|apply safe_ret].
  apply safe_bind; [apply safe_extract_item|]. intros ps. apply IH.
Qed.

Lemma safe_extract_products : safe w (extract_products json_loads w).
Proof.
  unfold extract_products.
  apply safe_bind; [apply safe_is_running|]. intros r.
  destruct r; cbn [negb]; [|apply safe_ret].
  apply safe_bind; [apply safe_lift|]. intros links.
  apply safe_bind; [by apply safe_emit|]. intros _. apply safe_extract_loop.
Qed.

Lemma safe_download_item n idx p : safe w (download_item char_isalnum w n idx p).
Proof.
  unfold download_item. apply safe_try_except.
  - destruct (_ && _); [|apply safe_ret].
    apply safe_bind; [apply safe_lift|]. intros u.
    apply safe_bind.
    { unfold http_get. apply safe_bind; [apply safe_lift|]. intros r.
      apply safe_bind; [by apply safe_emit|]. intros _. apply safe_ret. }
    intros r. destruct (_ =? _)%Z; [|apply safe_ret].
    apply safe_bind; [apply safe_lift|]. intros name.
    apply safe_bind; [apply safe_lift|]. intros safe_nm.
    apply safe_bind.
    { unfold file_write. apply safe_bind; [apply safe_lift|]. intros _.
      by apply safe_emit. }
    intros _. apply safe_bind; [by apply safe_emit|]. intros _. apply safe_ret.
  - intros e. apply safe_bind; [by apply safe_emit|]. intros _. apply safe_ret.
Qed.

Lemma safe_download_loop n products : ∀ idx,
  safe w (download_loop char_isalnum w n idx products).
Proof.
  induction products as [|p rest IH]; intros idx; cbn [download_loop];
    [apply safe_ret|].
  apply safe_bind; [apply safe_is_running|]. intros r.
  destruct r; cbn [negb]; [|apply safe_ret].
  apply safe_bind; [apply safe_download_item|]. intros p'.
  apply safe_bind; [apply IH|]. intros rest'. apply safe_ret.
Qed.

Lemma safe_download_if_running products :
  safe w (download_if_running char_isalnum w products).
Proof.
  unfold download_if_running. destruct (negb _); [|apply safe_ret].
  apply safe_bind; [apply safe_is_running|]. intros r.
  destruct r; [|apply safe_ret].
  unfold download_images.
  apply safe_bind; [apply safe_when, safe_lift|]. intros _.
  apply safe_download_loop.
Qed.

Lemma safe_crawl_page fuel :
  max_scrolls < fuel → safe w (crawl_page json_loads char_isalnum w url fuel).
Proof.
  intros Hf. unfold crawl_page.
  repeat first
    [ apply safe_report_result
    | apply safe_close_browser
    | apply safe_ret
    | apply safe_lift
    | apply safe_is_running
    | by apply safe_emit
    | by apply safe_scroll_gradually
    | apply safe_extract_products
    | apply safe_download_if_running
    | apply safe_bind; [|intros ?]
    | match goal with |- safe _ (if negb ?r then _ else _) => destruct r; cbn [negb] end ].
Qed.

Lemma safe_crawl fuel :
  max_scrolls < fuel → safe w (crawl json_loads char_isalnum w url fuel).
Proof.
  intros Hf. unfold crawl.
  apply safe_bind; [apply safe_is_running|]. intros r.
  destruct r; cbn [negb]; [|apply safe_ret].
  apply safe_bind; [by apply safe_emit|]. intros _.
  apply safe_bind; [apply safe_lift|]. intros _.
  apply safe_bind; [apply safe_lift|]. intros _.
  apply safe_bind; [apply safe_lift|]. intros _.
  apply safe_try_finally; [|apply safe_close_browser].
  apply safe_try_except; [by apply safe_crawl_page|].
  intros e. apply safe_emit_error_if_running.
Qed.

(** [run]: the crawl with its handler keeps the invariant and returns;
    then [finished] is appended. *)
Lemma run_spec fuel st :
  max_scrolls < fuel → crawl_inv w st →
  ∃ st1, crawl_inv w st1 ∧
    run json_loads char_isalnum w url fuel st = (Ok tt, log Finished st1).
Proof.
  intros Hf Hinv. unfold run, try_finally.
  assert (Hs : safe w (try_except (crawl json_loads char_isalnum w url fuel)
                         (λ e, emit_error_if_running w (MsgCrawlError e)))).
  { apply safe_try_except; [by apply safe_crawl|].
    intros e. apply safe_emit_error_if_running. }
  destruct (Hs st Hinv) as [Hi Hd].
  assert (Hok : ∀ e, fst (try_except (crawl json_loads char_isalnum w url fuel)
                   (λ e, emit_error_if_running w (MsgCrawlError e)) st) ≠ Raise e).
  { intros e. unfold try_except.
    destruct (crawl json_loads char_isalnum w url fuel st) as [[[]|e'|] st']; [done| |done].
    unfold emit_error_if_running. rewrite bind_is_running.
    by destruct (running_at w (clock st')). }
  destruct (try_except _ _ st) as [[[]|e|] st1]; cbn [fst snd] in *.
  - exists st1. done.
  - by destruct (Hok e).
  - done.
Qed.

End RunFacts.

Lemma init_state_inv w : crawl_inv w init_state.
Proof.
  unfold crawl_inv, init_state. cbn.
  split; [intros i j ev Hi; done|]. split; [intros j m Hj; done|].
  split; [intros Hin; by inversion Hin|]. intros Hin. by inversion Hin.
Qed.

(** C8 fails as stated: when [stop()] is called after the extraction of a
    page with three products, the run announced three products but emits no
    [result] (and no [error]), and [self.products] stays empty: the partial
    results are dropped, not reported. *)
Lemma cancelled_run_drops_partial_results :
  totals (trace cancelled_after_extraction) = [3] ∧
  results (trace cancelled_after_extraction) = [] ∧
  errors (trace cancelled_after_extraction) = [] ∧
  self_products cancelled_after_extraction = [].
Proof. vm_compute. done. Qed.

(** C8, amended: a run started with the flag already cleared reads the flag
    once and emits [finished] and nothing else: no product, no download, no
    [result], no [error].  More generally a run always returns normally,
    and once a read of the flag found it cleared it emits neither [error]
    nor [result]: what was gathered before is dropped. *)
Theorem cancelled_run_is_silent json_loads char_isalnum w url fuel :
  (stop_after w = Some 0 →
   run json_loads char_isalnum w url fuel init_state = (Ok tt, cancelled_at_start)) ∧
  (max_scrolls < fuel →
   fst (run json_loads char_isalnum w url fuel init_state) = Ok tt ∧
   silent_after_cancel (trace (snd (run json_loads char_isalnum w url fuel init_state)))).
Proof.
  split.
  - intros Hs. unfold run, try_finally, try_except, crawl.
    rewrite bind_is_running. unfold tick, running_at. rewrite Hs. reflexivity.
  - intros Hf.
    destruct (run_spec json_loads char_isalnum w url fuel init_state Hf (init_state_inv w))
      as (st1 & (H1 & H2 & H3 & H4) & ->).
    split; [done|]. cbn [snd log trace]. by apply silent_snoc.
Qed.

Lemma cancelled_run_is_silent_witness :
  run Json.loads ascii_isalnum (stopped_world 0 (three_cards (lit "12,000")))
    (lit "https://www.11st.co.kr/category") 101 init_state = (Ok tt, cancelled_at_start) ∧
  silent_after_cancel (trace cancelled_after_extraction).
Proof.
  split.
  - apply (cancelled_run_is_silent Json.loads ascii_isalnum
             (stopped_world 0 (three_cards (lit "12,000")))
             (lit "https://www.11st.co.kr/category") 101).
    reflexivity.
  - apply (cancelled_run_is_silent Json.loads ascii_isalnum
             (stopped_world 12 (three_cards (lit "12,000")))
             (lit "https://www.11st.co.kr/category") 101).
    unfold max_scrolls. lia.
Defined.

(** C10: a run always returns normally with [finished] as its last event,
    emitted exactly once; every [error] signal directly follows a read of
    the flag that found it set; and after a read that found the flag
    cleared no [error] signal is emitted, whatever is raised. *)
Theorem run_errors_only_while_running json_loads char_isalnum w url fuel :
  max_scrolls < fuel →
  fst (run json_loads char_isalnum w url fuel init_state) = Ok tt ∧
  finished_last (trace (snd (run json_loads char_isalnum w url fuel init_state))) ∧
  errors_guarded (trace (snd (run json_loads char_isalnum w url fuel init_state))) ∧
  (∀ i j m,
     trace (snd (run json_loads char_isalnum w url fuel init_state)) !! i
       = Some (FlagRead false) →
     i < j →
     trace (snd (run json_loads char_isalnum w url fuel init_state)) !! j
       ≠ Some (Error m)).
Proof.
  intros Hf.
  destruct (run_spec json_loads char_isalnum w url fuel init_state Hf (init_state_inv w))
    as (st1 & (H1 & H2 & H3 & H4) & ->).
  cbn [fst snd log trace].
  split; [done|]. split; [by exists (trace st1)|].
  split; [apply guarded_snoc; [done|]; intros m Hm; done|].
  intros i j m Hi Hij Hj.
  assert (Hs : silent_after_cancel (trace st1 ++ [Finished])) by by apply silent_snoc.
  specialize (Hs i j _ Hi Hij Hj). done.
Qed.

Lemma run_errors_only_while_running_witness :
  errors (trace (snd (run Json.loads ascii_isalnum (unreachable_world None)
                        (lit "https://www.11st.co.kr/category") 101 init_state)))
    = [MsgPageError (PyExn "TimeoutError" (lit "Timeout 60000ms exceeded"))] ∧
  errors (trace (snd (run Json.loads ascii_isalnum (unreachable_world (Some 2))
                        (lit "https://www.11st.co.kr/category") 101 init_state))) = [] ∧
  finished_last (trace (snd (run Json.loads ascii_isalnum (unreachable_world (Some 2))
                               (lit "https://www.11st.co.kr/category") 101 init_state))).
Proof.
  split; [vm_compute; reflexivity|]. split; [vm_compute; reflexivity|].
  apply (run_errors_only_while_running Json.loads ascii_isalnum
           (unreachable_world (Some 2)) (lit "https://www.11st.co.kr/category") 101).
  unfold max_scrolls. lia.
Defined.


(** * Further properties of the code *)

(** ** More on the URL rewriting and the file names *)

Lemma normalize_url_no_slash (url : pystr) :
  PyStr.startswith (lit "/") (normalize_url url) = false.
Proof.
  unfold normalize_url.
  destruct (PyStr.startswith (lit "//") url) eqn:E2; [reflexivity|].
  destruct (PyStr.startswith (lit "/") url) eqn:E1; [reflexivity|exact E1].
Qed.

(** X1: whatever the thumbnail string is, the URL handed to [requests.get]
    does not start with a slash: a protocol-relative or root-relative URL
    never reaches the HTTP client.  Rewriting a URL twice gives what
    rewriting it once gives. *)
Theorem normalize_url_absolute (url : pystr) :
  PyStr.startswith (lit "/") (normalize_url url) = false ∧
  normalize_url (normalize_url url) = normalize_url url.
Proof.
  split; [apply normalize_url_no_slash|].
  unfold normalize_url at 1.
  destruct (PyStr.startswith (lit "//") (normalize_url url)) eqn:E2.
  - apply startswith_slashes in E2. by rewrite normalize_url_no_slash in E2.
  - by rewrite normalize_url_no_slash.
Qed.

(** The decimal digits. *)
Lemma pretty_N_char_digit x : Json.is_digit (N_of_ascii (pretty_N_char x)) = true.
Proof. unfold pretty_N_char. by repeat case_match. Qed.

Lemma pretty_N_go_digits x : ∀ s,
  Forall (λ c, Json.is_digit c = true) (lit s) →
  Forall (λ c, Json.is_digit c = true) (lit (pretty_N_go x s)).
Proof.
  induction (N.lt_wf_0 x) as [x _ IH]; intros s Hs.
  assert (x = 0 ∨ 0 < x)%N as [->|Hx] by lia.
  - by rewrite pretty_N_go_0.
  - rewrite pretty_N_go_step by done. apply IH; [by apply N.div_lt|].
    unfold lit. cbn [list_ascii_of_string map]. constructor; [|exact Hs].
    apply pretty_N_char_digit.
Qed.

(** [str(n)] consists of decimal digits. *)
Lemma of_nat_digits n : Forall (λ c, Json.is_digit c = true) (PyStr.of_nat n).
Proof.
  unfold PyStr.of_nat, pretty, pretty_nat, pretty, pretty_N.
  case_decide.
  - repeat constructor.
  - apply pretty_N_go_digits. constructor.
Qed.

Lemma lit_inj s t : lit s = lit t → s = t.
Proof.
  unfold lit. intros H.
  assert (E : list_ascii_of_string s = list_ascii_of_string t).
  { revert H. generalize (list_ascii_of_string s) (list_ascii_of_string t).
    induction l as [|a l IH]; intros [|b l'] H; try done.
    cbn [map] in H. injection H as Hab Hl.
    f_equal; [|by apply IH].
    rewrite <- (ascii_N_embedding a), <- (ascii_N_embedding b). by rewrite Hab. }
  rewrite <- (string_of_list_ascii_of_string s), <- (string_of_list_ascii_of_string t).
  by rewrite E.
Qed.

Lemma of_nat_inj i j : PyStr.of_nat i = PyStr.of_nat j → i = j.
Proof. unfold PyStr.of_nat. intros H. apply lit_inj in H. by apply (inj pretty). Qed.

(** A run of characters with a property, closed by a character without it,
    is determined by the whole string. *)
Lemma split_at_separator (P : N → Prop) (x : N) : ∀ d1 d2 r1 r2 : pystr,
  Forall P d1 → Forall P d2 → ¬ P x →
  d1 ++ x :: r1 = d2 ++ x :: r2 → d1 = d2 ∧ r1 = r2.
Proof.
  induction d1 as [|a d1 IH]; intros [|b d2] r1 r2 H1 H2 Hx H; cbn in H.
  - by injection H.
  - injection H as -> _. by apply Forall_cons in H2 as [? _].
  - injection H as -> _. by apply Forall_cons in H1 as [? _].
  - injection H as -> H. apply Forall_cons in H1 as [_ H1].
    apply Forall_cons in H2 as [_ H2].
    destruct (IH d2 r1 r2 H1 H2 Hx H) as [-> ->]. done.
Qed.

(** X2: the file name determines the item: two items of a batch are
    written to the same path only if they have the same index and the same
    sanitized name. *)
Theorem thumbnail_path_inj (i j : nat) (s t : pystr) :
  thumbnail_path i s = thumbnail_path j t ↔ i = j ∧ s = t.
Proof.
  split; [|by intros [-> ->]].
  unfold thumbnail_path. intros H.
  apply app_inv_head in H. apply app_inv_head in H.
  change (lit "_" ++ ?r) with (95%N :: r) in H.
  apply (split_at_separator (λ c, Json.is_digit c = true)) in H as [Hi Hs];
    [|apply of_nat_digits..|done].
  split; [by apply of_nat_inj|]. by apply app_inv_tail in Hs.
Qed.

(** ** What the phases emit *)

Section Emits.
Variable w : world.

Lemma emits_ret {A} Q (a : A) : emits_only Q (ret a).
Proof. intros st. exists []. by rewrite app_nil_r. Qed.

Lemma emits_lift {A} Q (r : reply A) : emits_only Q (lift r).
Proof. intros st. exists []. rewrite app_nil_r. by destruct r. Qed.

Lemma emits_emit (Q : event → Prop) ev : Q ev → emits_only Q (emit ev).
Proof. intros H st. exists [ev]. cbn. repeat split; [by constructor|done..]. Qed.

Lemma emits_is_running (Q : event → Prop) :
  (∀ b, Q (FlagRead b)) → emits_only Q (is_running w).
Proof.
  intros H st. exists [FlagRead (running_at w (clock st))]. cbn.
  repeat split; [by constructor|lia|done].
Qed.

Lemma emits_bind {A B} Q (m : M A) (k : A → M B) :
  emits_only Q m → (∀ a, emits_only Q (k a)) → emits_only Q (bind m k).
Proof.
  intros Hm Hk st. unfold bind.
  destruct (Hm st) as (evs1 & Ht1 & HQ1 & Hp1 & Hc1 & Hd1).
  destruct (m st) as [[a|e|] st1]; cbn [fst snd] in *; [|by exists evs1|done].
  destruct (Hk a st1) as (evs2 & Ht2 & HQ2 & Hp2 & Hc2 & Hd2).
  exists (evs1 ++ evs2). rewrite Ht2, Ht1, Hp2, Hp1, <- app_assoc.
  repeat split; [by apply Forall_app|lia|done].
Qed.

Lemma emits_try_except {A} Q (m : M A) (h : exn → M A) :
  emits_only Q m → (∀ e, emits_only Q (h e)) → emits_only Q (try_except m h).
Proof.
  intros Hm Hh st. unfold try_except.
  destruct (Hm st) as (evs1 & Ht1 & HQ1 & Hp1 & Hc1 & Hd1).
  destruct (m st) as [[a|e|] st1]; cbn [fst snd] in *; [by exists evs1| |done].
  destruct (Hh e st1) as (evs2 & Ht2 & HQ2 & Hp2 & Hc2 & Hd2).
  exists (evs1 ++ evs2). rewrite Ht2, Ht1, Hp2, Hp1, <- app_assoc.
  repeat split; [by apply Forall_app|lia|done].
Qed.

Lemma emits_when Q b (m : M unit) : emits_only Q m → emits_only Q (when b m).
Proof. intros Hm. destruct b; [done|apply emits_ret]. Qed.

Lemma emits_weaken {A} (Q Q' : event → Prop) (m : M A) :
  (∀ ev, Q ev → Q' ev) → emits_only Q m → emits_only Q' m.
Proof.
  intros HQ Hm st. destruct (Hm st) as (evs & Ht & Hevs & Hp & Hc & Hd).
  exists evs. repeat split; try done. eapply Forall_impl; done.
Qed.

(** *** The scroll loop *)

Lemma scroll_target_next (pos : Z) (j count : nat) :
  j ≤ count → count < max_scrolls → pos = (scroll_step * Z.of_nat j)%Z →
  scroll_target (pos + scroll_step).
Proof.
  intros Hj Hc ->. exists (S j). split; [lia|]. unfold scroll_step. lia.
Qed.

Lemma emits_scroll_loop fuel : ∀ s,
  max_scrolls - scroll_count s < fuel →
  (∃ j, j ≤ scroll_count s ∧ current_position s = (scroll_step * Z.of_nat j)%Z) →
  emits_only scroll_event (scroll_loop w fuel s).
Proof.
  induction fuel as [|fuel IH]; intros s Hf (j & Hj & Hpos); [lia|].
  cbn [scroll_loop].
  destruct (scroll_count s <? max_scrolls) eqn:Hlt; cbn [negb]; [|apply emits_ret].
  apply Nat.ltb_lt in Hlt.
  assert (Ht : scroll_target (current_position s + scroll_step))
    by (apply (scroll_target_next _ j (scroll_count s)); done).
  apply emits_bind; [by apply emits_is_running|]. intros r.
  destruct r; cbn [negb]; [|apply emits_ret].
  apply emits_bind; [by apply emits_emit|]. intros _.
  apply emits_bind; [apply emits_lift|]. intros h.
  apply emits_bind; [apply emits_emit; cbn; split; [done|lia]|]. intros _.
  destruct (_ >=? _)%Z; [destruct (_ =? _)%Z|].
  - apply emits_ret.
  - apply IH; cbn [scroll_count current_position]; [lia|].
    exists 0. split; [lia|]. unfold scroll_step. lia.
  - apply IH; cbn [scroll_count current_position]; [lia|].
    exists (S j). split; [lia|]. rewrite Hpos. unfold scroll_step. lia.
Qed.

Lemma emits_scroll_gradually fuel :
  max_scrolls < fuel → emits_only scroll_event (scroll_gradually w fuel).
Proof.
  intros Hf. unfold scroll_gradually.
  apply emits_bind; [apply emits_lift|]. intros h.
  apply emits_scroll_loop; cbn [scroll_count current_position]; [lia|].
  exists 0. split; [lia|]. unfold scroll_step. lia.
Qed.

End Emits.

(** X3: whatever the page reports as its height, and whenever the flag is
    cleared or the page fails, [scroll_gradually] ends and does nothing but
    read the flag, scroll and report progress: every scroll goes to a
    multiple of 800 px between 800 and 80000, every progress line shows such
    a position and a count between 1 and 100, and [self.products] is left
    alone. *)
Theorem scroll_gradually_events w fuel :
  max_scrolls < fuel → emits_only scroll_event (scroll_gradually w fuel).
Proof. apply emits_scroll_gradually. Qed.

Lemma scroll_gradually_events_witness :
  emits_only scroll_event (scroll_gradually (growing_world (Some 7)) 101).
Proof. apply scroll_gradually_events. unfold max_scrolls. lia. Defined.

(** ** The extraction under cancellation *)

Lemma take_while_running_cons {A} w c (x : A) l :
  running_at w c = true →
  take_while_running w c (x :: l) = x :: take_while_running w (S c) l.
Proof.
  unfold take_while_running, running_at. destruct (stop_after w) as [k|]; [|done].
  intros H%Nat.ltb_lt. replace (k - c) with (S (k - S c)) by lia. done.
Qed.

Lemma take_while_running_stopped {A} w c (l : list A) :
  running_at w c = false → take_while_running w c l = [].
Proof.
  unfold take_while_running, running_at. destruct (stop_after w) as [k|]; [|done].
  intros H%Nat.ltb_ge. replace (k - c) with 0 by lia. done.
Qed.

Section ExtractionCancelled.
Variable json_loads : pystr → option pyval.
Variable w : world.

Lemma extract_loop_take cards : ∀ n idx acc st,
  ∃ st', extract_loop json_loads w n idx cards acc st =
           (Ok (acc ++ extracted w json_loads idx (take_while_running w (clock st) cards)),
            st').
Proof.
  induction cards as [|c cards IH]; intros n idx acc st; cbn [extract_loop].
  - exists st. unfold take_while_running. destruct (stop_after w); rewrite ?take_nil;
      cbn; by rewrite app_nil_r.
  - rewrite bind_is_running.
    destruct (running_at w (clock st)) eqn:Hrun; cbn [negb].
    + rewrite take_while_running_cons by done. unfold bind.
      destruct (extract_item_result json_loads w n idx c acc (tick w st))
        as (st1 & -> & Hc1).
      destruct (IH n (S idx)
                  (match extract_fields json_loads w idx c with
                   | Returns p => acc ++ [p]
                   | Raises _ => acc
                   end) st1) as (st2 & ->).
      exists st2. rewrite Hc1. cbn [tick clock extracted].
      destruct (extract_fields json_loads w idx c); [|done].
      by rewrite <- app_assoc.
    + rewrite take_while_running_stopped by done. exists (tick w st).
      cbn. by rewrite app_nil_r.
Qed.

End ExtractionCancelled.

(** X4: the extraction returns the records of the anchors it reached, in
    the order of the page, leaving out those whose browser calls raised:
    with [stop()] called after [k] reads of the flag these are the first
    [k - c - 1] anchors, [c] being the reads made before the extraction, and
    all anchors when [stop()] is never called.  No failure of an anchor
    escalates: the extraction raises only when the query for the anchors
    itself raises. *)
Theorem extract_products_prefix json_loads w st :
  fst (extract_products json_loads w st) =
  match query_selector_all w with
  | Returns cards =>
      Ok (extracted w json_loads 1 (take_while_running w (S (clock st)) cards))
  | Raises e => if running_at w (clock st) then Raise e else Ok []
  end.
Proof.
  unfold extract_products. rewrite bind_is_running.
  destruct (running_at w (clock st)) eqn:Hrun; cbn [negb].
  - rewrite bind_lift. destruct (query_selector_all w) as [cards|e]; [|done].
    rewrite bind_emit.
    match goal with |- context [extract_loop _ _ ?n ?i ?c ?a ?s] =>
      destruct (extract_loop_take json_loads w c n i a s) as (st' & ->) end.
    done.
  - destruct (query_selector_all w) as [cards|e]; [|done].
    rewrite take_while_running_stopped; [done|by apply running_at_step].
Qed.

(** ** The events of the download batch *)

Lemma fetched_app evs1 evs2 : fetched (evs1 ++ evs2) = fetched evs1 ++ fetched evs2.
Proof. unfold fetched. apply omap_app. Qed.

Lemma written_app evs1 evs2 : written (evs1 ++ evs2) = written evs1 ++ written evs2.
Proof. unfold written. apply omap_app. Qed.

Lemma wanted_seq products : ∀ idx,
  wanted idx products `sublist_of` seq idx (length products).
Proof.
  induction products as [|p rest IH]; intros idx; cbn [wanted length seq]; [done|].
  destruct (wants_image p); cbn [app].
  - apply sublist_skip, IH.
  - apply sublist_cons, IH.
Qed.

(** Check a property of every event of a short explicit list. *)
Ltac each_event :=
  repeat first [apply Forall_nil | apply Forall_cons; split];
  cbn; repeat split; try done; try lia; eauto.

Section DownloadEvents.
Variable char_isalnum : N → bool.
Variable w : world.

Lemma join_kept_Forall items : ∀ s,
  join_kept char_isalnum items = Returns s →
  Forall (λ c, keep_char char_isalnum c = true) s.
Proof.
  induction items as [|c items IH]; intros s; cbn [join_kept].
  - intros [= <-]. constructor.
  - destruct (keep_in_name char_isalnum c) as [b|e] eqn:Hk; [|done].
    destruct (join_kept char_isalnum items) as [s'|e]; [|done].
    specialize (IH s' eq_refl).
    destruct b; [|by intros [= <-]].
    destruct c as [| | |t| |]; try (by intros [= <-]).
    intros [= <-]. apply Forall_app. split; [|done].
    cbn [keep_in_name] in Hk. injection Hk as Hk.
    apply orb_true_iff in Hk as [Hk|Hk]; [apply orb_true_iff in Hk as [Hk|Hk]|].
    + unfold str_isalnum in Hk. apply andb_true_iff in Hk as [_ Hk].
      apply Forall_forall. intros x Hx.
      rewrite forallb_forall in Hk. unfold keep_char.
      rewrite Hk; [done|]. by apply list_elem_of_In.
    + unfold PyStr.eqb in Hk. apply bool_decide_eq_true in Hk as ->.
      repeat constructor. unfold keep_char. by rewrite orb_true_r.
    + unfold PyStr.eqb in Hk. apply bool_decide_eq_true in Hk as ->.
      repeat constructor. unfold keep_char. by rewrite orb_true_r.
Qed.

Lemma safe_name_kept name s :
  safe_name char_isalnum name = Returns s →
  Forall (λ c, keep_char char_isalnum c = true) s.
Proof.
  unfold safe_name. destruct (slice_items name 50); [|done]. apply join_kept_Forall.
Qed.

(** One item: it never raises and does not read the flag; its events are
    those of its index; a GET is made only for a product that asks for an
    image, at most once, and a file is written only after a GET. *)
Lemma download_item_events n n' idx p st :
  1 ≤ idx ≤ n' →
  ∃ p' evs,
    download_item char_isalnum w n idx p st = (Ok p', after evs st) ∧
    Forall (download_event char_isalnum n') evs ∧
    Forall (λ ev, work_event ev = true ∧ ∀ b, ev ≠ FlagRead b) evs ∧
    fetched evs `sublist_of` (if wants_image p then [idx] else []) ∧
    written evs `sublist_of` fetched evs ∧
    same_but_local p p'.
Proof.
  intros Hidx. unfold download_item, try_except. fold (wants_image p).
  destruct (wants_image p) eqn:Huse.
  2: { exists p, []. rewrite after_nil. by repeat split. }
  assert (Herr : ∀ e,
    ∃ p' evs, (Ok p, log (Progress (MsgImageError idx e)) st) = (Ok p', after evs st) ∧
      Forall (download_event char_isalnum n') evs ∧
      Forall (λ ev, work_event ev = true ∧ ∀ b, ev ≠ FlagRead b) evs ∧
      fetched evs `sublist_of` [idx] ∧ written evs `sublist_of` fetched evs ∧
      same_but_local p p').
  { intros e. exists p, [Progress (MsgImageError idx e)].
    split; [done|]. split; [each_event|]. split; [each_event|].
    split; [apply sublist_nil_l|done]. }
  unfold http_get, file_write, bind, lift, emit, ret.
  destruct (dict_get p "thumbnail" PNone) as [| | |u| |] eqn:Hth; cbn [as_str];
    try apply Herr.
  destruct (requests_get w idx (normalize_url u)) as [r0|e]; [|apply Herr].
  pose proof (normalize_url_no_slash u) as Hu.
  assert (Herr2 : ∀ e,
    ∃ p' evs,
      (Ok p, log (Progress (MsgImageError idx e))
               (log (HttpGet idx (normalize_url u) (status_code r0)) st))
        = (Ok p', after evs st) ∧
      Forall (download_event char_isalnum n') evs ∧
      Forall (λ ev, work_event ev = true ∧ ∀ b, ev ≠ FlagRead b) evs ∧
      fetched evs `sublist_of` [idx] ∧ written evs `sublist_of` fetched evs ∧
      same_but_local p p').
  { intros e. exists p, [HttpGet idx (normalize_url u) (status_code r0);
                        Progress (MsgImageError idx e)].
    split; [unfold log, after; cbn; by rewrite <- app_assoc|].
    split; [each_event|]. split; [each_event|].
    split; [done|]. split; [apply sublist_nil_l|done]. }
  destruct (status_code r0 =? 200)%Z.
  2: { exists p, [HttpGet idx (normalize_url u) (status_code r0)].
       split; [done|]. split; [each_event|]. split; [each_event|].
       split; [done|]. split; [apply sublist_nil_l|done]. }
  destruct (getitem p "name") as [name|e]; cbn [fst snd]; [|apply Herr2].
  destruct (safe_name char_isalnum name) as [safe|e] eqn:Hsafe; [|apply Herr2].
  destruct (write_file w idx (thumbnail_path idx safe) (content r0)) as [[]|e];
    [|apply Herr2].
  apply safe_name_kept in Hsafe.
  exists (<["thumbnail_local" := PStr (thumbnail_path idx safe)]> p),
         [HttpGet idx (normalize_url u) (status_code r0);
          FileWrite idx (thumbnail_path idx safe) (content r0);
          Progress (MsgImageDone idx n)].
  split; [unfold log, after; cbn; by rewrite <- !app_assoc|].
  split; [each_event|].
  split; [each_event|]. split; [done|]. split; [done|].
  intros k Hk. by rewrite lookup_insert_ne.
Qed.

(** The loop: every event is one of the batch; the GETs follow the order of
    the products that ask for an image; a read that finds the flag cleared
    is the last event. *)
Lemma download_loop_events n products : ∀ idx st,
  1 ≤ idx → idx + length products ≤ S n →
  ∃ r st' evs,
    download_loop char_isalnum w n idx products st = (Ok r, st') ∧
    trace st' = trace st ++ evs ∧
    self_products st' = self_products st ∧
    clock st ≤ clock st' ∧
    Forall (download_event char_isalnum n) evs ∧
    Forall (λ ev, work_event ev = true) evs ∧
    fetched evs `sublist_of` wanted idx products ∧
    written evs `sublist_of` fetched evs ∧
    (∀ i, evs !! i = Some (FlagRead false) → S i = length evs) ∧
    Forall2 same_but_local products r.
Proof.
  induction products as [|p rest IH]; intros idx st H1 Hn; cbn [download_loop].
  - exists [], st, []. rewrite app_nil_r. by repeat split.
  - cbn [length] in Hn. rewrite bind_is_running.
    destruct (running_at w (clock st)) eqn:Hrun; cbn [negb].
    + unfold bind.
      destruct (download_item_events n n idx p (tick w st))
        as (p' & evs1 & -> & Hev1 & Hw1 & Hf1 & Hwr1 & Hsame1); [lia|].
      destruct (IH (S idx) (after evs1 (tick w st)))
        as (rest' & st' & evs2 & -> & Htr & Hp & Hc & Hev2 & Hw2 & Hf2 & Hwr2 & Hlast
            & Hsame2);
        [lia|lia|].
      exists (p' :: rest'), st', ([FlagRead true] ++ evs1 ++ evs2).
      split; [done|].
      split; [rewrite Htr; cbn; by rewrite Hrun, <- !app_assoc|].
      split; [by rewrite Hp|]. split; [cbn in Hc; lia|].
      split; [apply Forall_app; split; [each_event|by apply Forall_app]|].
      split.
      { apply Forall_app. split; [each_event|]. apply Forall_app.
        split; [|done]. eapply Forall_impl; [exact Hw1|]. by intros ev [? _]. }
      split; [|split; [|split; [|by constructor]]].
      * rewrite !fetched_app. cbn [wanted].
        change (fetched [FlagRead true]) with (@nil nat). cbn [app].
        by apply sublist_app.
      * rewrite !written_app, !fetched_app.
        change (fetched [FlagRead true]) with (@nil nat).
        change (written [FlagRead true]) with (@nil nat). cbn [app].
        by apply sublist_app.
      * intros i Hi. cbn [app] in Hi. destruct i as [|i]; [done|].
        change ((evs1 ++ evs2) !! i = Some (FlagRead false)) in Hi.
        cbn [app length]. f_equal.
        rewrite length_app.
        destruct (decide (i < length evs1)) as [Hlt|Hge].
        { rewrite lookup_app_l in Hi by done.
          apply list_elem_of_lookup_2 in Hi.
          rewrite Forall_forall in Hw1. destruct (Hw1 _ Hi) as [_ Hno].
          by destruct (Hno false). }
        rewrite lookup_app_r in Hi by lia. apply Hlast in Hi. lia.
    + exists (p :: rest), (tick w st), [FlagRead false].
      split; [done|]. split; [cbn; by rewrite Hrun|]. split; [done|].
      split; [cbn; lia|]. split; [each_event|].
      split; [each_event|].
      split; [apply sublist_nil_l|]. split; [done|].
      split; [intros [|i] Hi; done|].
      apply Forall2_same_length_lookup. split; [done|].
      intros i x y Hx Hy. rewrite Hx in Hy. by injection Hy as <-.
Qed.

Lemma download_images_events_aux products st :
  ∃ evs,
    trace (snd (download_images char_isalnum w products st)) = trace st ++ evs ∧
    self_products (snd (download_images char_isalnum w products st)) = self_products st ∧
    clock st ≤ clock (snd (download_images char_isalnum w products st)) ∧
    fst (download_images char_isalnum w products st) ≠ Diverge ∧
    Forall (download_event char_isalnum (length products)) evs ∧
    Forall (λ ev, work_event ev = true) evs ∧
    fetched evs `sublist_of` wanted 1 products ∧
    written evs `sublist_of` fetched evs ∧
    (∀ i, evs !! i = Some (FlagRead false) → S i = length evs) ∧
    (∀ ps, fst (download_images char_isalnum w products st) = Ok ps →
       Forall2 same_but_local products ps).
Proof.
  unfold download_images.
  destruct (download_loop_events (length products) products 1 st)
    as (r & st' & evs & Hrun & Htr & Hp & Hc & H); [lia|lia|].
  unfold when, bind.
  destruct (img_dir_exists w); cbn [negb].
  - unfold ret. rewrite Hrun. exists evs. cbn [fst snd].
    destruct H as (? & ? & ? & ? & ? & ?).
    repeat split; try done. by intros ps [= <-].
  - destruct (makedirs w) as [[]|e]; cbn [lift].
    + rewrite Hrun. exists evs. cbn [fst snd].
      destruct H as (? & ? & ? & ? & ? & ?).
      repeat split; try done. by intros ps [= <-].
    + exists []. rewrite app_nil_r. cbn [fst snd].
      repeat split; try done; try apply sublist_nil_l.
Qed.

End DownloadEvents.

(** X5: whatever the network, the disk and the flag do, the download batch
    ends and does nothing but read the flag, request images, write files
    and report progress, all for items of the batch.  Every GET goes to a
    URL that does not start with a slash; every file is written to
    [thumbnails/<index>_<name>.jpg] with the index of its item and a name
    made only of characters that [isalnum] accepts, spaces and underscores;
    [self.products] is left alone. *)
Theorem download_images_events char_isalnum w products :
  emits_only (download_event char_isalnum (length products))
    (download_images char_isalnum w products).
Proof.
  intros st.
  destruct (download_images_events_aux char_isalnum w products st)
    as (evs & Htr & Hp & Hc & Hd & Hev & _).
  exists evs. done.
Qed.

(** X6: the images are requested one product at a time and in the order of
    the list: the GETs that returned belong to products that ask for an
    image (a thumbnail that is truthy and not ["N/A"]), at most one GET per
    product, in increasing order of the index; a file is written only for a
    product whose GET returned, at most once; and once a read finds the
    flag cleared the batch does nothing more. *)
Theorem download_images_in_order char_isalnum w products st :
  ∃ evs,
    trace (snd (download_images char_isalnum w products st)) = trace st ++ evs ∧
    fetched evs `sublist_of` wanted 1 products ∧
    wanted 1 products `sublist_of` seq 1 (length products) ∧
    written evs `sublist_of` fetched evs ∧
    (∀ i, evs !! i = Some (FlagRead false) → S i = length evs).
Proof.
  destruct (download_images_events_aux char_isalnum w products st)
    as (evs & Htr & _ & _ & _ & _ & _ & Hf & Hw & Hlast & _).
  exists evs. split; [done|]. split; [done|]. split; [apply wanted_seq|]. done.
Qed.

(** ** The shape of a run *)

Section RunShape.
Variable json_loads : pystr → option pyval.
Variable char_isalnum : N → bool.
Variable w : world.
Variable url : pystr.

Local Abbreviation W := (run_work char_isalnum).

Lemma download_event_safe n ev :
  download_event char_isalnum n ev → io_safe char_isalnum ev.
Proof.
  destruct ev as [| | | | | | |idx u s|idx path data]; try done.
  - by intros [_ ?].
  - intros [[? _] ?]. done.
Qed.

Lemma emits_extract_item n idx c products :
  emits_only W (extract_item json_loads w n idx c products).
Proof.
  unfold extract_item.
  apply emits_try_except.
  - apply emits_bind; [apply emits_lift|]. intros p.
    apply emits_try_except.
    + apply emits_bind; [apply emits_lift|]. intros name30.
      apply emits_bind; [by apply emits_emit|]. intros _. apply emits_ret.
    + intros e. apply emits_bind; [by apply emits_emit|]. intros _. apply emits_ret.
  - intros e. apply emits_bind; [by apply emits_emit|]. intros _. apply emits_ret.
Qed.

Lemma emits_extract_loop n links : ∀ idx products,
  emits_only W (extract_loop json_loads w n idx links products).
Proof.
  induction links as [|c links IH]; intros idx products; cbn [extract_loop];
    [apply emits_ret|].
  apply emits_bind; [by apply emits_is_running|]. intros r.
  destruct r; cbn [negb]; [|apply emits_ret].
  apply emits_bind; [apply emits_extract_item|]. intros ps. apply IH.
Qed.

Lemma emits_extract_products : emits_only W (extract_products json_loads w).
Proof.
  unfold extract_products.
  apply emits_bind; [by apply emits_is_running|]. intros r.
  destruct r; cbn [negb]; [|apply emits_ret].
  apply emits_bind; [apply emits_lift|]. intros links.
  apply emits_bind; [by apply emits_emit|]. intros _. apply emits_extract_loop.
Qed.

Lemma emits_scroll_work fuel :
  max_scrolls < fuel → emits_only W (scroll_gradually w fuel).
Proof.
  intros Hf. eapply emits_weaken; [|by apply emits_scroll_gradually].
  intros [| [] | | | | | | |]; done.
Qed.

Lemma emits_download_images products :
  emits_only W (download_images char_isalnum w products).
Proof.
  intros st.
  destruct (download_images_events_aux char_isalnum w products st)
    as (evs & Htr & Hp & Hc & Hd & Hev & Hw & _).
  exists evs. repeat split; try done.
  apply Forall_forall. intros ev Hin.
  rewrite Forall_forall in Hev. rewrite Forall_forall in Hw.
  split; [by apply Hw|]. eapply download_event_safe, Hev, Hin.
Qed.

Lemma emits_download_if_running products :
  emits_only W (download_if_running char_isalnum w products).
Proof.
  unfold download_if_running. destruct (negb _); [|apply emits_ret].
  apply emits_bind; [by apply emits_is_running|]. intros r.
  destruct r; [apply emits_download_images|apply emits_ret].
Qed.

Lemma same_but_local_refl ps : Forall2 same_but_local ps ps.
Proof. apply Forall2_same_length_lookup. split; [done|].
  intros i x y Hx Hy. rewrite Hx in Hy. by injection Hy as <-. Qed.

Lemma download_if_running_same products st ps :
  fst (download_if_running char_isalnum w products st) = Ok ps →
  Forall2 same_but_local products ps.
Proof.
  unfold download_if_running. destruct (negb _).
  2: { intros [= <-]. apply same_but_local_refl. }
  rewrite bind_is_running. destruct (running_at w (clock st)).
  2: { intros [= <-]. apply same_but_local_refl. }
  destruct (download_images_events_aux char_isalnum w products (tick w st))
    as (evs & _ & _ & _ & _ & _ & _ & _ & _ & _ & Hsame).
  apply Hsame.
Qed.

(** The extraction is complete when the flag is still set after it. *)
Lemma extract_products_complete st ps :
  fst (extract_products json_loads w st) = Ok ps →
  running_at w (clock (snd (extract_products json_loads w st))) = true →
  ∃ cards, query_selector_all w = Returns cards ∧ ps = extracted w json_loads 1 cards.
Proof.
  intros Hps Hrun.
  assert (Hall : ∀ cards n idx acc st0,
    running_at w (clock (snd (extract_loop json_loads w n idx cards acc st0))) = true →
    fst (extract_loop json_loads w n idx cards acc st0)
    = Ok (acc ++ extracted w json_loads idx cards)).
  { induction cards as [|c cards IH]; intros n idx acc st0; cbn [extract_loop extracted].
    - intros _. cbn. by rewrite app_nil_r.
    - rewrite bind_is_running.
      destruct (running_at w (clock st0)) eqn:Hr0; cbn [negb].
      + unfold bind.
        destruct (extract_item_result json_loads w n idx c acc (tick w st0))
          as (st1 & -> & _).
        intros H. rewrite (IH _ _ _ _ H).
        destruct (extract_fields json_loads w idx c); [|done].
        by rewrite <- app_assoc.
      + cbn. intros H. by rewrite (running_at_step w _ Hr0) in H. }
  revert Hps Hrun. unfold extract_products. rewrite bind_is_running.
  destruct (running_at w (clock st)) eqn:Hr0; cbn [negb].
  2: { cbn. intros _ H. by rewrite (running_at_step w _ Hr0) in H. }
  rewrite bind_lift. destruct (query_selector_all w) as [cards|e]; [|done].
  rewrite bind_emit. intros Hps Hrun. exists cards. split; [done|].
  rewrite (Hall _ _ _ _ _ Hrun) in Hps. by injection Hps as <-.
Qed.

(** One more step of work before what is left of the body. *)
Lemma page_post_step {A} (m : M A) (k : A → M unit) st :
  emits_only W m →
  (∀ a, fst (m st) = Ok a → page_post json_loads char_isalnum w (snd (m st)) (k a (snd (m st)))) →
  page_post json_loads char_isalnum w st (bind m k st).
Proof.
  intros Hm Hk. unfold bind.
  destruct (Hm st) as (evs1 & Ht1 & HQ1 & Hp1 & Hc1 & Hd1).
  destruct (m st) as [[a|e|] st1]; cbn [fst snd] in *; [| |done].
  - destruct (Hk a eq_refl) as (work & ending & Ht & HW & Hd & Hend & Hok).
    exists (evs1 ++ work), ending.
    split; [by rewrite Ht, Ht1, <- !app_assoc|].
    split; [by apply Forall_app|]. split; [done|]. split; [|done].
    rewrite <- Hp1. destruct Hend as [?|[(? & ? & ?)|?]]; [by left| |by right; right].
    right; left. repeat split; try done. apply elem_of_app. by right.
  - exists evs1, []. rewrite app_nil_r.
    split; [done|]. split; [done|]. split; [done|]. split; [by left|done].
Qed.

(** A check of the flag: the browser is closed when it is cleared. *)
Lemma page_post_check (k : M unit) st :
  (running_at w (clock st) = true → page_post json_loads char_isalnum w (tick w st) (k (tick w st))) →
  page_post json_loads char_isalnum w st
    ((let* r := is_running w in if negb r then close_browser w else k) st).
Proof.
  intros Hk. rewrite bind_is_running.
  destruct (running_at w (clock st)) eqn:Hrun; cbn [negb].
  - destruct (Hk eq_refl) as (work & ending & Ht & HW & Hd & Hend & Hok).
    exists ([FlagRead true] ++ work), ending.
    split; [rewrite Ht; cbn; by rewrite Hrun, <- !app_assoc|].
    split; [by constructor|]. split; [done|]. split; [|done].
    cbn [tick self_products] in Hend.
    destruct Hend as [?|[(? & ? & ?)|?]]; [by left| |by right; right].
    right; left. repeat split; try done. by right.
  - exists [FlagRead false], [BrowserClose].
    unfold close_browser. rewrite bind_emit.
    split; [destruct (browser_close w); cbn; by rewrite Hrun, <- app_assoc|].
    split; [by repeat constructor|].
    split; [by destruct (browser_close w)|].
    split; [|done]. right; left.
    split; [done|]. split; [by destruct (browser_close w)|]. by left.
Qed.

(** Lines 101-103. *)
Lemma page_post_result ps st :
  result_complete json_loads w ps →
  page_post json_loads char_isalnum w st
    ((let* r := is_running w in when r (set_products ps ;;; emit (Result ps))) st).
Proof.
  intros Hps. rewrite bind_is_running.
  destruct (running_at w (clock st)) eqn:Hrun; cbn [when].
  - exists [FlagRead true], [Result ps].
    split; [cbn; by rewrite Hrun, <- app_assoc|].
    split; [by repeat constructor|]. split; [done|]. split; [|done].
    right; right. by exists ps.
  - exists [FlagRead false], []. rewrite app_nil_r.
    split; [cbn; by rewrite Hrun|].
    split; [by repeat constructor|]. split; [done|]. split; [by left|done].
Qed.

Lemma crawl_page_post fuel st :
  max_scrolls < fuel →
  page_post json_loads char_isalnum w st (crawl_page json_loads char_isalnum w url fuel st).
Proof.
  intros Hf. unfold crawl_page.
  apply page_post_check. intros _.
  apply page_post_step; [by apply emits_emit|]. intros _ _.
  apply page_post_step; [apply emits_lift|]. intros _ _.
  apply page_post_check. intros _.
  apply page_post_step; [by apply emits_emit|]. intros _ _.
  apply page_post_step; [apply emits_lift|]. intros _ _.
  apply page_post_check. intros _.
  apply page_post_step; [by apply emits_emit|]. intros _ _.
  apply page_post_step; [by apply emits_scroll_work|]. intros _ _.
  apply page_post_check. intros _.
  apply page_post_step; [by apply emits_emit|]. intros _ _.
  apply page_post_step; [apply emits_extract_products|]. intros products Hext.
  apply page_post_check. intros Hrun.
  destruct (extract_products_complete _ _ Hext Hrun) as (cards & Hq & ->).
  apply page_post_step; [by apply emits_emit|]. intros _ _.
  apply page_post_step; [apply emits_download_if_running|]. intros ps Hdl.
  apply page_post_result. exists cards. split; [done|].
  by apply download_if_running_same in Hdl.
Qed.

Lemma guard_shape m st :
  ∃ g, emit_error_if_running w m st
       = (Ok tt, {| clock := S (clock st); trace := trace st ++ g;
                    self_products := self_products st |}) ∧
       guard_events m g.
Proof.
  unfold emit_error_if_running. rewrite bind_is_running.
  destruct (running_at w (clock st)) eqn:Hrun; cbn [when].
  - exists [FlagRead true; Error m]. split; [|by right].
    unfold emit, log, tick. cbn. by rewrite Hrun, <- app_assoc.
  - exists [FlagRead false]. split; [|by left].
    unfold ret, tick. cbn. by rewrite Hrun.
Qed.

(** The events of [crawl]. *)
Lemma crawl_shape fuel st :
  max_scrolls < fuel →
  ∃ r st' evs,
    crawl json_loads char_isalnum w url fuel st = (r, st') ∧
    trace st' = trace st ++ evs ∧
    ((r = Ok tt ∧ running_at w (clock st) = false ∧ evs = [FlagRead false] ∧
      self_products st' = self_products st) ∨
     (∃ e, r = Raise e ∧ running_at w (clock st) = true ∧
        ¬ page_opened w (clock st) ∧
        evs = [FlagRead true; Progress MsgInitBrowser] ∧
        self_products st' = self_products st) ∨
     (page_opened w (clock st) ∧
      ∃ work ending inner,
        evs = [FlagRead true; Progress MsgInitBrowser] ++ work ++ ending ++ inner
                ++ [BrowserClose] ∧
        Forall W work ∧
        page_ending json_loads w (self_products st) (self_products st') work ending ∧
        (inner = [] ∨
         ∃ e, guard_events (MsgPageError e) inner ∧
              (ending = [] ∨ ending = [BrowserClose])) ∧
        (r = Ok tt ∧ browser_close w = Returns tt ∨
         ∃ e, r = Raise e ∧ browser_close w = Raises e))).
Proof.
  intros Hf. unfold crawl. rewrite bind_is_running.
  destruct (running_at w (clock st)) eqn:Hrun; cbn [negb].
  2: { exists (Ok tt), (tick w st), [FlagRead false].
       split; [done|]. split; [unfold tick; cbn; by rewrite Hrun|]. by left. }
  rewrite bind_emit.
  set (st1 := log (Progress MsgInitBrowser) (tick w st)).
  assert (Ht1 : trace st1 = trace st ++ [FlagRead true; Progress MsgInitBrowser]).
  { unfold st1, tick. cbn. by rewrite Hrun, <- app_assoc. }
  assert (Hfail : ∀ e, ¬ page_opened w (clock st) →
    ∃ r st' evs,
      (Raise e, st1) = (r, st') ∧
      trace st' = trace st ++ evs ∧
      ((r = @Ok unit tt ∧ true = false ∧ evs = [FlagRead false] ∧
        self_products st' = self_products st) ∨
       (∃ e, r = Raise e ∧ true = true ∧
          ¬ page_opened w (clock st) ∧
          evs = [FlagRead true; Progress MsgInitBrowser] ∧
          self_products st' = self_products st) ∨
       (page_opened w (clock st) ∧
        ∃ work ending inner,
          evs = [FlagRead true; Progress MsgInitBrowser] ++ work ++ ending ++ inner
                  ++ [BrowserClose] ∧
          Forall W work ∧
          page_ending json_loads w (self_products st) (self_products st') work ending ∧
          (inner = [] ∨
           ∃ e, guard_events (MsgPageError e) inner ∧
                (ending = [] ∨ ending = [BrowserClose])) ∧
          (r = Ok tt ∧ browser_close w = Returns tt ∨
           ∃ e, r = Raise e ∧ browser_close w = Raises e)))).
  { intros e Hno. exists (Raise e), st1, [FlagRead true; Progress MsgInitBrowser].
    split; [done|]. split; [done|]. right; left. by exists e. }
  rewrite bind_lift.
  destruct (chromium_launch w) as [[]|e] eqn:Hl.
  2: { apply Hfail. intros (_ & ? & _). congruence. }
  rewrite bind_lift.
  destruct (new_context w) as [[]|e] eqn:Hc.
  2: { apply Hfail. intros (_ & _ & ? & _). congruence. }
  rewrite bind_lift.
  destruct (new_page w) as [[]|e] eqn:Hp.
  2: { apply Hfail. intros (_ & _ & _ & ?). congruence. }
  clear Hfail.
  assert (Hopen : page_opened w (clock st)) by done.
  destruct (crawl_page_post fuel st1 Hf) as (work & ending & Ht & HW & Hd & Hend & Hok).
  assert (Hinner : ∃ inner st3,
    try_except (crawl_page json_loads char_isalnum w url fuel)
      (λ e, emit_error_if_running w (MsgPageError e)) st1 = (Ok tt, st3) ∧
    trace st3 = trace (snd (crawl_page json_loads char_isalnum w url fuel st1)) ++ inner ∧
    self_products st3
      = self_products (snd (crawl_page json_loads char_isalnum w url fuel st1)) ∧
    (inner = [] ∨ ∃ e, guard_events (MsgPageError e) inner ∧
                       (ending = [] ∨ ending = [BrowserClose]))).
  { unfold try_except.
    destruct (crawl_page json_loads char_isalnum w url fuel st1) as [[[]|e|] st2];
      cbn [fst snd] in *; [| |done].
    - exists [], st2. rewrite app_nil_r. split; [done|]. split; [done|]. split; [done|].
      by left.
    - destruct (guard_shape (MsgPageError e) st2) as (g & -> & Hg).
      eexists g, _. split; [done|]. split; [done|]. split; [done|]. right.
      exists e. split; [done|].
      destruct Hend as [[-> _]|[(-> & _)|(ps & -> & _)]]; [by left|by right|].
      by specialize (Hok ps eq_refl). }
  destruct Hinner as (inner & st3 & Htry & Ht3 & Hp3 & Hin).
  unfold try_finally. rewrite Htry.
  unfold close_browser. rewrite bind_emit. unfold lift.
  assert (Htr : trace (log BrowserClose st3)
                = trace st ++ [FlagRead true; Progress MsgInitBrowser] ++ work ++ ending
                    ++ inner ++ [BrowserClose]).
  { cbn [log trace]. rewrite Ht3, Ht, Ht1, <- !app_assoc. done. }
  assert (Hsp : page_ending json_loads w (self_products st)
                  (self_products (log BrowserClose st3)) work ending).
  { cbn [log self_products]. by rewrite Hp3. }
  destruct (browser_close w) as [[]|e] eqn:Hbc.
  - eexists (Ok tt), _, _. split; [done|]. split; [exact Htr|].
    right; right. split; [done|]. exists work, ending, inner.
    split; [done|]. split; [done|]. split; [done|]. split; [done|]. by left.
  - eexists (Raise e), _, _. split; [done|]. split; [exact Htr|].
    right; right. split; [done|]. exists work, ending, inner.
    split; [done|]. split; [done|]. split; [done|]. split; [done|]. right. by exists e.
Qed.

(** The events of a run. *)
Lemma run_shape fuel st :
  max_scrolls < fuel →
  ∃ evs st',
    run json_loads char_isalnum w url fuel st = (Ok tt, st') ∧
    trace st' = trace st ++ evs ∧
    run_events json_loads char_isalnum w (clock st) (self_products st) (self_products st') evs.
Proof.
  intros Hf.
  destruct (crawl_shape fuel st Hf) as (r & st1 & evs & Hcrawl & Ht1 & Hev).
  unfold run, try_finally, try_except. rewrite Hcrawl.
  destruct Hev as [(-> & Hrun & -> & Hsp)|[(e & -> & Hrun & Hno & -> & Hsp)|
    (Hopen & work & ending & inner & -> & HW & Hend & Hin & Hout)]].
  - eexists [FlagRead false; Finished], _. split; [done|].
    split; [cbn; by rewrite Ht1, <- app_assoc|]. by left.
  - destruct (guard_shape (MsgCrawlError e) st1) as (g & -> & Hg).
    eexists ([FlagRead true; Progress MsgInitBrowser] ++ g ++ [Finished]), _.
    split; [done|]. split; [cbn; by rewrite Ht1, <- !app_assoc|].
    right; left. split; [done|]. split; [done|]. split; [done|]. by exists e, g.
  - destruct Hout as [[-> Hbc]|(e & -> & Hbc)].
    + eexists ([FlagRead true; Progress MsgInitBrowser] ++ work ++ ending ++ inner
               ++ [BrowserClose] ++ [] ++ [Finished]), _.
      split; [done|]. split; [cbn; by rewrite Ht1, <- !app_assoc|].
      right; right. split; [done|]. exists work, ending, inner, [].
      split; [done|]. split; [done|]. split; [done|]. split; [done|]. by left.
    + destruct (guard_shape (MsgCrawlError e) st1) as (g & -> & Hg).
      eexists ([FlagRead true; Progress MsgInitBrowser] ++ work ++ ending ++ inner
               ++ [BrowserClose] ++ g ++ [Finished]), _.
      split; [done|]. split; [cbn; by rewrite Ht1, <- !app_assoc|].
      right; right. split; [done|]. exists work, ending, inner, g.
      split; [done|]. split; [done|]. split; [done|]. split; [done|]. right.
      by exists e.
Qed.

End RunShape.

(** ** What a run reports *)

Lemma results_app tr1 tr2 : results (tr1 ++ tr2) = results tr1 ++ results tr2.
Proof. unfold results. apply omap_app. Qed.

Lemma errors_app tr1 tr2 : errors (tr1 ++ tr2) = errors tr1 ++ errors tr2.
Proof. unfold errors. apply omap_app. Qed.

Lemma closes_app tr1 tr2 : closes (tr1 ++ tr2) = closes tr1 + closes tr2.
Proof. unfold closes. by rewrite filter_app, length_app. Qed.

Lemma work_reports char_isalnum work :
  Forall (run_work char_isalnum) work →
  results work = [] ∧ errors work = [] ∧ closes work = 0 ∧
  Forall (λ ev, is_close ev = false) work.
Proof.
  induction 1 as [|ev work [Hev _] _ (IH1 & IH2 & IH3 & IH4)]; [done|].
  destruct ev; try done; cbn; repeat split; try done; by constructor.
Qed.

Lemma guard_reports m g :
  guard_events m g →
  results g = [] ∧ closes g = 0 ∧ (errors g = [] ∨ errors g = [m]) ∧
  Forall after_close_event g.
Proof.
  intros [->| ->]; cbn; repeat split; auto; by repeat constructor.
Qed.

Lemma inner_reports inner ending :
  (inner = [] ∨ ∃ e, guard_events (MsgPageError e) inner ∧
                     (ending = [] ∨ ending = [BrowserClose])) →
  results inner = [] ∧ closes inner = 0 ∧ Forall after_close_event inner ∧
  (errors inner = [] ∨
   ∃ e, errors inner = [MsgPageError e] ∧ (ending = [] ∨ ending = [BrowserClose])).
Proof.
  intros [->|(e & Hg & He)]; [cbn; repeat split; auto|].
  destruct (guard_reports _ _ Hg) as (H1 & H2 & H3 & H4).
  repeat split; try done. destruct H3 as [H3|H3]; [by left|right; eauto].
Qed.

Lemma outer_reports w outer :
  (outer = [] ∨ ∃ e, browser_close w = Raises e ∧ guard_events (MsgCrawlError e) outer) →
  results outer = [] ∧ closes outer = 0 ∧ Forall after_close_event outer ∧
  (errors outer = [] ∨ ∃ e, errors outer = [MsgCrawlError e] ∧ browser_close w = Raises e).
Proof.
  intros [->|(e & Hbc & Hg)]; [cbn; repeat split; auto|].
  destruct (guard_reports _ _ Hg) as (H1 & H2 & H3 & H4).
  repeat split; try done. destruct H3 as [H3|H3]; [by left|right; eauto].
Qed.

(** Nothing but [after_close_event]s follows a close that lies in the
    second part of a trace whose first part has no close. *)
Lemma after_close_split (a b : list event) :
  Forall (λ ev, is_close ev = false) a → Forall after_close_event b →
  ∀ i j ev, (a ++ b) !! i = Some BrowserClose → i < j → (a ++ b) !! j = Some ev →
    after_close_event ev.
Proof.
  intros Ha Hb i j ev Hi Hij Hj.
  assert (Hge : length a ≤ i).
  { destruct (decide (i < length a)) as [Hlt|]; [|lia].
    rewrite lookup_app_l in Hi by done.
    rewrite Forall_lookup in Ha. by specialize (Ha _ _ Hi). }
  rewrite lookup_app_r in Hj by lia.
  rewrite Forall_lookup in Hb. by eapply Hb.
Qed.

(** X7: a run emits [result] at most once.  When it does, the list it
    hands over is what [self.products] holds afterwards, and it is
    complete: it holds, in the order of the page, the record of every anchor
    of the page whose browser calls did not raise, changed by the download
    in nothing but the local path.  When it does not, [self.products] is
    what it was.  A cancelled run therefore never reports part of a page. *)
Theorem run_result_complete json_loads char_isalnum w url fuel st :
  max_scrolls < fuel →
  ∃ evs,
    trace (snd (run json_loads char_isalnum w url fuel st)) = trace st ++ evs ∧
    ((results evs = [] ∧
      self_products (snd (run json_loads char_isalnum w url fuel st)) = self_products st) ∨
     (∃ ps, results evs = [ps] ∧
        self_products (snd (run json_loads char_isalnum w url fuel st)) = ps ∧
        result_complete json_loads w ps)).
Proof.
  intros Hf.
  destruct (run_shape json_loads char_isalnum w url fuel st Hf)
    as (evs & st' & -> & Htr & Hev).
  exists evs. split; [done|]. cbn [snd].
  destruct Hev as [(_ & -> & ->)|[(_ & _ & -> & e & g & Hg & ->)|
    (_ & work & ending & inner & outer & -> & HW & Hend & Hin & Hout)]].
  - by left.
  - left. split; [|done]. destruct (guard_reports _ _ Hg) as (Hr & _).
    rewrite !results_app, Hr. done.
  - destruct (work_reports _ _ HW) as (Hrw & _).
    destruct (inner_reports _ _ Hin) as (Hri & _).
    destruct (outer_reports _ _ Hout) as (Hro & _).
    rewrite !results_app, Hrw, Hri, Hro. cbn [results omap app].
    rewrite app_nil_r.
    destruct Hend as [[-> ->]|[(-> & -> & _)|(ps & -> & -> & Hc)]].
    + by left.
    + by left.
    + right. by exists ps.
Qed.

Lemma run_result_complete_witness :
  ∃ evs,
    trace (snd (run Json.loads ascii_isalnum (flaky_world (three_cards (lit "12,000")))
                  (lit "https://www.11st.co.kr/category") 101 init_state))
      = trace init_state ++ evs ∧
    ((results evs = [] ∧
      self_products (snd (run Json.loads ascii_isalnum
                            (flaky_world (three_cards (lit "12,000")))
                            (lit "https://www.11st.co.kr/category") 101 init_state))
        = self_products init_state) ∨
     (∃ ps, results evs = [ps] ∧
        self_products (snd (run Json.loads ascii_isalnum
                              (flaky_world (three_cards (lit "12,000")))
                              (lit "https://www.11st.co.kr/category") 101 init_state))
          = ps ∧
        result_complete Json.loads (flaky_world (three_cards (lit "12,000"))) ps)).
Proof. apply run_result_complete. unfold max_scrolls. lia. Defined.

(** X8: [browser.close()] is called at least once exactly when the browser
    was launched and the page opened, whatever is raised or cancelled
    afterwards, and at most twice; it is called twice only after a read
    that found the flag cleared.  After a [browser.close()] the run does no
    more work: what follows is reads of the flag, [error] signals, the
    second close and [finished]. *)
Theorem run_closes_browser json_loads char_isalnum w url fuel st :
  max_scrolls < fuel →
  ∃ evs,
    trace (snd (run json_loads char_isalnum w url fuel st)) = trace st ++ evs ∧
    closes evs ≤ 2 ∧
    (page_opened w (clock st) ↔ 1 ≤ closes evs) ∧
    (closes evs = 2 → FlagRead false ∈ evs) ∧
    (∀ i j ev, evs !! i = Some BrowserClose → i < j → evs !! j = Some ev →
       after_close_event ev).
Proof.
  intros Hf.
  destruct (run_shape json_loads char_isalnum w url fuel st Hf)
    as (evs & st' & -> & Htr & Hev).
  exists evs. split; [done|].
  destruct Hev as [(Hrun & -> & _)|[(Hrun & Hno & _ & e & g & Hg & ->)|
    (Hopen & work & ending & inner & outer & -> & HW & Hend & Hin & Hout)]].
  - assert (Hc0 : closes [FlagRead false; Finished] = 0) by done. rewrite Hc0.
    split; [lia|]. split.
    { split; [intros (H & _); congruence|lia]. }
    split; [lia|]. intros [|[|i]] j ev Hi; done.
  - destruct (guard_reports _ _ Hg) as (_ & Hc & _ & Hac).
    rewrite !closes_app, Hc.
    assert (Hfin : closes [Finished] = 0) by done.
    assert (Hpre : closes [FlagRead true; Progress MsgInitBrowser] = 0) by done.
    rewrite Hfin, Hpre. split; [lia|]. split.
    { split; [done|lia]. }
    split; [lia|].
    intros i j ev Hi. exfalso.
    apply list_elem_of_lookup_2 in Hi.
    repeat (apply elem_of_cons in Hi as [Hi|Hi]; [done|]).
    apply elem_of_app in Hi as [Hi|Hi].
    + destruct Hg as [->| ->]; repeat (apply elem_of_cons in Hi as [Hi|Hi]; [done|]);
        by inversion Hi.
    + repeat (apply elem_of_cons in Hi as [Hi|Hi]; [done|]). by inversion Hi.
  - destruct (work_reports _ _ HW) as (_ & _ & Hcw & Hnw).
    destruct (inner_reports _ _ Hin) as (_ & Hci & Hai & _).
    destruct (outer_reports _ _ Hout) as (_ & Hco & Hao & _).
    assert (Hce : closes ending ≤ 1 ∧ (closes ending = 1 → FlagRead false ∈ work)).
    { destruct Hend as [[-> _]|[(-> & _ & ?)|(ps & -> & _)]].
      - change (closes []) with 0. split; [lia|done].
      - change (closes [BrowserClose]) with 1. split; [lia|done].
      - change (closes [Result ps]) with 0. split; [lia|done]. }
    rewrite !closes_app, Hcw, Hci, Hco. cbn [closes filter length is_close].
    assert (Hone : closes [BrowserClose] = 1) by done.
    assert (Hfin : closes [Finished] = 0) by done.
    assert (Hpre : closes [FlagRead true; Progress MsgInitBrowser] = 0) by done.
    rewrite Hone, Hfin, Hpre.
    split; [lia|]. split; [split; [lia|done]|]. split.
    { intros H2. destruct Hce as [_ Hce].
      apply elem_of_app. right. apply elem_of_app. left. apply Hce. lia. }
    assert (Htail : Forall after_close_event
                      (inner ++ [BrowserClose] ++ outer ++ [Finished])).
    { apply Forall_app. split; [done|]. apply Forall_app. split; [by repeat constructor|].
      apply Forall_app. split; [done|]. by repeat constructor. }
    destruct Hend as [[-> _]|[(-> & _)|(ps & -> & _)]].
    + rewrite app_nil_l, app_assoc. apply after_close_split; [|done].
      apply Forall_app. split; [by repeat constructor|done].
    + rewrite (app_assoc _ work). apply after_close_split.
      * apply Forall_app. split; [by repeat constructor|done].
      * apply Forall_app. split; [by repeat constructor|done].
    + rewrite (app_assoc _ work), (app_assoc _ [Result ps]).
      apply after_close_split; [|done].
      apply Forall_app. split; [|by repeat constructor].
      apply Forall_app. split; [by repeat constructor|done].
Qed.

Lemma run_closes_browser_witness :
  ∃ evs,
    trace (snd (run Json.loads ascii_isalnum (stopped_world 3 [])
                  (lit "https://www.11st.co.kr/category") 101 init_state))
      = trace init_state ++ evs ∧
    closes evs ≤ 2 ∧
    (page_opened (stopped_world 3 []) (clock init_state) ↔ 1 ≤ closes evs) ∧
    (closes evs = 2 → FlagRead false ∈ evs) ∧
    (∀ i j ev, evs !! i = Some BrowserClose → i < j → evs !! j = Some ev →
       after_close_event ev).
Proof. apply run_closes_browser. unfold max_scrolls. lia. Defined.

(** A run that is cancelled while the page loads closes the browser twice:
    once before the early [return], once in the [finally]. *)
Example cancelled_run_closes_twice :
  closes (trace (snd (run Json.loads ascii_isalnum (stopped_world 3 [])
                        (lit "https://www.11st.co.kr/category") 101 init_state))) = 2.
Proof. vm_compute. reflexivity. Qed.

(** X9: a run emits at most two [error] signals.  A page error excludes a
    result.  A crawl error after the page was opened is the failure of
    [browser.close()] in the [finally]; two signals are emitted only when
    the page failed and closing the browser failed as well. *)
Theorem run_error_signals json_loads char_isalnum w url fuel st :
  max_scrolls < fuel →
  ∃ evs,
    trace (snd (run json_loads char_isalnum w url fuel st)) = trace st ++ evs ∧
    (errors evs = [] ∨
     (∃ e, errors evs = [MsgPageError e] ∧ results evs = []) ∨
     (∃ e, errors evs = [MsgCrawlError e] ∧
           (page_opened w (clock st) → browser_close w = Raises e)) ∨
     (∃ e e', errors evs = [MsgPageError e; MsgCrawlError e'] ∧ results evs = [] ∧
              browser_close w = Raises e')).
Proof.
  intros Hf.
  destruct (run_shape json_loads char_isalnum w url fuel st Hf)
    as (evs & st' & -> & Htr & Hev).
  exists evs. split; [done|].
  destruct Hev as [(Hrun & -> & _)|[(Hrun & Hno & _ & e & g & Hg & ->)|
    (Hopen & work & ending & inner & outer & -> & HW & Hend & Hin & Hout)]].
  - by left.
  - destruct (guard_reports _ _ Hg) as (_ & _ & [He|He] & _);
      rewrite !errors_app, He; cbn; [by left|].
    right; right; left. exists e. done.
  - destruct (work_reports _ _ HW) as (Hrw & Hew & _).
    destruct (inner_reports _ _ Hin) as (Hri & _ & _ & Hei).
    destruct (outer_reports _ _ Hout) as (Hro & _ & _ & Heo).
    assert (Hee : errors ending = []).
    { by destruct Hend as [[-> _]|[(-> & _)|(ps & -> & _)]]. }
    rewrite !errors_app, !results_app, Hew, Hee, Hrw, Hri, Hro.
    cbn [errors results omap app]. rewrite !app_nil_r.
    destruct Hei as [->|(e & -> & Hending)]; destruct Heo as [->|(e' & -> & Hbc)]; cbn [app].
    + by left.
    + right; right; left. by exists e'.
    + right; left. exists e. split; [done|]. by destruct Hending as [-> | ->].
    + right; right; right. exists e, e'. split; [done|]. split; [|done].
      by destruct Hending as [-> | ->].
Qed.

Lemma run_error_signals_witness :
  ∃ evs,
    trace (snd (run Json.loads ascii_isalnum crashed_world
                  (lit "https://www.11st.co.kr/category") 101 init_state))
      = trace init_state ++ evs ∧
    (errors evs = [] ∨
     (∃ e, errors evs = [MsgPageError e] ∧ results evs = []) ∨
     (∃ e, errors evs = [MsgCrawlError e] ∧
           (page_opened crashed_world (clock init_state) →
            browser_close crashed_world = Raises e)) ∨
     (∃ e e', errors evs = [MsgPageError e; MsgCrawlError e'] ∧ results evs = [] ∧
              browser_close crashed_world = Raises e')).
Proof. apply run_error_signals. unfold max_scrolls. lia. Defined.

(** When the page cannot be loaded and the browser cannot be closed, the
    window is shown two errors. *)
Example crashed_run_reports_twice :
  errors (trace (snd (run Json.loads ascii_isalnum crashed_world
                        (lit "https://www.11st.co.kr/category") 101 init_state)))
  = [MsgPageError (PyExn "TimeoutError" (lit "Timeout 60000ms exceeded"));
     MsgCrawlError (PyExn "Error" (lit "Browser has been closed"))].
Proof. vm_compute. reflexivity. Qed.

(** X14: whatever the page holds and whatever the outside world does, the
    outside calls of a whole run are safe: every GET goes to a URL that does
    not start with a slash, and every file is written to
    [thumbnails/<index>_<name>.jpg] with an index from 1 on and a name made
    only of characters that [isalnum] accepts, spaces and underscores.  A
    run writes no other file. *)
Theorem run_io_safe json_loads char_isalnum w url fuel st :
  max_scrolls < fuel →
  ∃ evs,
    trace (snd (run json_loads char_isalnum w url fuel st)) = trace st ++ evs ∧
    Forall (io_safe char_isalnum) evs.
Proof.
  intros Hf.
  destruct (run_shape json_loads char_isalnum w url fuel st Hf)
    as (evs & st' & -> & Htr & Hev).
  exists evs. split; [done|].
  assert (Hguard : ∀ m g, guard_events m g → Forall (io_safe char_isalnum) g).
  { intros m g [->| ->]; by repeat constructor. }
  destruct Hev as [(_ & -> & _)|[(_ & _ & _ & e & g & Hg & ->)|
    (_ & work & ending & inner & outer & -> & HW & Hend & Hin & Hout)]].
  - by repeat constructor.
  - apply Forall_app. split; [by repeat constructor|].
    apply Forall_app. split; [by eapply Hguard|by repeat constructor].
  - apply Forall_app. split; [by repeat constructor|].
    apply Forall_app. split; [eapply Forall_impl; [exact HW|]; by intros ev [_ ?]|].
    apply Forall_app. split.
    { destruct Hend as [[-> _]|[(-> & _)|(ps & -> & _)]]; by repeat constructor. }
    apply Forall_app. split.
    { destruct Hin as [->|(e & Hg & _)]; [constructor|by eapply Hguard]. }
    apply Forall_app. split; [by repeat constructor|].
    apply Forall_app. split; [|by repeat constructor].
    destruct Hout as [->|(e & _ & Hg)]; [constructor|by eapply Hguard].
Qed.

Lemma run_io_safe_witness :
  ∃ evs,
    trace (snd (run Json.loads ascii_isalnum (calm_world (three_cards (lit "12,000")))
                  (lit "https://www.11st.co.kr/category") 101 init_state))
      = trace init_state ++ evs ∧
    Forall (io_safe ascii_isalnum) evs.
Proof. apply run_io_safe. unfold max_scrolls. lia. Defined.

(** On the three-anchor page two images are written, to these files. *)
Example calm_run_files :
  omap (λ ev, match ev with FileWrite _ path _ => Some path | _ => None end)
    (trace (snd (run Json.loads ascii_isalnum (calm_world (three_cards (lit "12,000")))
                   (lit "https://www.11st.co.kr/category") 101 init_state)))
  = [lit "thumbnails/1_A.jpg"; lit "thumbnails/2_B.jpg"].
Proof. vm_compute. reflexivity. Qed.

(** ** A run that nothing disturbs *)

Section Undisturbed.
Variable json_loads : pystr → option pyval.
Variable char_isalnum : N → bool.
Variable w : world.
Variable url : pystr.
Hypothesis calm : undisturbed w.

Local Abbreviation W := (run_work char_isalnum).

Lemma undisturbed_running c : running_at w c = true.
Proof. destruct calm as (Hs & _). unfold running_at. by rewrite Hs. Qed.

Lemma emits_results {A} (m : M A) st :
  emits_only W m → results (trace (snd (m st))) = results (trace st).
Proof.
  intros Hm. destruct (Hm st) as (evs & -> & HW & _).
  destruct (work_reports _ _ HW) as (Hr & _).
  by rewrite results_app, Hr, app_nil_r.
Qed.

Lemma scroll_loop_returns fuel : ∀ s st,
  max_scrolls - scroll_count s < fuel →
  ∃ s', fst (scroll_loop w fuel s st) = Ok s'.
Proof.
  destruct calm as (_ & _ & _ & _ & _ & _ & Hh & _).
  induction fuel as [|fuel IH]; intros s st Hf; [lia|].
  cbn [scroll_loop].
  destruct (scroll_count s <? max_scrolls) eqn:Hlt; cbn [negb]; [|by eexists].
  apply Nat.ltb_lt in Hlt.
  rewrite bind_is_running. rewrite undisturbed_running. cbn [negb].
  rewrite bind_emit, bind_lift.
  destruct (Hh (S (scroll_count s))) as [h ->]. rewrite bind_emit.
  destruct (_ >=? _)%Z; [destruct (_ =? _)%Z|];
    [by eexists|apply IH; cbn [scroll_count]; lia..].
Qed.

Lemma scroll_gradually_returns fuel st :
  max_scrolls < fuel → ∃ s', fst (scroll_gradually w fuel st) = Ok s'.
Proof.
  intros Hf. unfold scroll_gradually. rewrite bind_lift.
  destruct calm as (_ & _ & _ & _ & _ & _ & Hh & _).
  destruct (Hh 0) as [h ->]. apply scroll_loop_returns. cbn [scroll_count]. lia.
Qed.

Lemma extract_products_returns st : ∃ ps, fst (extract_products json_loads w st) = Ok ps.
Proof.
  destruct calm as (Hs & _ & _ & _ & _ & _ & _ & (cards & Hq) & _).
  eexists. by apply extract_products_calm.
Qed.

Lemma download_if_running_returns products st :
  ∃ ps, fst (download_if_running char_isalnum w products st) = Ok ps.
Proof.
  unfold download_if_running. destruct (negb _); [|by eexists].
  rewrite bind_is_running, undisturbed_running.
  unfold download_images.
  destruct (download_loop_events char_isalnum w (length products) products 1 (tick w st))
    as (r & st' & evs & Hrun & _); [lia|lia|].
  destruct calm as (_ & _ & _ & _ & _ & _ & _ & _ & [Hd|Hm]).
  - rewrite Hd. cbn [negb when]. unfold bind, ret. rewrite Hrun. by eexists.
  - destruct (img_dir_exists w); cbn [negb when].
    + unfold bind, ret. rewrite Hrun. by eexists.
    + rewrite Hm. unfold bind, lift. rewrite Hrun. by eexists.
Qed.

Lemma results_tick st : results (trace (tick w st)) = results (trace st).
Proof. cbn. by rewrite results_app, app_nil_r. Qed.

(** One more step of work that returns. *)
Lemma calm_step {A} (m : M A) (k : A → M unit) st :
  emits_only W m →
  (∃ a, fst (m st) = Ok a) →
  (∀ a, fst (k a (snd (m st))) = Ok tt ∧
        length (results (trace (snd (k a (snd (m st))))))
        = S (length (results (trace (snd (m st)))))) →
  fst (bind m k st) = Ok tt ∧
  length (results (trace (snd (bind m k st)))) = S (length (results (trace st))).
Proof.
  intros Hm [a Ha] Hk. specialize (Hk a).
  rewrite (emits_results m st Hm) in Hk. unfold bind.
  destruct (m st) as [r st1]. cbn [fst snd] in *. by subst r.
Qed.

Lemma calm_check (k : M unit) st :
  (fst (k (tick w st)) = Ok tt ∧
   length (results (trace (snd (k (tick w st)))))
   = S (length (results (trace (tick w st))))) →
  fst ((let* r := is_running w in if negb r then close_browser w else k) st) = Ok tt ∧
  length (results (trace (snd ((let* r := is_running w in
                                if negb r then close_browser w else k) st))))
  = S (length (results (trace st))).
Proof.
  rewrite bind_is_running, undisturbed_running. cbn [negb].
  by rewrite results_tick.
Qed.

Lemma results_log_work ev st :
  work_event ev = true → results (trace (log ev st)) = results (trace st).
Proof. intros H. cbn. rewrite results_app. destruct ev; try done; cbn; by rewrite app_nil_r. Qed.

Lemma crawl_page_reports fuel st :
  max_scrolls < fuel →
  fst (crawl_page json_loads char_isalnum w url fuel st) = Ok tt ∧
  length (results (trace (snd (crawl_page json_loads char_isalnum w url fuel st))))
  = S (length (results (trace st))).
Proof.
  intros Hf. unfold crawl_page.
  pose proof calm as (_ & _ & _ & _ & Hgoto & Hwait & _).
  apply calm_check.
  apply calm_step; [by apply emits_emit|by eexists|]. intros _.
  apply calm_step; [apply emits_lift|rewrite Hgoto; by eexists|]. intros _.
  apply calm_check.
  apply calm_step; [by apply emits_emit|by eexists|]. intros _.
  apply calm_step; [apply emits_lift|rewrite Hwait; by eexists|]. intros _.
  apply calm_check.
  apply calm_step; [by apply emits_emit|by eexists|]. intros _.
  apply calm_step; [by apply emits_scroll_work|by apply scroll_gradually_returns|].
  intros _.
  apply calm_check.
  apply calm_step; [by apply emits_emit|by eexists|]. intros _.
  apply calm_step; [apply emits_extract_products|apply extract_products_returns|].
  intros products.
  apply calm_check.
  apply calm_step; [by apply emits_emit|by eexists|]. intros _.
  apply calm_step; [apply emits_download_if_running|apply download_if_running_returns|].
  intros ps.
  rewrite bind_is_running, undisturbed_running. cbn [when].
  unfold bind, set_products, emit. cbn [fst snd log trace tick].
  split; [done|]. rewrite !results_app. cbn. rewrite !length_app. cbn. lia.
Qed.

Lemma run_reports fuel st :
  max_scrolls < fuel →
  length (results (trace (snd (run json_loads char_isalnum w url fuel st))))
  = S (length (results (trace st))).
Proof.
  intros Hf.
  pose proof calm as (_ & Hl & Hc & Hp & _).
  assert (Hcrawl : length (results (trace (snd (crawl json_loads char_isalnum w url fuel st))))
                   = S (length (results (trace st))) ∧
                   fst (crawl json_loads char_isalnum w url fuel st) ≠ Diverge).
  { unfold crawl. rewrite bind_is_running, undisturbed_running. cbn [negb].
    rewrite bind_emit, bind_lift, Hl, bind_lift, Hc, bind_lift, Hp.
    unfold try_finally, try_except.
    destruct (crawl_page_reports fuel (log (Progress MsgInitBrowser) (tick w st)) Hf)
      as [Hok Hres].
    destruct (crawl_page json_loads char_isalnum w url fuel _) as [r st2].
    cbn [fst snd] in *. subst r.
    rewrite results_log_work, results_tick in Hres by done.
    unfold close_browser. rewrite bind_emit. unfold lift.
    destruct (browser_close w) as [[]|e]; cbn [fst snd log trace];
      rewrite results_app, app_nil_r; done. }
  destruct Hcrawl as [Hres Hd]. unfold run, try_finally, try_except.
  destruct (crawl json_loads char_isalnum w url fuel st) as [[[]|e|] st1];
    cbn [fst snd] in *; [| |done].
  - unfold emit. cbn [fst snd log trace]. rewrite results_app, app_nil_r. done.
  - destruct (guard_shape w (MsgCrawlError e) st1) as (g & -> & Hg).
    destruct (guard_reports _ _ Hg) as (Hrg & _).
    unfold emit. cbn [fst snd log trace]. rewrite !results_app, Hrg, !app_nil_r. done.
Qed.

End Undisturbed.

(** X10: when nobody cancels and the browser does what it is asked, a run
    reports the page, whatever the network and the disk do and whatever is
    raised for single anchors: it emits [result] exactly once, with a
    complete list that [self.products] also holds, closes the browser
    exactly once, and emits no [error] unless that close fails. *)
Theorem undisturbed_run_reports json_loads char_isalnum w url fuel st :
  max_scrolls < fuel → undisturbed w →
  ∃ evs ps,
    trace (snd (run json_loads char_isalnum w url fuel st)) = trace st ++ evs ∧
    results evs = [ps] ∧ result_complete json_loads w ps ∧
    self_products (snd (run json_loads char_isalnum w url fuel st)) = ps ∧
    closes evs = 1 ∧
    (errors evs = [] ∨
     ∃ e, browser_close w = Raises e ∧ errors evs = [MsgCrawlError e]).
Proof.
  intros Hf Hcalm.
  pose proof (run_reports json_loads char_isalnum w url Hcalm fuel st Hf) as Hcount.
  destruct (run_shape json_loads char_isalnum w url fuel st Hf)
    as (evs & st' & Hrun & Htr & Hev).
  rewrite Hrun in *. cbn [snd] in *. rewrite Htr, results_app, length_app in Hcount.
  exists evs.
  destruct Hev as [(_ & -> & _)|[(_ & _ & _ & e & g & Hg & ->)|
    (_ & work & ending & inner & outer & -> & HW & Hend & Hin & Hout)]].
  - cbn in Hcount. lia.
  - destruct (guard_reports _ _ Hg) as (Hr & _).
    rewrite !results_app, Hr in Hcount. cbn in Hcount. lia.
  - destruct (work_reports _ _ HW) as (Hrw & Hew & Hcw & _).
    destruct (inner_reports _ _ Hin) as (Hri & Hci & _ & Hei).
    destruct (outer_reports _ _ Hout) as (Hro & Hco & _ & Heo).
    rewrite !results_app, Hrw, Hri, Hro in Hcount |- *.
    rewrite !errors_app, Hew, !closes_app, Hcw, Hci, Hco.
    destruct Hend as [[-> _]|[(-> & _)|(ps & -> & -> & Hc)]]; [cbn in Hcount; lia..|].
    exists ps. split; [done|]. split; [done|]. split; [done|]. split; [done|].
    split; [done|].
    destruct Hei as [->|(e & _ & [?|?])]; [|done..].
    destruct Heo as [->|(e' & -> & Hbc)]; [by left|]. right. by exists e'.
Qed.

Lemma undisturbed_run_reports_witness :
  ∃ evs ps,
    trace (snd (run Json.loads ascii_isalnum (offline_world (three_cards (lit "12,000")))
                  (lit "https://www.11st.co.kr/category") 101 init_state))
      = trace init_state ++ evs ∧
    results evs = [ps] ∧
    result_complete Json.loads (offline_world (three_cards (lit "12,000"))) ps ∧
    self_products (snd (run Json.loads ascii_isalnum
                          (offline_world (three_cards (lit "12,000")))
                          (lit "https://www.11st.co.kr/category") 101 init_state)) = ps ∧
    closes evs = 1 ∧
    (errors evs = [] ∨
     ∃ e, browser_close (offline_world (three_cards (lit "12,000"))) = Raises e ∧
          errors evs = [MsgCrawlError e]).
Proof.
  apply undisturbed_run_reports; [unfold max_scrolls; lia|].
  repeat split; try reflexivity.
  - intros k. by eexists.
  - by eexists.
  - by right.
Defined.

(** ** The export: log, temporary files and failures *)

Section ExportAccounting.
Variable cell_store : pyval → reply pyval.
Variable xw : export_world.

(** The image step of a row: one log line for the row, which says
    "inserted" exactly when the image was embedded; a temporary file is
    remembered exactly then, and exactly then an image is added. *)
Lemma embed_image_accounts idx row p ex ex' :
  embed_image xw idx row (dict_get p "thumbnail_local" (PStr [])) ex = Returns ex' →
  ∃ line,
    log_text ex' = log_text ex ++ [line] ∧
    log_row line = Some row ∧
    is_inserted line = image_resolvable xw idx p ∧
    temp_files ex' = temp_files ex ++ appended_temp_files xw idx [p] ∧
    length (images (sheet ex'))
    = length (images (sheet ex)) + length (appended_temp_files xw idx [p]).
Proof.
  unfold embed_image, obind, image_resolvable. cbn [appended_temp_files].
  unfold image_resolvable.
  destruct (truthy (dict_get p "thumbnail_local" (PStr []))); cbn [andb].
  - destruct (path_exists xw idx _) as [[|]|e]; [| |done].
    + destruct (prepare_image xw idx _) as [tmp|e]; intros [= <-]; cbn;
        eexists; (split; [done|]); rewrite ?app_nil_r, ?length_app; cbn;
        repeat split; (done || lia).
    + intros [= <-]; cbn. eexists. split; [done|]. rewrite ?app_nil_r.
      repeat split; (done || lia).
  - intros [= <-]; cbn. eexists. split; [done|]. rewrite ?app_nil_r.
    repeat split; (done || lia).
Qed.

Lemma export_row_accounts idx p ex ex' :
  export_row cell_store xw idx p ex = Returns ex' →
  ∃ line,
    log_text ex' = log_text ex ++ [line] ∧
    log_row line = Some (idx + 1) ∧
    is_inserted line = image_resolvable xw idx p ∧
    temp_files ex' = temp_files ex ++ appended_temp_files xw idx [p] ∧
    length (images (sheet ex'))
    = length (images (sheet ex)) + length (appended_temp_files xw idx [p]).
Proof.
  unfold export_row. intros H. cbv zeta in H.
  destruct (ws_cell cell_store (idx + 1) 1 _ (sheet ex)) as [w1|] eqn:E1; [|done].
  cbn [obind] in H.
  destruct (ws_cell cell_store (idx + 1) 3 _ w1) as [w3|] eqn:E3; [|done].
  cbn [obind] in H.
  destruct (ws_cell cell_store (idx + 1) 4 _ w3) as [w4|] eqn:E4; [|done].
  cbn [obind] in H.
  destruct (ws_cell cell_store (idx + 1) 5 _ w4) as [w5|] eqn:E5; [|done].
  cbn [obind] in H.
  destruct (ws_cell cell_store (idx + 1) 6 _ w5) as [w6|] eqn:E6; [|done].
  cbn [obind] in H.
  apply ws_cell_spec in E1 as (? & _ & _ & _ & _ & I1).
  apply ws_cell_spec in E3 as (? & _ & _ & _ & _ & I3).
  apply ws_cell_spec in E4 as (? & _ & _ & _ & _ & I4).
  apply ws_cell_spec in E5 as (? & _ & _ & _ & _ & I5).
  apply ws_cell_spec in E6 as (? & _ & _ & _ & _ & I6).
  apply embed_image_accounts in H as (line & Hl & Hr & Hi & Ht & Hn).
  cbn [sheet log_text temp_files] in *.
  exists line. repeat split; try done. rewrite Hn. congruence.
Qed.

Lemma appended_temp_files_cons idx p rest :
  appended_temp_files xw idx (p :: rest)
  = appended_temp_files xw idx [p] ++ appended_temp_files xw (S idx) rest.
Proof. cbn [appended_temp_files]. by rewrite app_nil_r. Qed.

Lemma export_rows_accounts products : ∀ idx ex ex',
  export_rows cell_store xw idx products ex = Returns ex' →
  ∃ lines,
    log_text ex' = log_text ex ++ lines ∧
    length lines = length products ∧
    (∀ i p, products !! i = Some p →
       ∃ line, lines !! i = Some line ∧ log_row line = Some (idx + i + 1) ∧
               is_inserted line = image_resolvable xw (idx + i) p) ∧
    temp_files ex' = temp_files ex ++ appended_temp_files xw idx products ∧
    length (images (sheet ex'))
    = length (images (sheet ex)) + length (appended_temp_files xw idx products).
Proof.
  induction products as [|p rest IH]; intros idx ex ex'; cbn [export_rows].
  - intros [= <-]. exists []. rewrite !app_nil_r. cbn. repeat split; (done || lia).
  - unfold obind at 1.
    destruct (export_row cell_store xw idx p ex) as [ex1|e] eqn:E; [|done].
    intros Hrest.
    apply export_row_accounts in E as (line & Hl & Hr & Hi & Ht & Hn).
    apply IH in Hrest as (lines & Hl' & Hlen & Hrows & Ht' & Hn').
    exists (line :: lines).
    rewrite appended_temp_files_cons.
    split; [rewrite Hl', Hl, <- app_assoc; done|].
    split; [cbn; lia|]. split; [|split].
    + intros [|i] q Hq.
      * injection Hq as <-. exists line. rewrite !Nat.add_0_r. done.
      * destruct (Hrows i q Hq) as (l & Hli & Hlr & Hlins). exists l.
        replace (idx + S i) with (S idx + i) by lia. done.
    + rewrite Ht', Ht, <- app_assoc. done.
    + rewrite Hn', Hn, length_app. lia.
Qed.

(** *** Why an export fails *)

Lemma ws_cell_raises row col v ws e :
  ws_cell cell_store row col v ws = Raises e → cell_store v = Raises e.
Proof.
  unfold ws_cell, obind.
  destruct v; [done|..];
    (destruct (cell_store _) as [v'|e']; [done|by intros [= ->]]).
Qed.

Lemma write_headers_raises hs : ∀ col ws e,
  write_headers cell_store col hs ws = Raises e →
  ∃ h, h ∈ hs ∧ cell_store (PStr h) = Raises e.
Proof.
  induction hs as [|h hs IH]; intros col ws e; cbn [write_headers]; [done|].
  unfold obind at 1.
  destruct (ws_cell cell_store 1 col (PStr h) ws) as [ws1|e1] eqn:E.
  - intros H. destruct (IH _ _ _ H) as (h' & Hin & Hh'). exists h'.
    split; [by right|done].
  - intros [= ->]. exists h. split; [by left|]. by eapply ws_cell_raises.
Qed.

Lemma embed_image_raises idx row lp ex e :
  embed_image xw idx row lp ex = Raises e → path_exists xw idx lp = Raises e.
Proof.
  unfold embed_image, obind.
  destruct (truthy lp).
  - destruct (path_exists xw idx lp) as [[|]|e']; [| |by intros [= ->]].
    + by destruct (prepare_image xw idx lp).
    + done.
  - done.
Qed.

Lemma export_row_raises idx p ex e :
  export_row cell_store xw idx p ex = Raises e →
  (∃ v, v ∈ cell_values idx p ∧ cell_store v = Raises e) ∨
  path_exists xw idx (dict_get p "thumbnail_local" (PStr [])) = Raises e.
Proof.
  unfold export_row. intros H. cbv zeta in H.
  destruct (ws_cell cell_store (idx + 1) 1 _ (sheet ex)) as [w1|e1] eqn:E1.
  2: { injection H as ->. left. eexists. split; [|by eapply ws_cell_raises].
       unfold cell_values. set_solver. }
  cbn [obind] in H.
  destruct (ws_cell cell_store (idx + 1) 3 _ w1) as [w3|e1] eqn:E3.
  2: { injection H as ->. left. eexists. split; [|by eapply ws_cell_raises].
       unfold cell_values. set_solver. }
  cbn [obind] in H.
  destruct (ws_cell cell_store (idx + 1) 4 _ w3) as [w4|e1] eqn:E4.
  2: { injection H as ->. left. eexists. split; [|by eapply ws_cell_raises].
       unfold cell_values. set_solver. }
  cbn [obind] in H.
  destruct (ws_cell cell_store (idx + 1) 5 _ w4) as [w5|e1] eqn:E5.
  2: { injection H as ->. left. eexists. split; [|by eapply ws_cell_raises].
       unfold cell_values. set_solver. }
  cbn [obind] in H.
  destruct (ws_cell cell_store (idx + 1) 6 _ w5) as [w6|e1] eqn:E6.
  2: { injection H as ->. left. eexists. split; [|by eapply ws_cell_raises].
       unfold cell_values. set_solver. }
  cbn [obind] in H. right. by eapply embed_image_raises.
Qed.

Lemma export_rows_raises products : ∀ idx ex e,
  export_rows cell_store xw idx products ex = Raises e →
  ∃ i p, products !! i = Some p ∧
    ((∃ v, v ∈ cell_values (idx + i) p ∧ cell_store v = Raises e) ∨
     path_exists xw (idx + i) (dict_get p "thumbnail_local" (PStr [])) = Raises e).
Proof.
  induction products as [|p rest IH]; intros idx ex e; cbn [export_rows]; [done|].
  unfold obind at 1.
  destruct (export_row cell_store xw idx p ex) as [ex1|e1] eqn:E.
  - intros H. destruct (IH _ _ _ H) as (i & q & Hq & Hcause).
    exists (S i), q. split; [done|]. by replace (idx + S i) with (S idx + i) by lia.
  - intros [= ->]. exists 0, p. split; [done|]. rewrite Nat.add_0_r.
    by eapply export_row_raises.
Qed.

End ExportAccounting.

(** *** The cleanup loop *)

Lemma remove_temp_files_sublist cw files : ∀ k,
  remove_temp_files cw k files `sublist_of` files.
Proof.
  induction files as [|f rest IH]; intros k; cbn [remove_temp_files]; [done|].
  destruct (temp_exists cw k f) as [[|]|e]; [destruct (os_remove cw k f) as [u|e]| |];
    cbn [app]; first [apply sublist_skip, IH | apply sublist_cons, IH].
Qed.

Lemma remove_temp_files_spec cw files : ∀ k f,
  f ∈ remove_temp_files cw k files ↔
  ∃ i, files !! i = Some f ∧ temp_exists cw (k + i) f = Returns true ∧
       ∃ u, os_remove cw (k + i) f = Returns u.
Proof.
  induction files as [|g rest IH]; intros k f; cbn [remove_temp_files].
  - split; [by intros ?%elem_of_nil|by intros (i & ? & _)].
  - rewrite elem_of_app, IH. split.
    + intros [Hin|(i & Hi & He & Hr)].
      * destruct (temp_exists cw k g) as [[|]|e] eqn:He; [|by apply elem_of_nil in Hin..].
        destruct (os_remove cw k g) as [u|e] eqn:Hr; [|by apply elem_of_nil in Hin].
        apply list_elem_of_singleton in Hin as ->. exists 0.
        rewrite Nat.add_0_r. eauto.
      * exists (S i). by replace (k + S i) with (S k + i) by lia.
    + intros ([|i] & Hi & He & u & Hr).
      * injection Hi as ->. rewrite Nat.add_0_r in He, Hr. left.
        rewrite He, Hr. by left.
      * right. exists i. replace (k + S i) with (S k + i) in He, Hr by lia. eauto.
Qed.

(** X11: a saved export has written one log line per product, in the order
    of the list and each naming the row of its product, followed by the
    line that names the saved file; the line of a product says "inserted"
    exactly when its image was embedded.  The sheet holds one image for
    each path that the export appended to [self.temp_files], and when the
    workbook has been saved [self.temp_files] holds the paths left there by
    earlier exports followed by the appended ones, in the order of the
    rows.  The cleanup that follows goes through these paths and removes
    nothing else: the file of an iteration is removed exactly when
    [os.path.exists] answers [True] for it and [os.remove] returns, and no
    failure of the cleanup fails the export. *)
Theorem export_log_and_temp_files cell_store xw cw products old_temp ws log paths :
  export_to_excel cell_store xw products old_temp = Saved ws log paths →
  paths = old_temp ++ appended_temp_files xw 1 products ∧
  length (images ws) = length (appended_temp_files xw 1 products) ∧
  length log = S (length products) ∧
  log !! length products = Some (LogSaved (save_dialog xw)) ∧
  (∀ i p, products !! i = Some p →
     ∃ line, log !! i = Some line ∧ log_row line = Some (i + 2) ∧
             is_inserted line = image_resolvable xw (S i) p) ∧
  cleaned_up cw (export_to_excel cell_store xw products old_temp)
    `sublist_of` old_temp ++ appended_temp_files xw 1 products ∧
  (∀ f, f ∈ cleaned_up cw (export_to_excel cell_store xw products old_temp) ↔
        ∃ k, paths !! k = Some f ∧ temp_exists cw (S k) f = Returns true ∧
             ∃ u, os_remove cw (S k) f = Returns u).
Proof.
  intros Hsaved. rewrite Hsaved. cbn [cleaned_up]. revert Hsaved.
  unfold export_to_excel. case_bool_decide; [done|]. case_bool_decide; [done|].
  destruct (export_workbook cell_store xw products old_temp) as [[[ws' log'] rm]|e] eqn:E;
    [|done].
  intros [= -> -> ->]. unfold export_workbook, obind in E.
  destruct (new_sheet cell_store) as [ws0|] eqn:Hnew; [|done].
  destruct (export_rows _ _ _ _ _) as [ex|] eqn:Hrows; [|done].
  destruct (workbook_save xw); [|done]. injection E as <- <- <-.
  unfold new_sheet, obind in Hnew.
  destruct (write_headers cell_store 1 headers empty_worksheet) as [wsh|] eqn:Hh; [|done].
  injection Hnew as <-.
  apply write_headers_spec in Hh as (_ & _ & _ & _ & Hh5).
  apply export_rows_accounts in Hrows as (lines & Hl & Hlen & Hlines & Ht & Hn).
  cbn [sheet log_text temp_files images set_column_width] in *.
  rewrite Hh5 in Hn. cbn in Hn.
  split; [done|]. split; [done|]. rewrite Hl. cbn [app].
  split; [rewrite length_app; cbn; lia|].
  split; [rewrite lookup_app_r by lia; by rewrite Hlen, Nat.sub_diag|].
  split.
  { intros i p Hp. destruct (Hlines i p Hp) as (line & Hli & Hr & Hins).
    exists line. split; [by apply lookup_app_l_Some|].
    by replace (1 + i + 1) with (i + 2) in Hr by lia. }
  rewrite Ht. split; [apply remove_temp_files_sublist|].
  intros f. rewrite remove_temp_files_spec. split.
  - intros (k & Hk & He & Hr). exists k. split; [exact Hk|]. split; [exact He|exact Hr].
  - intros (k & Hk & He & Hr). exists k. split; [exact Hk|]. split; [exact He|exact Hr].
Qed.

Lemma export_log_and_temp_files_witness :
  ∃ ws log paths,
    export_to_excel openpyxl_store one_image_disk two_products
        [lit "/tmp/old.jpg"; lit "/tmp/older.jpg"]
      = Saved ws log paths ∧
    paths = [lit "/tmp/old.jpg"; lit "/tmp/older.jpg"]
              ++ appended_temp_files one_image_disk 1 two_products ∧
    length (images ws) = length (appended_temp_files one_image_disk 1 two_products) ∧
    length log = 3 ∧
    log !! 2 = Some (LogSaved (lit "out.xlsx")) ∧
    cleaned_up stubborn_disk
      (export_to_excel openpyxl_store one_image_disk two_products
         [lit "/tmp/old.jpg"; lit "/tmp/older.jpg"])
      `sublist_of` [lit "/tmp/old.jpg"; lit "/tmp/older.jpg"]
                     ++ appended_temp_files one_image_disk 1 two_products.
Proof.
  eexists _, _, _. split; [vm_compute; reflexivity|].
  edestruct (export_log_and_temp_files openpyxl_store one_image_disk stubborn_disk
               two_products [lit "/tmp/old.jpg"; lit "/tmp/older.jpg"])
    as (H1 & H2 & H3 & H4 & _ & H6 & _); [vm_compute; reflexivity|].
  split; [exact H1|]. split; [exact H2|]. split; [exact H3|]. split; [exact H4|exact H6].
Defined.

(** With two leftovers and one embedded image on a disk where the first
    file is gone and the second cannot be removed, the cleanup removes the
    temporary file of the image only. *)
Example cleanup_on_stubborn_disk :
  cleaned_up stubborn_disk
    (export_to_excel openpyxl_store one_image_disk two_products
       [lit "/tmp/old.jpg"; lit "/tmp/older.jpg"])
  = [lit "/tmp/thumbnails/temp_1_1_A.jpg"].
Proof. vm_compute. reflexivity. Qed.

(** X12: an export fails only because openpyxl refuses a header or a value
    of a product, because [os.path.exists] raises, or because the workbook
    cannot be saved.  An image that cannot be decoded or embedded never
    fails the export. *)
Theorem export_fails_only_on cell_store xw products old_temp e :
  export_to_excel cell_store xw products old_temp = ExportFailed e →
  export_failure_cause cell_store xw products e.
Proof.
  unfold export_to_excel. case_bool_decide; [done|]. case_bool_decide; [done|].
  destruct (export_workbook cell_store xw products old_temp) as [[[ws' log'] rm]|e'] eqn:E;
    [done|].
  intros [= ->]. unfold export_workbook, obind in E.
  destruct (new_sheet cell_store) as [ws0|e0] eqn:Hnew.
  2: { injection E as ->. left. unfold new_sheet, obind in Hnew.
       destruct (write_headers cell_store 1 headers empty_worksheet) as [wsh|e1] eqn:Hh;
         [done|].
       injection Hnew as ->. by eapply write_headers_raises. }
  destruct (export_rows _ _ _ _ _) as [ex|e0] eqn:Hrows.
  2: { injection E as ->. right.
       apply export_rows_raises in Hrows as (i & p & Hp & [(v & Hv & Hs)|Hpe]).
       - left. by exists i, p, v.
       - right; left. by exists i, p. }
  destruct (workbook_save xw) as [[]|e0] eqn:Hsave; [done|].
  injection E as ->. by right; right; right.
Qed.

Lemma export_fails_only_on_witness :
  export_failure_cause openpyxl_store corrupt_image_disk [unnamed_product]
    (PyExn "ValueError" (lit "Cannot convert to Excel")).
Proof.
  apply (export_fails_only_on openpyxl_store corrupt_image_disk [unnamed_product] []).
  vm_compute. reflexivity.
Defined.

(** ** The window after a run *)

Lemma signals_app i1 i2 : signals (i1 ++ i2) = signals i1 ++ signals i2.
Proof. unfold signals. apply omap_app. Qed.

(** The inputs can be cut at any event of the worker. *)
Lemma signals_split inputs : ∀ a ev b,
  signals inputs = a ++ ev :: b →
  ∃ ia ib, inputs = ia ++ Signal ev :: ib ∧ signals ia = a ∧ signals ib = b.
Proof.
  induction inputs as [|i inputs IH]; intros a ev b H.
  - by destruct a.
  - destruct i as [e|r].
    + change (signals (Signal e :: inputs)) with (e :: signals inputs) in H.
      destruct a as [|e' a]; cbn [app] in H; injection H as -> H.
      * exists [], inputs. done.
      * destruct (IH _ _ _ H) as (ia & ib & -> & Ha & Hb).
        exists (Signal e' :: ia), ib. split; [done|]. split; [|done].
        change (signals (Signal e' :: ia)) with (e' :: signals ia). by rewrite Ha.
    + change (signals (StopClicked r :: inputs)) with (signals inputs) in H.
      destruct (IH _ _ _ H) as (ia & ib & -> & Ha & Hb).
      exists (StopClicked r :: ia), ib. done.
Qed.

Lemma results_one_split tr ps :
  results tr = [ps] →
  ∃ a b, tr = a ++ Result ps :: b ∧ results a = [] ∧ results b = [].
Proof.
  induction tr as [|ev tr IH]; [done|].
  destruct ev as [| |ps'| | | | | |];
    try (change (results (?e :: tr)) with (results tr); intros H;
         destruct (IH H) as (tr1 & tr2 & -> & Ha & Hb);
         eexists (_ :: tr1), tr2; split; [done|]; split; [exact Ha|exact Hb]).
  change (results (Result ps' :: tr)) with (ps' :: results tr).
  intros [= -> H]. exists [], tr. done.
Qed.

Section WindowFacts.
Variable char_isspace : N → bool.
Variable item_text : pyval → reply pystr.

Lemma deliver_all_app i1 i2 win :
  deliver_all item_text (i1 ++ i2) win
  = match deliver_all item_text i1 win with
    | Returns win1 => deliver_all item_text i2 win1
    | Raises e => Raises e
    end.
Proof.
  revert win. induction i1 as [|i i1 IH]; intros win; [done|].
  cbn [app deliver_all]. unfold obind. destruct (deliver item_text i win); [apply IH|done].
Qed.

(** Inputs without [result] and [finished] leave the products, the table,
    the progress bar and the start and export buttons as they are, and do
    not enable the stop button. *)
Lemma deliver_all_quiet inputs : ∀ win,
  results (signals inputs) = [] → Finished ∉ signals inputs →
  ∃ win', deliver_all item_text inputs win = Returns win' ∧
    win_products win' = win_products win ∧
    result_table win' = result_table win ∧
    progress_bar win' = progress_bar win ∧
    start_btn win' = start_btn win ∧
    export_btn win' = export_btn win ∧
    (stop_btn win = false → stop_btn win' = false).
Proof.
  induction inputs as [|i inputs IH]; intros win Hr Hf.
  - exists win. done.
  - cbn [deliver_all].
    assert (Hstep : ∃ win1, deliver item_text i win = Returns win1 ∧
              win_products win1 = win_products win ∧
              result_table win1 = result_table win ∧
              progress_bar win1 = progress_bar win ∧
              start_btn win1 = start_btn win ∧
              export_btn win1 = export_btn win ∧
              (stop_btn win = false → stop_btn win1 = false)).
    { destruct i as [[| | | | | | | |]|r]; cbn [deliver];
        try (eexists; split; [reflexivity|]; cbn; by repeat split).
      - cbn in Hr. discriminate Hr.
      - exfalso. apply Hf. by left.
      - unfold stop_crawling.
        destruct (crawler win), r; eexists; (split; [reflexivity|]); cbn; by repeat split. }
    destruct Hstep as (win1 & -> & H1 & H2 & H3 & H4 & H5 & H6). cbn [obind].
    destruct (IH win1) as (win' & -> & H1' & H2' & H3' & H4' & H5' & H6').
    { destruct i as [[| | | | | | | |]|r]; done. }
    { intros Hin. apply Hf. destruct i as [ev|r]; [by right|done]. }
    exists win'. split; [done|].
    rewrite H1', H2', H3', H4', H5'. repeat split; try done. auto.
Qed.

Lemma table_rows_length products : ∀ row rows,
  table_rows item_text row products = Returns rows → length rows = length products.
Proof.
  induction products as [|p rest IH]; intros row rows; cbn [table_rows].
  - by intros [= <-].
  - unfold obind. destruct (table_row item_text row p); [|done].
    destruct (table_rows item_text (S row) rest) as [rs|] eqn:E; [|done].
    intros [= <-]. cbn. by rewrite (IH _ _ E).
Qed.

(** The window after the inputs of a run whose events end with the only
    [finished] and hold at most one [result]. *)
Lemma window_after inputs tr0 win win' :
  signals inputs = tr0 ++ [Finished] → Finished ∉ tr0 →
  (results tr0 = [] ∨ ∃ ps, results tr0 = [ps]) →
  deliver_all item_text inputs win = Returns win' →
  start_btn win' = true ∧ stop_btn win' = false ∧
  match results tr0 with
  | [] =>
      win_products win' = win_products win ∧ result_table win' = result_table win ∧
      export_btn win' = (if negb (bool_decide (length (win_products win) = 0))
                         then true else export_btn win)
  | ps :: _ =>
      win_products win' = ps ∧ length (result_table win') = length ps ∧
      progress_bar win' = 100%Z ∧
      export_btn win' = (if negb (bool_decide (length ps = 0))
                         then true else export_btn win)
  end.
Proof.
  intros Hsig Hfin Hres Hdel.
  apply signals_split in Hsig as (ia & clicks & -> & Hia & Hclicks).
  rewrite deliver_all_app in Hdel.
  assert (Hquiet : ∀ wf, ∃ wc,
            deliver_all item_text clicks (crawling_finished wf) = Returns wc ∧
            win_products wc = win_products wf ∧ result_table wc = result_table wf ∧
            progress_bar wc = progress_bar wf ∧ start_btn wc = true ∧
            export_btn wc = (if negb (bool_decide (length (win_products wf) = 0))
                             then true else export_btn wf) ∧
            stop_btn wc = false).
  { intros wf.
    destruct (deliver_all_quiet clicks (crawling_finished wf))
      as (wc & Hwc & C1 & C2 & C3 & C4 & C5 & C6);
      [by rewrite Hclicks|rewrite Hclicks; by intros ?%elem_of_nil|].
    exists wc. split; [done|]. rewrite C1, C2, C3, C4, C5. repeat split. by apply C6. }
  destruct Hres as [Hres|[ps Hres]]; rewrite Hres.
  - destruct (deliver_all_quiet ia win) as (wa & Hwa & A1 & A2 & A3 & A4 & A5 & A6);
      [by rewrite Hia|by rewrite Hia|].
    rewrite Hwa in Hdel. cbn [deliver_all deliver obind] in Hdel.
    destruct (Hquiet wa) as (wc & Hwc & C1 & C2 & C3 & C4 & C5 & C6).
    rewrite Hwc in Hdel. injection Hdel as <-.
    rewrite C4, C1, C2, C5, C6, A1, A2, A5. done.
  - subst tr0. apply results_one_split in Hres as (a & b & Hab & Ha & Hb).
    rewrite Hab in Hfin.
    apply signals_split in Hab as (iaa & iab & -> & Hiaa & Hiab).
    destruct (deliver_all_quiet iaa win) as (wa & Hwa & A1 & A2 & A3 & A4 & A5 & A6).
    { by rewrite Hiaa. }
    { rewrite Hiaa. intros Hin. apply Hfin. apply elem_of_app. by left. }
    rewrite deliver_all_app, Hwa in Hdel. cbn [deliver_all deliver] in Hdel.
    unfold obind at 1 in Hdel.
    destruct (display_results item_text ps wa) as [wd|e] eqn:Hd; [|done].
    destruct (deliver_all_quiet iab wd) as (wb & Hwb & B1 & B2 & B3 & B4 & B5 & B6).
    { by rewrite Hiab. }
    { rewrite Hiab. intros Hin. apply Hfin. apply elem_of_app. right. by right. }
    rewrite Hwb in Hdel. cbn [deliver_all deliver obind] in Hdel.
    destruct (Hquiet wb) as (wc & Hwc & C1 & C2 & C3 & C4 & C5 & C6).
    rewrite Hwc in Hdel. injection Hdel as <-.
    unfold display_results, obind in Hd.
    destruct (table_rows item_text 0 ps) as [rows|] eqn:Hrows; [|done].
    injection Hd as <-. apply table_rows_length in Hrows.
    rewrite C4, C1, C2, C3, C5, C6, B1, B2, B3, B5. cbn. rewrite A5. done.
Qed.

End WindowFacts.

(** X13: when the signals of a run have been handled, in the order in
    which they were emitted and with clicks on the stop button anywhere in
    between, and no slot has raised, the window is idle again: the start
    button is enabled and the stop button disabled.  When the run emitted a
    result, the window holds its products, one table row for each, and the
    progress bar shows 100.  When it did not, the table is empty but
    [self.products] still holds the products of the crawl before, since
    [start_crawling] does not clear them.  In both cases the export button
    is enabled exactly when [self.products] is not empty: after a cancelled
    or failed crawl it exports the products of the crawl before. *)
Theorem window_after_run char_isspace item_text json_loads char_isalnum w fuel
    win url inputs win' :
  max_scrolls < fuel →
  strip char_isspace (url_input win) = url → url ≠ [] →
  signals inputs = trace (snd (run json_loads char_isalnum w url fuel init_state)) →
  deliver_all item_text inputs (start_crawling char_isspace win) = Returns win' →
  start_btn win' = true ∧ stop_btn win' = false ∧
  export_btn win' = negb (bool_decide (length (win_products win') = 0)) ∧
  match results (signals inputs) with
  | [] => win_products win' = win_products win ∧ result_table win' = []
  | ps :: _ =>
      win_products win' = ps ∧ length (result_table win') = length ps ∧
      progress_bar win' = 100%Z
  end.
Proof.
  intros Hf Hurl Hne Hsig Hdel.
  destruct (run_spec json_loads char_isalnum w url fuel init_state Hf (init_state_inv w))
    as (st1 & (_ & _ & _ & Hnofin) & Hrun).
  destruct (run_shape json_loads char_isalnum w url fuel init_state Hf)
    as (evs & st' & Hrun' & Htr & Hev).
  rewrite Hrun in Hsig. cbn [snd log trace] in Hsig.
  assert (Hres : results (trace st1) = [] ∨ ∃ ps, results (trace st1) = [ps]).
  { rewrite Hrun in Hrun'. injection Hrun' as <-. cbn [log trace] in Htr.
    assert (Hr : results (trace st1) = results evs).
    { apply (f_equal results) in Htr. rewrite !results_app in Htr. cbn in Htr.
      by rewrite app_nil_r in Htr. }
    rewrite Hr.
    destruct Hev as [(_ & -> & _)|[(_ & _ & _ & e & g & Hg & ->)|
      (_ & work & ending & inner & outer & -> & HW & Hend & Hin & Hout)]].
    - by left.
    - left. destruct (guard_reports _ _ Hg) as (Hrg & _).
      by rewrite !results_app, Hrg.
    - destruct (work_reports _ _ HW) as (Hrw & _).
      destruct (inner_reports _ _ Hin) as (Hri & _).
      destruct (outer_reports _ _ Hout) as (Hro & _).
      rewrite !results_app, Hrw, Hri, Hro. cbn [results omap app]. rewrite app_nil_r.
      destruct Hend as [[-> _]|[(-> & _)|(ps & -> & _)]]; [by left|by left|].
      right. by exists ps. }
  destruct (window_after item_text inputs (trace st1) _ win' Hsig Hnofin Hres Hdel)
    as (H1 & H2 & H3).
  split; [done|]. split; [done|].
  rewrite Hsig, results_app. cbn [results omap]. rewrite app_nil_r.
  unfold start_crawling in H3. rewrite Hurl in H3.
  rewrite bool_decide_eq_false_2 in H3 by done.
  cbn [win_products result_table export_btn] in H3.
  destruct (results (trace st1)) as [|ps rest].
  - destruct H3 as (Hp & Ht & He). rewrite He, Hp.
    split; [|done]. by destruct (bool_decide _).
  - destruct H3 as (Hp & Ht & Hb & He). rewrite He, Hp.
    split; [|done]. by destruct (bool_decide _).
Qed.

Lemma window_after_run_witness :
  ∃ win',
    deliver_all str_item_text
      [Signal (FlagRead false); StopClicked true; Signal Finished]
      (start_crawling ascii_isspace window_with_old_products) = Returns win' ∧
    start_btn win' = true ∧ stop_btn win' = false ∧
    export_btn win' = true ∧
    win_products win' = two_products ∧ result_table win' = [].
Proof.
  exists {| url_input := lit " https://www.11st.co.kr/category ";
            win_products := two_products;
            crawler := Some (lit "https://www.11st.co.kr/category");
            start_btn := true; stop_btn := false; export_btn := true;
            log_lines := [LineStart (lit "https://www.11st.co.kr/category");
                          LineStopRequested; LineStopping];
            result_table := []; progress_bar := 0; boxes := [] |}.
  assert (Hdel : deliver_all str_item_text
            [Signal (FlagRead false); StopClicked true; Signal Finished]
            (start_crawling ascii_isspace window_with_old_products)
          = Returns {| url_input := lit " https://www.11st.co.kr/category ";
                       win_products := two_products;
                       crawler := Some (lit "https://www.11st.co.kr/category");
                       start_btn := true; stop_btn := false; export_btn := true;
                       log_lines := [LineStart (lit "https://www.11st.co.kr/category");
                                     LineStopRequested; LineStopping];
                       result_table := []; progress_bar := 0; boxes := [] |})
    by reflexivity.
  split; [exact Hdel|].
  destruct (window_after_run ascii_isspace str_item_text Json.loads ascii_isalnum
              (stopped_world 0 []) 101 window_with_old_products
              (lit "https://www.11st.co.kr/category")
              [Signal (FlagRead false); StopClicked true; Signal Finished] _
              ltac:(unfold max_scrolls; lia) eq_refl ltac:(done) eq_refl Hdel)
    as (H1 & H2 & H3 & H4 & H5).
  split; [exact H1|]. split; [exact H2|]. split; [exact H3|]. split; [exact H4|exact H5].
Defined.
